(** * CCTelegram audit scripts: a shallow embedding and its properties

    Two scripts of the repository are embedded here:

    - [scripts/scorecard-compare.py]: the comparison of a current OpenSSF
      scorecard with a baseline and the ranking of the follow-up actions
      (module [Scorecard]);
    - [scripts/security-config-check.py]: the eight security configuration
      checks, the runner and the report (modules [Re], [Fs], [Checker]).

    Python dictionaries are association lists in insertion order: assigning
    to an existing key keeps the key's position and replaces its value, a
    new key goes to the end.  Python integers are [Z].  Text is [string],
    one [ascii] per character (code points below 256). *)

From Stdlib Require Import List String Ascii ZArith Lia Bool Arith.
From Stdlib Require Import Permutation Sorted.
From Stdlib Require Import PrimFloat FloatOps SpecFloat QArith Qabs.
From Stdlib Require Uint63.
Import ListNotations.
Set Warnings "-register-all,-inexact-float".
Open Scope string_scope.
Open Scope Z_scope.
Open Scope list_scope.

(** ** Dictionaries with insertion order *)

Module Dict.

Section WithValue.
Context {V : Type}.

(** [d.get(k)] *)
Fixpoint get (k : string) (d : list (string * V)) : option V :=
  match d with
  | [] => None
  | (k', v) :: d' => if String.eqb k k' then Some v else get k d'
  end.

(** [k in d] *)
Definition mem (k : string) (d : list (string * V)) : bool :=
  match get k d with Some _ => true | None => false end.

(** [d[k] = v] *)
Fixpoint set (k : string) (v : V) (d : list (string * V)) : list (string * V) :=
  match d with
  | [] => [(k, v)]
  | (k', v') :: d' =>
      if String.eqb k k' then (k', v) :: d' else (k', v') :: set k v d'
  end.

Definition keys (d : list (string * V)) : list string := map fst d.
Definition values (d : list (string * V)) : list V := map snd d.

End WithValue.

End Dict.

(** ** scripts/scorecard-compare.py *)

Module Scorecard.

(** One element of the ["checks"] list of a scorecard result.  Every key
    may be absent: [check['name']] raises [KeyError] then, the others are
    read with [.get] and a default.  A score that is present is an
    integer, as Scorecard writes it; a score that is [null] or no number,
    on which the subtraction of [calculate_score_diff] raises [TypeError],
    is outside the record. *)
Record check := mk_check {
  name : option string;
  score : option Z;
  reason : option string;
  documentation : option (list (string * string))
}.

Inductive status := improved | declined | unchanged | missing.

Record check_analysis := mk_analysis {
  a_current_score : Z;
  a_baseline_score : Z;
  a_diff : Z;
  a_status : status;
  a_current_reason : string;
  a_baseline_reason : string;
  a_documentation : list (string * string)
}.

Inductive priority := high | medium | low.

Inductive action_kind := investigate_decline | restore_check | improve_security.

Record action := mk_action {
  act_check : string;
  act_priority : priority;
  act_action : action_kind;
  act_current_score : Z;
  act_baseline_score : Z;
  act_diff : Z;
  act_reason : string
}.

(** [calculate_score_diff] *)
Definition calculate_score_diff (current baseline : Z) : Z * status :=
  let diff := current - baseline in
  if 0 <? diff then (diff, improved)
  else if diff <? 0 then (diff, declined)
  else (diff, unchanged).

(** [{check['name']: check for check in checks}]; [None] is the
    [KeyError] of a check without a name. *)
Fixpoint by_name (checks : list check) (acc : list (string * check))
  : option (list (string * check)) :=
  match checks with
  | [] => Some acc
  | c :: rest =>
      match name c with
      | None => None
      | Some n => by_name rest (Dict.set n c acc)
      end
  end.

Definition get_score (c : option check) : Z :=
  match c with
  | Some c => match score c with Some s => s | None => 0 end
  | None => 0
  end.

Definition get_reason (c : option check) : string :=
  match c with
  | Some c => match reason c with Some s => s | None => "" end
  | None => ""
  end.

Definition get_documentation (c : option check) : list (string * string) :=
  match c with
  | Some c => match documentation c with Some d => d | None => [] end
  | None => []
  end.

(** The body of the first loop of [analyze_individual_checks];
    [baseline_dict.get(check_name, {})] is [None] when the name is not in
    the baseline. *)
Definition analyze_current (baseline_dict : list (string * check))
  (analysis : list (string * check_analysis)) (item : string * check)
  : list (string * check_analysis) :=
  let '(check_name, current_check) := item in
  let baseline_check := Dict.get check_name baseline_dict in
  let current_score := get_score (Some current_check) in
  let baseline_score := get_score baseline_check in
  let '(diff, st) := calculate_score_diff current_score baseline_score in
  Dict.set check_name
    {| a_current_score := current_score;
       a_baseline_score := baseline_score;
       a_diff := diff;
       a_status := st;
       a_current_reason := get_reason (Some current_check);
       a_baseline_reason := get_reason baseline_check;
       a_documentation := get_documentation (Some current_check) |}
    analysis.

(** The body of the second loop. *)
Definition analyze_baseline (current_dict : list (string * check))
  (analysis : list (string * check_analysis)) (item : string * check)
  : list (string * check_analysis) :=
  let '(check_name, baseline_check) := item in
  if negb (Dict.mem check_name current_dict) then
    Dict.set check_name
      {| a_current_score := 0;
         a_baseline_score := get_score (Some baseline_check);
         a_diff := - get_score (Some baseline_check);
         a_status := missing;
         a_current_reason := "Check not found in current results";
         a_baseline_reason := get_reason (Some baseline_check);
         a_documentation := [] |}
      analysis
  else analysis.

(** [analyze_individual_checks] *)
Definition analyze_individual_checks (current_checks baseline_checks : list check)
  : option (list (string * check_analysis)) :=
  match by_name baseline_checks [] with
  | None => None
  | Some baseline_dict =>
      match by_name current_checks [] with
      | None => None
      | Some current_dict =>
          let analysis := fold_left (analyze_current baseline_dict) current_dict [] in
          Some (fold_left (analyze_baseline current_dict) baseline_dict analysis)
      end
  end.

Definition security_critical_checks : list string :=
  [ "Vulnerabilities"; "Code-Review"; "Branch-Protection";
    "Token-Permissions"; "Dangerous-Workflow"; "Security-Policy" ].

(** [check_name in security_critical_checks] *)
Definition is_critical (check_name : string) : bool :=
  existsb (String.eqb check_name) security_critical_checks.

Definition status_eqb (a b : status) : bool :=
  match a, b with
  | improved, improved | declined, declined
  | unchanged, unchanged | missing, missing => true
  | _, _ => false
  end.

Definition make_action (check_name : string) (p : priority) (k : action_kind)
  (data : check_analysis) : action :=
  {| act_check := check_name;
     act_priority := p;
     act_action := k;
     act_current_score := a_current_score data;
     act_baseline_score := a_baseline_score data;
     act_diff := a_diff data;
     act_reason := a_current_reason data |}.

(** The body of the loop of [identify_priority_actions]: the
    [if]/[elif]/[elif] chain, each branch one [actions.append]. *)
Definition rank_step (actions : list action) (item : string * check_analysis)
  : list action :=
  let '(check_name, data) := item in
  if status_eqb (a_status data) declined then
    let p := if is_critical check_name then high else medium in
    actions ++ [make_action check_name p investigate_decline data]
  else if status_eqb (a_status data) missing then
    actions ++ [make_action check_name high restore_check data]
  else if (a_current_score data <? 7) && is_critical check_name then
    actions ++ [make_action check_name medium improve_security data]
  else actions.

(** [priority_order] *)
Definition priority_order (p : priority) : Z :=
  match p with high => 0 | medium => 1 | low => 2 end.

(** The sort key [(priority_order[x['priority']], x['diff'])]. *)
Definition sort_key (a : action) : Z * Z :=
  (priority_order (act_priority a), act_diff a).

(** Python's order on pairs: [k1 <= k2], [k1 < k2]. *)
Definition key_leb (k1 k2 : Z * Z) : bool :=
  (fst k1 <? fst k2) || ((fst k1 =? fst k2) && (snd k1 <=? snd k2)).

Definition key_ltb (k1 k2 : Z * Z) : bool :=
  (fst k1 <? fst k2) || ((fst k1 =? fst k2) && (snd k1 <? snd k2)).

Definition key_eqb (k1 k2 : Z * Z) : bool :=
  (fst k1 =? fst k2) && (snd k1 =? snd k2).

(** The order of the sort, in words: a smaller priority rank first, and
    among equal ranks a smaller score difference first. *)
Definition action_le (a b : action) : Prop :=
  priority_order (act_priority a) < priority_order (act_priority b) \/
  (priority_order (act_priority a) = priority_order (act_priority b) /\
   act_diff a <= act_diff b).

(** The actions whose sort key is [k]. *)
Definition with_key (k : Z * Z) (l : list action) : list action :=
  filter (fun a => key_eqb (sort_key a) k) l.

(** The actions that concern the check [n]. *)
Definition actions_on (n : string) (l : list action) : list action :=
  filter (fun a => String.eqb (act_check a) n) l.

(** [list.sort(key=...)] is a stable sort.  It is embedded as the
    insertion sort that takes the elements from the right and puts each
    one in front of the first element whose key is not smaller. *)
Fixpoint insert_by_key (x : action) (l : list action) : list action :=
  match l with
  | [] => [x]
  | y :: l' =>
      if key_leb (sort_key x) (sort_key y) then x :: y :: l'
      else y :: insert_by_key x l'
  end.

Fixpoint sort_by_key (l : list action) : list action :=
  match l with
  | [] => []
  | x :: l' => insert_by_key x (sort_by_key l')
  end.

(** The action list before [actions.sort]. *)
Definition collect_actions (analysis : list (string * check_analysis))
  : list action :=
  fold_left rank_step analysis [].

(** [identify_priority_actions] *)
Definition identify_priority_actions (analysis : list (string * check_analysis))
  : list action :=
  sort_by_key (collect_actions analysis).

End Scorecard.


(** ** scripts/scorecard-compare.py: the machine-readable summary *)

Module ScorecardSummary.
Import Scorecard.

(** A scorecard result as [main] reads it: [data.get('score', 0)] and
    [data.get('checks', [])].  Scores are integers here, as for the
    checks. *)
Record scorecard := mk_scorecard {
  sc_score : option Z;
  sc_checks : option (list check)
}.

Definition overall_score_of (data : scorecard) : Z :=
  match sc_score data with Some s => s | None => 0 end.

Definition checks_of (data : scorecard) : list check :=
  match sc_checks data with Some l => l | None => [] end.

(** The ['overall'] object. *)
Record overall := mk_overall {
  o_current_score : Z;
  o_baseline_score : Z;
  o_diff : Z;
  o_status : status
}.

(** The ['summary'] object. *)
Record counts := mk_counts {
  improved_checks : nat;
  declined_checks : nat;
  unchanged_checks : nat;
  missing_checks : nat;
  high_priority_actions : nat;
  medium_priority_actions : nat
}.

Record json_summary := mk_json_summary {
  js_timestamp : string;
  js_overall : overall;
  js_checks : list (string * check_analysis);
  js_priority_actions : list action;
  js_summary : counts
}.

Definition priority_eqb (a b : priority) : bool :=
  match a, b with
  | high, high | medium, medium | low, low => true
  | _, _ => false
  end.

(** [len([a for a in analysis.values() if a['status'] == st])] *)
Definition count_status (st : status) (analysis : list (string * check_analysis))
  : nat :=
  List.length
    (filter (fun a => status_eqb (a_status a) st) (Dict.values analysis)).

(** [len([a for a in actions if a['priority'] == p])] *)
Definition count_priority (p : priority) (actions : list action) : nat :=
  List.length (filter (fun a => priority_eqb (act_priority a) p) actions).

(** [generate_json_summary]; [now] is [datetime.now().isoformat()]. *)
Definition generate_json_summary (now : string)
  (current_data baseline_data : scorecard)
  (analysis : list (string * check_analysis)) (actions : list action)
  : json_summary :=
  let current_score := overall_score_of current_data in
  let baseline_score := overall_score_of baseline_data in
  let '(score_diff, score_status) :=
    calculate_score_diff current_score baseline_score in
  {| js_timestamp := now;
     js_overall :=
       {| o_current_score := current_score;
          o_baseline_score := baseline_score;
          o_diff := score_diff;
          o_status := score_status |};
     js_checks := analysis;
     js_priority_actions := actions;
     js_summary :=
       {| improved_checks := count_status improved analysis;
          declined_checks := count_status declined analysis;
          unchanged_checks := count_status unchanged analysis;
          missing_checks := count_status missing analysis;
          high_priority_actions := count_priority high actions;
          medium_priority_actions := count_priority medium actions |} |}.


(** *** Names for the statements on the analysis *)

(** Improved and declined exchanged. *)
Definition flip (st : status) : status :=
  match st with
  | improved => declined
  | declined => improved
  | unchanged => unchanged
  | missing => missing
  end.


(** [c] is named [n]. *)
Definition named_as (n : string) (c : check) : bool :=
  match name c with Some m => String.eqb m n | None => false end.


(** The analysis entry of a check [c] of the current results, named [n],
    against the baseline dictionary [bd]. *)
Definition current_entry (bd : list (string * check)) (n : string) (c : check)
  : check_analysis :=
  {| a_current_score := get_score (Some c);
     a_baseline_score := get_score (Dict.get n bd);
     a_diff := get_score (Some c) - get_score (Dict.get n bd);
     a_status :=
       snd (calculate_score_diff (get_score (Some c))
              (get_score (Dict.get n bd)));
     a_current_reason := get_reason (Some c);
     a_baseline_reason := get_reason (Dict.get n bd);
     a_documentation := get_documentation (Some c) |}.

End ScorecardSummary.

(** ** The order of the ranking, in the words of the specification *)

Module RankingSpec.
Import Scorecard.

(** High before medium before low. *)
Inductive outranks : priority -> priority -> Prop :=
| high_medium : outranks high medium
| high_low : outranks high low
| medium_low : outranks medium low.

(** [a] may stand before [b]: [a] has the higher priority, or the two have
    the same priority and the score difference of [a] is not the larger. *)
Definition may_precede (a b : action) : Prop :=
  outranks (act_priority a) (act_priority b) \/
  (act_priority a = act_priority b /\ act_diff a <= act_diff b).

Definition same_priority (p q : priority) : bool :=
  match p, q with
  | high, high | medium, medium | low, low => true
  | _, _ => false
  end.

(** The actions of priority [p] and score difference [d], in the order
    they have in the list. *)
Definition tied (p : priority) (d : Z) (l : list action) : list action :=
  filter (fun a => same_priority (act_priority a) p && (act_diff a =? d)) l.

End RankingSpec.

(** ** Text: [str.lower] and the substring test [x in s] *)

Module Text.

Definition dquote : ascii := "034"%char.
Definition squote : ascii := "039"%char.
Definition newline : ascii := "010"%char.

(** [str.lower] on one character below 256: A-Z, and the capital letters
    of Latin-1 (U+00C0 to U+00DE but the multiplication sign). *)
Definition lower_char (c : ascii) : ascii :=
  let n := nat_of_ascii c in
  if (Nat.leb 65 n && Nat.leb n 90)
     || (Nat.leb 192 n && Nat.leb n 222 && negb (Nat.eqb n 215))
  then ascii_of_nat (n + 32) else c.

(** [s.lower()] *)
Fixpoint lower (s : string) : string :=
  match s with
  | EmptyString => EmptyString
  | String c s' => String (lower_char c) (lower s')
  end.

(** [needle in hay] for two strings *)
Fixpoint contains (needle hay : string) : bool :=
  String.prefix needle hay ||
  match hay with
  | EmptyString => false
  | String _ hay' => contains needle hay'
  end.

End Text.

(** ** The regular expressions of the rule tables

    The patterns of the script use literals, [.], [\s], character sets,
    [*] and [{n,}]; [re.search] and [re.findall] find something exactly
    when some substring of the text is in the language of the pattern. *)

Module Re.

Inductive regex :=
| Chr (c : ascii)                  (* a literal character *)
| Dot                              (* [.]: any character but a newline *)
| Space                            (* [\s] *)
| OneOf (cs : list ascii)          (* [[...]] *)
| NoneOf (cs : list ascii)         (* [[^...]] *)
| Eps                              (* the empty pattern *)
| Seq (r1 r2 : regex)
| Star (r : regex)                 (* [r*] *)
| AtLeast (n : nat) (r : regex).   (* [r{n,}] *)

(** The pattern of a literal text. *)
Fixpoint lit (s : string) : regex :=
  match s with
  | EmptyString => Eps
  | String c EmptyString => Chr c
  | String c s' => Seq (Chr c) (lit s')
  end.

Definition ascii_in (c : ascii) (cs : list ascii) : bool :=
  existsb (Ascii.eqb c) cs.

(** Whitespace of [\s] on text patterns, below 256. *)
Definition is_space (c : ascii) : bool :=
  let n := nat_of_ascii c in
  (Nat.leb 9 n && Nat.leb n 13) || (Nat.leb 28 n && Nat.leb n 32)
  || Nat.eqb n 133 || Nat.eqb n 160.

(** One literal against one character of the text; with [re.IGNORECASE]
    the two are compared after lowering.  Texts are over the code points
    below 256; beyond them [re] also takes U+212A for [k] and U+017F for
    [s], so the matcher finds less than [re] on such a text, never more
    on a text below 256. *)
Definition chr_matches (ignorecase : bool) (p c : ascii) : bool :=
  if ignorecase then Ascii.eqb (Text.lower_char p) (Text.lower_char c)
  else Ascii.eqb p c.

Definition one (ok : ascii -> bool) (s : list ascii) : list (list ascii) :=
  match s with
  | c :: s' => if ok c then [s'] else []
  | [] => []
  end.

(** [n] repetitions of a step. *)
Fixpoint times (n : nat) (step : list ascii -> list (list ascii))
  (s : list ascii) : list (list ascii) :=
  match n with
  | O => [s]
  | S n' => flat_map (times n' step) (step s)
  end.

(** Any number of repetitions; a repetition that consumes nothing is not
    taken again, so [length s] rounds are enough. *)
Fixpoint star (fuel : nat) (step : list ascii -> list (list ascii))
  (s : list ascii) : list (list ascii) :=
  match fuel with
  | O => [s]
  | S fuel' =>
      s :: flat_map
             (fun s' => if Nat.ltb (List.length s') (List.length s)
                        then star fuel' step s' else [])
             (step s)
  end.

(** [rests ic r s]: what is left of [s] after each way of matching [r]
    at the beginning of [s]. *)
Fixpoint rests (ignorecase : bool) (r : regex) (s : list ascii)
  : list (list ascii) :=
  match r with
  | Chr p => one (chr_matches ignorecase p) s
  | Dot => one (fun c => negb (Ascii.eqb c Text.newline)) s
  | Space => one is_space s
  | OneOf cs => one (fun c => ascii_in c cs) s
  | NoneOf cs => one (fun c => negb (ascii_in c cs)) s
  | Eps => [s]
  | Seq r1 r2 => flat_map (rests ignorecase r2) (rests ignorecase r1 s)
  | Star r' => star (List.length s) (rests ignorecase r') s
  | AtLeast n r' =>
      flat_map (fun s' => star (List.length s') (rests ignorecase r') s')
        (times n (rests ignorecase r') s)
  end.

Definition matches_at (ignorecase : bool) (r : regex) (s : list ascii) : bool :=
  match rests ignorecase r s with [] => false | _ :: _ => true end.

Fixpoint search_from (ignorecase : bool) (r : regex) (s : list ascii) : bool :=
  matches_at ignorecase r s ||
  match s with
  | [] => false
  | _ :: s' => search_from ignorecase r s'
  end.

(** [re.search(pattern, content, re.IGNORECASE)] as a truth value, and
    the truth value of [re.findall(pattern, content, re.IGNORECASE)]. *)
Definition search (r : regex) (content : string) (ignorecase : bool) : bool :=
  search_from ignorecase r (list_ascii_of_string content).

Definition IGNORECASE : bool := true.

Definition seq (rs : list regex) : regex := fold_right Seq Eps rs.

(** The language of a pattern: the texts it matches from end to end. *)
Inductive lang (ignorecase : bool) : regex -> list ascii -> Prop :=
| lang_chr p c :
    chr_matches ignorecase p c = true -> lang ignorecase (Chr p) [c]
| lang_dot c :
    Ascii.eqb c Text.newline = false -> lang ignorecase Dot [c]
| lang_space c :
    is_space c = true -> lang ignorecase Space [c]
| lang_one_of cs c :
    ascii_in c cs = true -> lang ignorecase (OneOf cs) [c]
| lang_none_of cs c :
    ascii_in c cs = false -> lang ignorecase (NoneOf cs) [c]
| lang_eps : lang ignorecase Eps []
| lang_seq r1 r2 u v :
    lang ignorecase r1 u -> lang ignorecase r2 v ->
    lang ignorecase (Seq r1 r2) (u ++ v)
| lang_star_nil r : lang ignorecase (Star r) []
| lang_star_more r u v :
    lang ignorecase r u -> lang ignorecase (Star r) v ->
    lang ignorecase (Star r) (u ++ v)
| lang_at_least_0 r u :
    lang ignorecase (Star r) u -> lang ignorecase (AtLeast 0 r) u
| lang_at_least_S n r u v :
    lang ignorecase r u -> lang ignorecase (AtLeast n r) v ->
    lang ignorecase (AtLeast (S n) r) (u ++ v).

End Re.

(** ** The project snapshot of scripts/security-config-check.py

    The script reads the project through [pathlib]: existence tests,
    [stat], [read_text], [glob] and [rglob].  A snapshot gives the answers
    of these calls.  Paths are written relative to the project root, with
    [/] between the components.

    A snapshot is of a project whose paths can be inspected: [exists],
    [stat] and the two globs answer, and only [read_text] may raise.  (On a
    path below a directory that cannot be searched, [exists] and [stat]
    raise [PermissionError]; such a project has no snapshot, and a check
    that meets one raises where the statements below speak of a check that
    returns.) *)

Module Fs.

(** A raised exception: its class name and its text ([str(e)]). *)
Record exn := mk_exn { exn_class : string; exn_text : string }.

Inductive result (A : Type) :=
| Ok (a : A)
| Raise (e : exn).
Arguments Ok {A} a.
Arguments Raise {A} e.

Record snapshot := mk_snapshot {
  path_exists : string -> bool;          (* [p.exists()] *)
  st_mode : string -> N;                 (* [p.stat().st_mode] *)
  read_text : string -> result string;   (* [p.read_text()] *)
  rglob : string -> string -> list string; (* [dir.rglob(pattern)] *)
  glob : string -> string -> list string;  (* [dir.glob(pattern)] *)
  show_path : string -> string           (* [str(self.project_root / p)] *)
}.

(** [a / b] on paths; the project root itself is the empty path. *)
Definition join (a b : string) : string :=
  match a with
  | EmptyString => b
  | _ => (a ++ "/" ++ b)%string
  end.

(** [p.name]: the last component. *)
Fixpoint name_from (p acc : string) : string :=
  match p with
  | EmptyString => acc
  | String c p' =>
      if Ascii.eqb c "/" then name_from p' EmptyString
      else name_from p' (acc ++ String c EmptyString)%string
  end.

Definition name (p : string) : string := name_from p EmptyString.

End Fs.

(** ** The values of [json.loads] *)

Module Json.

Inductive json :=
| JNull
| JBool (b : bool)
| JInt (n : Z)
| JFloat (f : float)
| JStr (s : string)
| JList (l : list json)
| JDict (d : list (string * json)).

(** [type(j).__name__] *)
Definition type_name (j : json) : string :=
  match j with
  | JNull => "NoneType"
  | JBool _ => "bool"
  | JInt _ => "int"
  | JFloat _ => "float"
  | JStr _ => "str"
  | JList _ => "list"
  | JDict _ => "dict"
  end.

Definition attribute_error (j : json) (attr : string) : Fs.exn :=
  Fs.mk_exn "AttributeError"
    ("'" ++ type_name j ++ "' object has no attribute '" ++ attr ++ "'")%string.

(** [j.get(key, {})] *)
Definition get_or_empty (j : json) (key : string) : Fs.result json :=
  match j with
  | JDict d =>
      Fs.Ok (match Dict.get key d with Some v => v | None => JDict [] end)
  | _ => Fs.Raise (attribute_error j "get")
  end.

(** [j.keys()] *)
Definition keys (j : json) : Fs.result (list string) :=
  match j with
  | JDict d => Fs.Ok (Dict.keys d)
  | _ => Fs.Raise (attribute_error j "keys")
  end.

Definition is_str (s : string) (j : json) : bool :=
  match j with JStr s' => String.eqb s s' | _ => false end.

(** [s in j] for a string [s]: a key of a dictionary, an element of a
    list, a substring of a string; a [TypeError] otherwise. *)
Definition contains (s : string) (j : json) : Fs.result bool :=
  match j with
  | JDict d => Fs.Ok (Dict.mem s d)
  | JList l => Fs.Ok (existsb (is_str s) l)
  | JStr t => Fs.Ok (Text.contains s t)
  | _ => Fs.Raise (Fs.mk_exn "TypeError"
           ("argument of type '" ++ type_name j ++ "' is not iterable")%string)
  end.

End Json.

(** ** scripts/security-config-check.py: the checker state *)

Module Checker.
Import Fs.

(** An element of [results["issues"]]. *)
Record issue := mk_issue {
  component : string;
  severity : string;
  message : string;
  recommendation : string
}.

(** An element of [results["recommendations"]]. *)
Record advice := mk_advice {
  adv_component : string;
  adv_message : string
}.

(** [self.results]; the last three keys are absent until
    [generate_report] writes them. *)
Record results := mk_results {
  timestamp : string;
  overall_status : string;
  scores : list (string * Z);
  issues : list issue;
  recommendations : list advice;
  overall_score : option Z;
  max_score : option Z;
  percentage : option float
}.

(** [__init__] *)
Definition init : results :=
  {| timestamp := ""; overall_status := "pending"; scores := [];
     issues := []; recommendations := [];
     overall_score := None; max_score := None; percentage := None |}.

(** A method of the checker: it reads and updates [self.results] and
    returns a value or raises. *)
Definition M (A : Type) : Type := results -> result A * results.

Definition ret {A} (a : A) : M A := fun r => (Ok a, r).

Definition bind {A B} (m : M A) (f : A -> M B) : M B :=
  fun r =>
    match m r with
    | (Ok a, r') => f a r'
    | (Raise e, r') => (Raise e, r')
    end.

Definition lift {A} (x : result A) : M A := fun r => (x, r).

Notation "x <- m ;; f" := (bind m (fun x => f))
  (at level 61, m at next level, right associativity).
Notation "m ;;; f" := (bind m (fun _ => f))
  (at level 61, right associativity).

(** [try: body except (classes): pass], the value [fallback] standing for
    the local variables as they were before the failing statement. *)
Definition try_except {A} (classes : list string) (fallback : A) (body : M A)
  : M A :=
  fun r =>
    match body r with
    | (Ok a, r') => (Ok a, r')
    | (Raise e, r') =>
        if existsb (String.eqb (exn_class e)) classes
        then (Ok fallback, r') else (Raise e, r')
    end.

(** [for x in xs: acc = body(acc, x)] *)
Fixpoint for_each {X A} (xs : list X) (acc : A) (body : A -> X -> M A) : M A :=
  match xs with
  | [] => ret acc
  | x :: xs' => acc' <- body acc x ;; for_each xs' acc' body
  end.

(** [log_issue] *)
Definition log_issue (component severity message recommendation : string)
  : M unit :=
  fun r =>
    (Ok tt,
     {| timestamp := timestamp r; overall_status := overall_status r;
        scores := scores r;
        issues := issues r ++ [mk_issue component severity message recommendation];
        recommendations := recommendations r;
        overall_score := overall_score r; max_score := max_score r;
        percentage := percentage r |}).

(** [log_recommendation] *)
Definition log_recommendation (component message : string) : M unit :=
  fun r =>
    (Ok tt,
     {| timestamp := timestamp r; overall_status := overall_status r;
        scores := scores r;
        issues := issues r;
        recommendations := recommendations r ++ [mk_advice component message];
        overall_score := overall_score r; max_score := max_score r;
        percentage := percentage r |}).

(** [self.results["scores"][key] = score] *)
Definition set_score (key : string) (score : Z) : M unit :=
  fun r =>
    (Ok tt,
     {| timestamp := timestamp r; overall_status := overall_status r;
        scores := Dict.set key score (scores r);
        issues := issues r;
        recommendations := recommendations r;
        overall_score := overall_score r; max_score := max_score r;
        percentage := percentage r |}).

(** *** Small pieces of Python *)

Definition octal_digit (n : N) : ascii := ascii_of_N (48 + n).

Fixpoint oct_digits (fuel : nat) (n : N) (acc : string) : string :=
  match fuel with
  | O => acc
  | S fuel' =>
      let acc' := String (octal_digit (N.modulo n 8)) acc in
      if N.eqb (N.div n 8) 0 then acc' else oct_digits fuel' (N.div n 8) acc'
  end.

(** [oct(n)] *)
Definition oct (n : N) : string :=
  ("0o" ++ oct_digits (S (N.size_nat n)) n "")%string.

(** [s[-3:]] *)
Definition last3 (s : string) : string :=
  let n := String.length s in
  String.substring (n - 3) 3 s.

(** [int(s[i])] for a one-character text: a decimal digit or a
    [ValueError]; [IndexError] when [s] is too short. *)
Definition int_at (i : nat) (s : string) : result Z :=
  match String.get i s with
  | None => Raise (mk_exn "IndexError" "string index out of range")
  | Some c =>
      let n := nat_of_ascii c in
      if Nat.leb 48 n && Nat.leb n 57 then Ok (Z.of_nat (n - 48))
      else Raise (mk_exn "ValueError"
             ("invalid literal for int() with base 10: '"
                ++ String c "'")%string)
  end.

Definition project_root : string := "".
Definition bridge_root : string := project_root.
Definition mcp_root : string := join project_root "mcp-server".

(** *** The eight checks *)

Section Checks.

Variable fs : snapshot.

(** [json.loads], with its [JSONDecodeError]. *)
Variable json_loads : string -> result Json.json.

Definition sensitive_files : list string :=
  [ ".env"; "config.toml"; "mcp-server/.env"; "mcp-server/config.json" ].

(** [check_file_permissions] *)
Definition check_file_permissions : M Z :=
  score <- for_each sensitive_files 10 (fun score file_path =>
    let full_path := join project_root file_path in
    if path_exists fs full_path then
      let permissions := last3 (oct (st_mode fs full_path)) in
      others <- lift (int_at 2 permissions) ;;
      if 0 <? others then
        log_issue "FilePermissions" "warning"
          (file_path ++ " is readable by others (permissions: "
             ++ permissions ++ ")")%string
          ("Run: chmod 600 " ++ show_path fs full_path)%string ;;;
        ret (score - 2)
      else ret score
    else ret score) ;;
  set_score "file_permissions" score ;;;
  ret score.

Definition quotes : list ascii := [Text.dquote; Text.squote].

(** The shape of the four secret patterns: [word], blanks, [=], blanks, a
    single or double quote, [n] or more characters that are no quotes, and
    a quote again. *)
Definition assigned_literal (word : string) (n : nat) : Re.regex :=
  Re.seq [ Re.lit word; Re.Star Re.Space; Re.Chr "="; Re.Star Re.Space;
           Re.OneOf quotes; Re.AtLeast n (Re.NoneOf quotes); Re.OneOf quotes ].

Definition hardcoded_patterns : list (Re.regex * string) :=
  [ (assigned_literal "token" 20, "Hardcoded token");
    (assigned_literal "key" 16, "Hardcoded key");
    (assigned_literal "password" 8, "Hardcoded password");
    (assigned_literal "secret" 12, "Hardcoded secret") ].

(** [_check_file_for_patterns]: the score is a parameter and the result;
    a read that raises [UnicodeDecodeError] or [PermissionError] leaves the
    function through the handler with the score as it came in. *)
Definition _check_file_for_patterns (file_path : string)
  (patterns : list (Re.regex * string)) (score : Z) : M Z :=
  try_except ["UnicodeDecodeError"; "PermissionError"] score
    (content <- lift (read_text fs file_path) ;;
     for_each patterns score (fun score '(pattern, description) =>
       let matches := Re.search pattern content Re.IGNORECASE in
       if matches && negb (Text.contains "process.env" content) then
         log_issue "HardcodedSecrets" "critical"
           (description ++ " found in " ++ file_path)%string
           "Move secrets to environment variables" ;;;
         ret (score - 3)
       else ret score)).

Definition source_dirs : list string :=
  [ join bridge_root "src"; join mcp_root "src" ].

Definition env_examples : list (string * string) :=
  [ (join project_root "config.example.toml", "Bridge");
    (join mcp_root ".env.example", "MCP Server") ].

(** [check_environment_variables].  The value that
    [_check_file_for_patterns] returns is dropped at both calls. *)
Definition check_environment_variables : M Z :=
  let score := 10 in
  for_each source_dirs tt (fun _ src_dir =>
    if path_exists fs src_dir then
      for_each (rglob fs src_dir "*.rs") tt (fun _ file_path =>
        _check_file_for_patterns file_path hardcoded_patterns score ;;;
        ret tt) ;;;
      for_each (rglob fs src_dir "*.ts") tt (fun _ file_path =>
        _check_file_for_patterns file_path hardcoded_patterns score ;;;
        ret tt)
    else ret tt) ;;;
  score <- for_each env_examples score (fun score '(env_file, component) =>
    if path_exists fs env_file then ret score
    else
      log_recommendation component
        ("Create " ++ Fs.name env_file ++ " with example configuration")%string ;;;
      ret (score - 1)) ;;
  set_score "environment_variables" score ;;;
  ret score.

(** The loop shared by the presence helpers: the first existing file whose
    text has the marker answers [True]; an unreadable file raises. *)
Fixpoint any_file_has (files : list string) (marker : string -> bool)
  : result bool :=
  match files with
  | [] => Ok false
  | file_path :: rest =>
      if path_exists fs file_path then
        match read_text fs file_path with
        | Raise e => Raise e
        | Ok content =>
            if marker content then Ok true else any_file_has rest marker
        end
      else any_file_has rest marker
  end.

(** [_check_bridge_auth_config] *)
Definition _check_bridge_auth_config : result bool :=
  any_file_has
    [ join (join (join bridge_root "src") "telegram") "handlers.rs";
      join (join (join bridge_root "src") "utils") "security.rs" ]
    (fun content =>
       Text.contains "TELEGRAM_ALLOWED_USERS" content
       || Text.contains "user_id" content).

(** [_check_mcp_auth_config] *)
Definition _check_mcp_auth_config : result bool :=
  any_file_has
    [ join (join mcp_root "src") "security.ts";
      join (join mcp_root "src") "index.ts" ]
    (fun content =>
       Text.contains "MCP_API_KEYS" content
       || Text.contains "authenticate" content).

(** The shape of the presence checks: two helpers, five points each, an
    issue for each one that answers [False]. *)
Definition check_authentication_config : M Z :=
  let score := 0 in
  ok <- lift _check_bridge_auth_config ;;
  score <- (if ok then ret (score + 5)
            else log_issue "BridgeAuth" "warning"
                   "Bridge authentication may not be properly configured"
                   "Ensure TELEGRAM_ALLOWED_USERS is set" ;;;
                 ret score) ;;
  ok <- lift _check_mcp_auth_config ;;
  score <- (if ok then ret (score + 5)
            else log_issue "MCPAuth" "warning"
                   "MCP Server authentication may not be properly configured"
                   "Ensure MCP_API_KEYS is configured" ;;;
                 ret score) ;;
  set_score "authentication" score ;;;
  ret score.

(** [_check_bridge_rate_limiting] *)
Definition _check_bridge_rate_limiting : result bool :=
  any_file_has
    [ join (join (join bridge_root "src") "utils") "security.rs";
      join (join (join bridge_root "src") "telegram") "handlers.rs" ]
    (fun content =>
       Text.contains "rate_limit" (Text.lower content)
       || Text.contains "throttle" (Text.lower content)).

(** [_check_mcp_rate_limiting] *)
Definition _check_mcp_rate_limiting : result bool :=
  any_file_has
    [ join (join mcp_root "src") "security.ts";
      join mcp_root "package.json" ]
    (fun content =>
       Text.contains "rate" (Text.lower content)
       && Text.contains "limit" (Text.lower content)).

(** [check_rate_limiting] *)
Definition check_rate_limiting : M Z :=
  let score := 0 in
  ok <- lift _check_bridge_rate_limiting ;;
  score <- (if ok then ret (score + 5)
            else log_issue "BridgeRateLimit" "medium"
                   "Bridge rate limiting not found"
                   "Implement rate limiting for user requests" ;;;
                 ret score) ;;
  ok <- lift _check_mcp_rate_limiting ;;
  score <- (if ok then ret (score + 5)
            else log_issue "MCPRateLimit" "medium"
                   "MCP Server rate limiting not found"
                   "Implement rate limiting for API requests" ;;;
                 ret score) ;;
  set_score "rate_limiting" score ;;;
  ret score.

(** [_check_bridge_input_validation] *)
Definition _check_bridge_input_validation : result bool :=
  let validation_indicators := ["sanitize"; "validate"; "SecurityManager"] in
  any_file_has (rglob fs (join bridge_root "src") "*.rs")
    (fun content =>
       existsb (fun indicator => Text.contains indicator content)
         validation_indicators).

(** [_check_mcp_input_validation] *)
Definition _check_mcp_input_validation : result bool :=
  match
    any_file_has [join mcp_root "package.json"]
      (fun content =>
         Text.contains "joi" (Text.lower content)
         || Text.contains "validator" (Text.lower content))
  with
  | Raise e => Raise e
  | Ok true => Ok true
  | Ok false =>
      any_file_has (rglob fs (join mcp_root "src") "*.ts")
        (fun content =>
           Text.contains "validate" (Text.lower content)
           || Text.contains "sanitize" (Text.lower content))
  end.

(** [check_input_validation] *)
Definition check_input_validation : M Z :=
  let score := 0 in
  ok <- lift _check_bridge_input_validation ;;
  score <- (if ok then ret (score + 5)
            else log_issue "BridgeValidation" "high"
                   "Bridge input validation not comprehensive"
                   "Implement comprehensive input sanitization" ;;;
                 ret score) ;;
  ok <- lift _check_mcp_input_validation ;;
  score <- (if ok then ret (score + 5)
            else log_issue "MCPValidation" "high"
                   "MCP Server input validation not found"
                   "Implement input validation with Joi or similar" ;;;
                 ret score) ;;
  set_score "input_validation" score ;;;
  ret score.

(** [text.*word] *)
Definition then_later (text word : string) : Re.regex :=
  Re.seq [Re.lit text; Re.Star Re.Dot; Re.lit word].

Definition sensitive_log_patterns : list (Re.regex * string) :=
  [ (then_later "log" "password", "Password in logs");
    (then_later "log" "token", "Token in logs");
    (then_later "log" "key", "Key in logs");
    (then_later "println!" "password", "Password in Rust logs");
    (then_later "console.log" "password", "Password in JS logs") ].

(** [check_logging_security] *)
Definition check_logging_security : M Z :=
  let all_source_files :=
    rglob fs (join bridge_root "src") "*.rs"
    ++ rglob fs (join mcp_root "src") "*.ts" in
  score <- for_each all_source_files 10 (fun score file_path =>
    if path_exists fs file_path then
      try_except ["UnicodeDecodeError"; "PermissionError"] score
        (content <- lift (read_text fs file_path) ;;
         for_each sensitive_log_patterns score
           (fun score '(pattern, description) =>
              if Re.search pattern content Re.IGNORECASE then
                log_issue "LoggingSecurity" "medium"
                  (description ++ " in " ++ file_path)%string
                  "Remove sensitive data from logs" ;;;
                ret (score - 2)
              else ret score))
    else ret score) ;;
  set_score "logging_security" score ;;;
  ret score.

(** [json.loads(p.read_text())] *)
Definition load_json (p : string) : result Json.json :=
  match read_text fs p with
  | Raise e => Raise e
  | Ok text => json_loads text
  end.

(** [check_dependency_security] *)
Definition check_dependency_security : M Z :=
  let score := 0 in
  score <- (if path_exists fs (join bridge_root "Cargo.lock")
            then ret (score + 2)
            else log_issue "BridgeDeps" "medium" "Cargo.lock not found"
                   "Run cargo build to generate Cargo.lock" ;;;
                 ret score) ;;
  score <- (if path_exists fs (join mcp_root "package-lock.json")
            then ret (score + 2)
            else log_issue "MCPDeps" "medium" "package-lock.json not found"
                   "Run npm install to generate package-lock.json" ;;;
                 ret score) ;;
  let mcp_package_json := join mcp_root "package.json" in
  score <- (if path_exists fs mcp_package_json then
              content <- lift (load_json mcp_package_json) ;;
              scripts <- lift (Json.get_or_empty content "scripts") ;;
              names <- lift (Json.keys scripts) ;;
              if existsb (fun script => Text.contains "audit" script) names
              then ret (score + 3)
              else log_recommendation "MCPDeps"
                     "Add npm audit scripts to package.json" ;;;
                   ret score
            else ret score) ;;
  score <- (if path_exists fs mcp_package_json then
              content <- lift (load_json mcp_package_json) ;;
              deps <- lift (Json.get_or_empty content "dependencies") ;;
              helmet <- lift (Json.contains "helmet" deps) ;;
              found <- (if helmet then ret true
                        else lift (Json.contains "express-rate-limit" deps)) ;;
              if found then ret (score + 3)
              else log_recommendation "MCPDeps"
                     "Consider adding security dependencies like helmet" ;;;
                   ret score
            else ret score) ;;
  set_score "dependency_security" score ;;;
  ret score.

Definition security_workflows : list string :=
  [ "security-enhanced.yml"; "scorecard.yml"; "slsa-provenance.yml" ].

(** [check_ci_security] *)
Definition check_ci_security : M Z :=
  let score := 0 in
  let workflows_dir := join (join project_root ".github") "workflows" in
  score <- (if path_exists fs workflows_dir then
              score <- for_each security_workflows score (fun score workflow =>
                if path_exists fs (join workflows_dir workflow)
                then ret (score + 3)
                else log_recommendation "CI/CD"
                       ("Consider adding " ++ workflow
                          ++ " security workflow")%string ;;;
                     ret score) ;;
              let workflow_files := glob fs workflows_dir "*.yml" in
              for_each workflow_files score (fun score workflow_file =>
                content <- lift (read_text fs workflow_file) ;;
                if Text.contains "permissions:" content
                then ret (score + 1) else ret score)
            else
              log_issue "CI/CD" "medium" "No CI/CD workflows found"
                "Set up GitHub Actions workflows for security" ;;;
              ret score) ;;
  let score := Z.min score 10 in
  set_score "ci_security" score ;;;
  ret score.

End Checks.

(** *** The report *)

(** An integer as a float; exact below [2^53] in absolute value, which
    covers every total the checks can produce. *)
Definition float_of_int (z : Z) : float :=
  match z with
  | Z0 => PrimFloat.zero
  | Zpos _ => PrimFloat.of_uint63 (Uint63.of_Z z)
  | Zneg p => PrimFloat.opp (PrimFloat.of_uint63 (Uint63.of_Z (Zpos p)))
  end.

(** [(total_score / max_score) * 100] *)
Definition percent (total_score max_score : Z) : float :=
  PrimFloat.mul
    (PrimFloat.div (float_of_int total_score) (float_of_int max_score))
    (float_of_int 100).

(** The [if]/[elif] chain on the percentage, [x >= n] being [n <= x]. *)
Definition status_of (percentage : float) : string :=
  if PrimFloat.leb (float_of_int 90) percentage then "excellent"
  else if PrimFloat.leb (float_of_int 80) percentage then "good"
  else if PrimFloat.leb (float_of_int 70) percentage then "fair"
  else if PrimFloat.leb (float_of_int 60) percentage then "poor"
  else "critical".

(** [sum(scores.values())] *)
Definition sum (l : list Z) : Z := fold_left Z.add l 0.

(** [generate_report]; [now] is [datetime.now().isoformat()]. *)
Definition generate_report (now : string) (r : results) : results :=
  let scores := scores r in
  match scores with
  | [] =>
      {| timestamp := now; overall_status := overall_status r;
         scores := scores; issues := issues r;
         recommendations := recommendations r;
         overall_score := overall_score r; max_score := max_score r;
         percentage := percentage r |}
  | _ :: _ =>
      let total_score := sum (Dict.values scores) in
      let max_score := Z.of_nat (List.length scores) * 10 in
      let percentage := percent total_score max_score in
      {| timestamp := now; overall_status := status_of percentage;
         scores := scores; issues := issues r;
         recommendations := recommendations r;
         overall_score := Some total_score; max_score := Some max_score;
         percentage := Some percentage |}
  end.

(** *** The runner *)

Section Runner.

Variable fs : snapshot.
Variable json_loads : string -> result Json.json.

Definition checks : list (string * M Z) :=
  [ ("File Permissions", check_file_permissions fs);
    ("Environment Variables", check_environment_variables fs);
    ("Authentication", check_authentication_config fs);
    ("Rate Limiting", check_rate_limiting fs);
    ("Input Validation", check_input_validation fs);
    ("Logging Security", check_logging_security fs);
    ("Dependency Security", check_dependency_security fs json_loads);
    ("CI/CD Security", check_ci_security fs) ].

(** The loop of [run_all_checks] over a list of checks: [total_score] is
    the local variable of the runner and [r] is [self.results]. *)
Fixpoint run_checks (cs : list (string * M Z)) (total_score : Z) (r : results)
  : Z * results :=
  match cs with
  | [] => (total_score, r)
  | (check_name, check_func) :: cs' =>
      match check_func r with
      | (Ok score, r') => run_checks cs' (total_score + score) r'
      | (Raise e, r') =>
          let '(_, r'') :=
            log_issue "SystemError" "critical"
              ("Check failed: " ++ check_name ++ " - " ++ exn_text e)%string
              "" r' in
          run_checks cs' total_score r''
      end
  end.

(** What the runner prints at the end: its own total, maximum and
    percentage. *)
Record summary := mk_summary {
  printed_total : Z;
  printed_max : Z;
  printed_percentage : float
}.

(** [run_all_checks]: the printed summary and the returned report. *)
Definition run_all_checks_printing (now : string) (r : results)
  : summary * results :=
  let max_score := Z.of_nat (List.length checks) * 10 in
  let '(total_score, r') := run_checks checks 0 r in
  let percentage := percent total_score max_score in
  (mk_summary total_score max_score percentage, generate_report now r').

(** [run_all_checks], the returned report. *)
Definition run_all_checks (now : string) (r : results) : results :=
  snd (run_all_checks_printing now r).

(** A run of the script: a new checker, then [run_all_checks]. *)
Definition run (now : string) : results := run_all_checks now init.

End Runner.

(** *** The exact percentage, for comparison

    The report computes in binary64.  The definitions below give the
    rational number a float stands for and the band of the exact
    percentage [100 * total / max], read off the threshold table. *)

Definition Q_of_float (f : float) : option Q :=
  match Prim2SF f with
  | S754_zero _ => Some 0%Q
  | S754_finite s m e =>
      let v := if 0 <=? e then inject_Z (Z.pos m * 2 ^ e)
               else (Z.pos m # Pos.pow 2 (Z.to_pos (- e))) in
      Some (if s then Qopp v else v)
  | _ => None
  end.

Definition exact_percentage (total max : Z) : Q := 100 * total # Z.to_pos max.

(** The float [p] stands for a number [v] close to [q]:
    [|v - q| <= (1 + |q|) / 10^15]. *)
Definition within_tolerance (p : float) (q : Q) : bool :=
  match Q_of_float p with
  | Some v =>
      Qle_bool (Qabs (v - q)) ((1 + Qabs q) * (1 # 1000000000000000))
  | None => false
  end.

(** At least 90 excellent, at least 80 good, at least 70 fair, at least 60
    poor, critical otherwise, on the exact percentage. *)
Definition exact_band (total max : Z) : string :=
  if 90 * max <=? 100 * total then "excellent"
  else if 80 * max <=? 100 * total then "good"
  else if 70 * max <=? 100 * total then "fair"
  else if 60 * max <=? 100 * total then "poor"
  else "critical".

End Checker.

(** ** scripts/security-config-check.py: [main] *)

Module CheckerMain.
Import Fs Checker.

(** The command line, but for [--project-root], which is the snapshot. *)
Record args := mk_args {
  output : option string;
  fail_on_critical : bool
}.

Section Main.

Variable fs : snapshot.
Variable json_loads : string -> result Json.json.

(** [open(args.output, 'w')] and [json.dump(report, f, indent=2)]; it may
    raise, as any write to a file. *)
Variable write_report : string -> results -> result unit.

(** [issue["severity"] == "critical"] *)
Definition is_critical_issue (i : issue) : bool :=
  String.eqb (severity i) "critical".

(** [report.get("percentage", 0) < 70] *)
Definition below_70 (report : results) : bool :=
  match percentage report with
  | Some p => PrimFloat.ltb p (float_of_int 70)
  | None => true
  end.

(** The exit code of [main]: [sys.exit(1)] at the three places and in the
    handler of [Exception], 0 when [main] returns.  [if args.output:] is
    false without the option and for the empty path. *)
Definition main (now : string) (a : args) : Z :=
  let report := run fs json_loads now in
  let written :=
    match output a with
    | Some path =>
        if String.eqb path "" then Ok tt else write_report path report
    | None => Ok tt
    end in
  match written with
  | Raise _ => 1
  | Ok _ =>
      let critical_issues := filter is_critical_issue (issues report) in
      if fail_on_critical a
         && match critical_issues with [] => false | _ :: _ => true end
      then 1
      else if below_70 report then 1
      else 0
  end.

End Main.

End CheckerMain.

(** ** Concrete inputs *)

Module ScorecardExamples.
Import Scorecard.

Definition named (n : string) (s : Z) (r : string) : check :=
  {| name := Some n; score := Some s; reason := Some r; documentation := None |}.

(** Scenario D: "Fuzzing" scored 8 in the baseline and is absent from the
    current results. *)
Definition fuzzing_check : check := named "Fuzzing" 8 "project is fuzzed".

Definition scenario_d_current : list check :=
  [ named "Maintained" 10 "30 commits in the last 90 days" ].

Definition scenario_d_baseline : list check :=
  [ named "Maintained" 10 "30 commits in the last 90 days"; fuzzing_check ].

Definition entry (cur base : Z) (st : status) : check_analysis :=
  {| a_current_score := cur; a_baseline_score := base; a_diff := cur - base;
     a_status := st; a_current_reason := ""; a_baseline_reason := "";
     a_documentation := [] |}.

(** An analysis with a declined security-critical check below 7, an
    unchanged critical check below 7, an improved one and a missing one. *)
Definition mixed_analysis : list (string * check_analysis) :=
  [ ("Code-Review", entry 3 8 declined);
    ("Security-Policy", entry 5 5 unchanged);
    ("Maintained", entry 9 4 improved);
    ("Fuzzing", entry 0 6 missing);
    ("License", entry 2 2 unchanged) ].

(** The two lists of scenario D as dictionaries. *)
Definition scenario_d_current_dict : list (string * check) :=
  [ ("Maintained", named "Maintained" 10 "30 commits in the last 90 days") ].

Definition scenario_d_baseline_dict : list (string * check) :=
  [ ("Maintained", named "Maintained" 10 "30 commits in the last 90 days");
    ("Fuzzing", fuzzing_check) ].

End ScorecardExamples.

Module CheckerExamples.
Import Fs Checker.

(** A project given by its directories and files. *)
Record file := mk_file {
  f_path : string;
  f_mode : N;
  f_text : result string
}.

Definition lookup (files : list file) (p : string) : option file :=
  find (fun f => String.eqb p (f_path f)) files.

Fixpoint has_suffix (suffix s : string) : bool :=
  String.eqb suffix s ||
  match s with
  | EmptyString => false
  | String _ s' => has_suffix suffix s'
  end.

(** The files below [dir] whose name ends like the pattern [*.ext]. *)
Definition below (files : list file) (dir pattern : string) : list string :=
  let ext := String.substring 1 (String.length pattern - 1) pattern in
  map f_path
    (filter (fun f => String.prefix (dir ++ "/")%string (f_path f)
                      && has_suffix ext (f_path f)) files).

Definition project (dirs : list string) (files : list file) : snapshot :=
  {| path_exists := fun p =>
       existsb (String.eqb p) dirs
       || match lookup files p with Some _ => true | None => false end;
     st_mode := fun p =>
       match lookup files p with Some f => f_mode f | None => 0%N end;
     read_text := fun p =>
       match lookup files p with
       | Some f => f_text f
       | None => Raise (mk_exn "FileNotFoundError" "No such file or directory")
       end;
     rglob := below files;
     glob := below files;
     show_path := fun p => ("/project/" ++ p)%string |}.

(** A regular file with mode [0o100600]. *)
Definition private (p text : string) : file := mk_file p 33152 (Ok text).

(** [json.loads] is not needed by the examples: no [package.json]. *)
Definition no_json (text : string) : result Json.json :=
  Raise (mk_exn "JSONDecodeError" "Expecting value").

Definition quoted (s : string) : string :=
  (String Text.dquote s ++ String Text.dquote "")%string.

Definition example_files : list file :=
  [ private "config.example.toml" ""; private "mcp-server/.env.example" "" ].

(** Scenario A: a source file assigns a literal of 26 letters to [token]
    and never mentions [process.env]. *)
Definition secret_line : string :=
  ("let token = " ++ quoted "abcdefghijklmnopqrstuvwxyz" ++ ";")%string.

Definition scenario_a : snapshot :=
  project ["src"] (private "src/config.rs" secret_line :: example_files).

(** Scenario B: the same file also reads the environment. *)
Definition scenario_b : snapshot :=
  project ["src"]
    (private "src/config.rs"
       (secret_line ++ " let home = process.env.HOME;")%string
     :: example_files).

(** Two source files, each with the five logging patterns. *)
Definition noisy_line : string :=
  "println!(password); console.log(password, token, key);".

Definition noisy_logs : snapshot :=
  project ["src"]
    (private "src/a.rs" noisy_line :: private "src/b.rs" noisy_line
     :: example_files).

(** The bridge handler file exists and cannot be decoded. *)
Definition undecodable : exn :=
  mk_exn "UnicodeDecodeError"
    "'utf-8' codec can't decode byte 0xff in position 0: invalid start byte".

Definition binary_handler : snapshot :=
  project ["src"]
    (mk_file "src/telegram/handlers.rs" 33152 (Raise undecodable)
     :: example_files).

(** A project whose eight checks total 23: one source file with three
    logging matches, one of the two example files, nothing else. *)
Definition inexact_total : snapshot :=
  project ["src"]
    [ private "src/a.rs" "log(password, token, key)";
      private "config.example.toml" "" ].

(** Scenario E: ten checks that total 72, and ten that total 59. *)
Definition with_scores (l : list (string * Z)) : results :=
  {| timestamp := ""; overall_status := "pending"; scores := l;
     issues := []; recommendations := [];
     overall_score := None; max_score := None; percentage := None |}.

Definition scenario_e_fair : results :=
  with_scores
    [ ("c0", 10); ("c1", 10); ("c2", 10); ("c3", 10); ("c4", 10);
      ("c5", 10); ("c6", 5); ("c7", 5); ("c8", 2); ("c9", 0) ].

Definition scenario_e_critical : results :=
  with_scores
    [ ("c0", 10); ("c1", 10); ("c2", 10); ("c3", 10); ("c4", 10);
      ("c5", 5); ("c6", 2); ("c7", 2); ("c8", 0); ("c9", 0) ].

End CheckerExamples.

(** ** Specifications

    The predicates and functions in which the properties below are
    stated. *)

Section Specifications.
Import Fs Checker.

(** *** Reasoning on the methods of the checker

    [wp m Q E r]: run from [r], the method [m] either returns a value and a
    state in [Q] or raises an exception with a state in [E]. *)
Definition wp {A} (m : M A) (Q : A -> results -> Prop)
  (E : exn -> results -> Prop) (r : results) : Prop :=
  match m r with
  | (Ok a, r') => Q a r'
  | (Raise e, r') => E e r'
  end.

(** The three writers. *)
Definition with_issue (i : issue) (r : results) : results :=
  snd (log_issue (component i) (severity i) (message i) (recommendation i) r).

Definition with_advice (a : advice) (r : results) : results :=
  snd (log_recommendation (adv_component a) (adv_message a) r).

Definition with_score (key : string) (score : Z) (r : results) : results :=
  snd (set_score key score r).

(** What a check promises: a returned score is in [P] and is stored under
    [key]; a check that raises leaves the scores as they were. *)
Definition check_spec (key : string) (P : Z -> Prop) (check : M Z) : Prop :=
  forall r,
    wp check
      (fun s r' => P s /\ scores r' = Dict.set key s (scores r))
      (fun _ r' => scores r' = scores r) r.

(** The issues of a file whose text is [content]: one for each rule that
    is found, none when the text mentions [process.env]. *)
Definition secret_issues (file_path content : string)
  (patterns : list (Re.regex * string)) : list issue :=
  if Text.contains "process.env" content then []
  else
    map (fun '(_, description) =>
           mk_issue "HardcodedSecrets" "critical"
             (description ++ " found in " ++ file_path)%string
             "Move secrets to environment variables")
      (filter (fun '(pattern, _) => Re.search pattern content Re.IGNORECASE)
         patterns).

Definition with_issues (l : list issue) (r : results) : results :=
  fold_left (fun r i => with_issue i r) l r.

(** [lo], [lo + 1], ..., [n] numbers in all. *)
Definition zrange (lo : Z) (n : nat) : list Z :=
  map (fun i => lo + Z.of_nat i) (seq 0 n).

(** The float percentage against the exact one, for [n] scores. *)
Definition agrees (total max : Z) : bool :=
  within_tolerance (percent total max) (exact_percentage total max)
  && String.eqb (status_of (percent total max)) (exact_band total max).

Definition agrees_up_to (checks : nat) (lowest : Z) : bool :=
  forallb
    (fun n => let max := 10 * Z.of_nat n in
              forallb (fun t => agrees t max)
                (zrange lowest (Z.to_nat (max - lowest + 1))))
    (seq 1 checks).

(** The issues of [r'] are those of [r], then possibly more. *)
Definition grows (r r' : results) : Prop :=
  exists more, issues r' = issues r ++ more.

(** A method that only appends to the issues, also when it raises. *)
Definition appends_only {A} (m : M A) : Prop :=
  forall r, wp m (fun _ r' => grows r r') (fun _ r' => grows r r') r.

(** A well-behaved check: it stores its score under a key of [keys] or
    leaves the scores alone, and it only appends to the issues. *)
Definition behaves (keys : list string) (c : string * M Z) : Prop :=
  (exists key, In key keys /\ check_spec key (fun _ => True) (snd c))
  /\ appends_only (snd c).

(** The keys under which the eight checks store their scores. *)
Definition score_keys : list string :=
  [ "file_permissions"; "environment_variables"; "authentication";
    "rate_limiting"; "input_validation"; "logging_security";
    "dependency_security"; "ci_security" ].

(** The file [p] exists and the last octal digit of its mode is not 0. *)
Definition readable_by_others (fs : snapshot) (p : string) : bool :=
  path_exists fs p && (0 <? Z.of_N (N.modulo (st_mode fs p) 8)).

(** The issue of the file-permissions check for the file [p]. *)
Definition permission_issue (fs : snapshot) (p : string) : issue :=
  mk_issue "FilePermissions" "warning"
    (p ++ " is readable by others (permissions: "
       ++ last3 (oct (st_mode fs p)) ++ ")")%string
    ("Run: chmod 600 " ++ show_path fs p)%string.

(** Some issue of the list is critical. *)
Definition has_critical (l : list issue) : bool :=
  existsb CheckerMain.is_critical_issue l.

(** Some rule of the table is found in the text. *)
Definition some_rule_found (patterns : list (Re.regex * string))
  (content : string) : bool :=
  existsb (fun '(pattern, _) => Re.search pattern content Re.IGNORECASE)
    patterns.

(** *** Methods that do not read the results

    What a method writes: an issue, a recommendation or a score.  A method
    is [uniform] when its value and what it writes do not depend on the
    results it starts from. *)
Inductive event :=
| Logged (i : issue)
| Advised (a : advice)
| Scored (key : string) (score : Z).

Definition apply_event (r : results) (e : event) : results :=
  match e with
  | Logged i => with_issue i r
  | Advised a => with_advice a r
  | Scored key score => with_score key score r
  end.

Definition apply_events (l : list event) (r : results) : results :=
  fold_left apply_event l r.

Definition uniform {A} (m : M A) : Prop :=
  exists v l, forall r, m r = (v, apply_events l r).

Definition logged (l : list event) : list issue :=
  flat_map (fun e => match e with Logged i => [i] | _ => [] end) l.

Definition advised (l : list event) : list advice :=
  flat_map (fun e => match e with Advised a => [a] | _ => [] end) l.

Definition scored (l : list event) : list (string * Z) :=
  flat_map (fun e => match e with Scored k s => [(k, s)] | _ => [] end) l.

(** [d[k] = v] for each pair of the list, in its order. *)
Definition set_all (l : list (string * Z)) (d : list (string * Z))
  : list (string * Z) :=
  fold_left (fun d kv => Dict.set (fst kv) (snd kv) d) l d.

(** The value the last pair for [k] gives, if there is one. *)
Fixpoint last_value (k : string) (l : list (string * Z)) : option Z :=
  match l with
  | [] => None
  | (k', v) :: l' =>
      match last_value k l' with
      | Some w => Some w
      | None => if String.eqb k k' then Some v else None
      end
  end.

(** *** The band of a percentage, in the words of the specification

    [at_least n p] is [p >= n] on floats. *)
Definition at_least (n : Z) (p : float) : bool :=
  PrimFloat.leb (float_of_int n) p.

(** Inclusive lower bounds: at least 90 excellent, at least 80 good, at
    least 70 fair, at least 60 poor, critical otherwise. *)
Definition band_by_thresholds (p : float) (band : string) : Prop :=
  (at_least 90 p = true /\ band = "excellent") \/
  (at_least 90 p = false /\ at_least 80 p = true /\ band = "good") \/
  (at_least 80 p = false /\ at_least 70 p = true /\ band = "fair") \/
  (at_least 70 p = false /\ at_least 60 p = true /\ band = "poor") \/
  (at_least 60 p = false /\ band = "critical").

(** *** The outcome of a presence check

    Five points for each of the two components that was found, the issue
    of each component that was not, the bridge first, and the score stored
    under the key of the check. *)
Definition presence_outcome (key : string) (bridge mcp : bool)
  (bridge_issue mcp_issue : issue) (r : results) : Z * results :=
  let score := (if bridge then 5 else 0) + (if mcp then 5 else 0) in
  (score,
   with_score key score
     (with_issues ((if bridge then [] else [bridge_issue])
                   ++ (if mcp then [] else [mcp_issue])) r)).

End Specifications.
(** ** Facts on dictionaries *)

Section DictFacts.
Context {V : Type}.
Implicit Types (d : list (string * V)) (k : string) (v : V).

Lemma dict_get_set_same k v d : Dict.get k (Dict.set k v d) = Some v.
Proof.
  induction d as [|[k' v'] d IH]; simpl.
  - now rewrite String.eqb_refl.
  - destruct (String.eqb k k') eqn:E; simpl; rewrite E; auto.
Qed.

Lemma dict_get_set_other k k' v d :
  k <> k' -> Dict.get k' (Dict.set k v d) = Dict.get k' d.
Proof.
  intros Hne. induction d as [|[k1 v1] d IH]; simpl.
  - destruct (String.eqb k' k) eqn:E; auto.
    apply String.eqb_eq in E. congruence.
  - destruct (String.eqb k k1) eqn:E; simpl.
    + apply String.eqb_eq in E. subst k1.
      destruct (String.eqb k' k) eqn:E'; auto.
      apply String.eqb_eq in E'. congruence.
    + now rewrite IH.
Qed.

Lemma dict_get_None k d : Dict.get k d = None <-> ~ In k (Dict.keys d).
Proof.
  induction d as [|[k' v'] d IH]; simpl.
  - tauto.
  - destruct (String.eqb k k') eqn:E.
    + apply String.eqb_eq in E. subst. split; [discriminate | tauto].
    + apply String.eqb_neq in E. rewrite IH. split.
      * intros H [H' | H']; [congruence | tauto].
      * tauto.
Qed.

Lemma dict_mem_false k d : Dict.mem k d = false <-> ~ In k (Dict.keys d).
Proof.
  unfold Dict.mem. rewrite <- dict_get_None.
  destruct (Dict.get k d); split; congruence.
Qed.

Lemma dict_mem_true k d : Dict.mem k d = true <-> In k (Dict.keys d).
Proof.
  destruct (Dict.mem k d) eqn:E.
  - split; auto. intros _.
    destruct (in_dec string_dec k (Dict.keys d)) as [H | H]; auto.
    apply dict_mem_false in H. congruence.
  - apply dict_mem_false in E. split; [discriminate | tauto].
Qed.

Lemma dict_keys_set k v d :
  Dict.keys (Dict.set k v d) =
  if Dict.mem k d then Dict.keys d else Dict.keys d ++ [k].
Proof.
  unfold Dict.mem. induction d as [|[k' v'] d IH]; simpl; auto.
  destruct (String.eqb k k') eqn:E; simpl; auto.
  rewrite IH. now destruct (Dict.get k d).
Qed.

Lemma dict_set_NoDup k v d :
  NoDup (Dict.keys d) -> NoDup (Dict.keys (Dict.set k v d)).
Proof.
  intros H. rewrite dict_keys_set.
  destruct (Dict.mem k d) eqn:E; auto.
  apply dict_mem_false in E.
  apply NoDup_app; auto.
  - constructor; [simpl; tauto | constructor].
  - intros x Hx [<- | []]. tauto.
Qed.

Lemma dict_get_In k v d : Dict.get k d = Some v -> In (k, v) d.
Proof.
  induction d as [|[k' v'] d IH]; simpl; [discriminate|].
  destruct (String.eqb k k') eqn:E.
  - apply String.eqb_eq in E. intros [= ->]. subst. now left.
  - auto.
Qed.

Lemma dict_In_get k v d :
  NoDup (Dict.keys d) -> In (k, v) d -> Dict.get k d = Some v.
Proof.
  induction d as [|[k' v'] d IH]; simpl; [tauto|].
  intros Hnd [Heq | Hin].
  - injection Heq as -> ->. now rewrite String.eqb_refl.
  - inversion Hnd as [|? ? Hk Hnd']; subst.
    destruct (String.eqb k k') eqn:E; auto.
    apply String.eqb_eq in E. subst k'.
    exfalso. apply Hk. change k with (fst (k, v)). now apply in_map.
Qed.

End DictFacts.

(** ** The matcher against the language of the patterns *)

Section ReFacts.
Import Re.

Variable ignorecase : bool.

Lemma one_spec ok s t :
  In t (one ok s) <-> exists c, s = c :: t /\ ok c = true.
Proof.
  destruct s as [|c s]; simpl.
  - split; [tauto | intros (c & H & _); discriminate].
  - destruct (ok c) eqn:E; simpl.
    + split.
      * intros [<- | []]. eauto.
      * intros (c' & [= -> ->] & _). now left.
    + split; [tauto|]. intros (c' & [= -> ->] & H). congruence.
Qed.

(** More rounds never lose a result. *)
Lemma star_fuel_mono step : forall fuel fuel' s t,
  (fuel <= fuel')%nat -> In t (star fuel step s) -> In t (star fuel' step s).
Proof.
  induction fuel as [|fuel IH]; intros fuel' s t Hle H.
  - simpl in H. destruct H as [<- | []].
    destruct fuel'; simpl; auto.
  - destruct fuel' as [|fuel']; [lia|].
    simpl in *. destruct H as [H | H]; auto. right.
    apply in_flat_map in H. destruct H as (s' & Hs' & H).
    apply in_flat_map. exists s'. split; auto.
    destruct (Nat.ltb (List.length s') (List.length s)); auto.
    apply (IH fuel'); auto. lia.
Qed.

Section OneStep.

Variable r : regex.
Variable step : list ascii -> list (list ascii).

Hypothesis step_sound :
  forall s t, In t (step s) -> exists u, s = u ++ t /\ lang ignorecase r u.

Lemma star_sound : forall fuel s t,
  In t (star fuel step s) ->
  exists u, s = u ++ t /\ lang ignorecase (Star r) u.
Proof.
  induction fuel as [|fuel IH]; intros s t H; simpl in H.
  - destruct H as [<- | []]. exists []. split; [reflexivity | constructor].
  - destruct H as [<- | H].
    + exists []. split; [reflexivity | constructor].
    + apply in_flat_map in H. destruct H as (s' & Hs' & H).
      destruct (Nat.ltb (List.length s') (List.length s)); [|contradiction].
      apply step_sound in Hs'. destruct Hs' as (u & -> & Hu).
      apply IH in H. destruct H as (v & -> & Hv).
      exists (u ++ v). split; [now rewrite app_assoc|].
      now constructor.
Qed.

Lemma times_sound : forall n s s',
  In s' (times n step s) ->
  forall v t, s' = v ++ t -> lang ignorecase (Star r) v ->
  exists w, s = w ++ t /\ lang ignorecase (AtLeast n r) w.
Proof.
  induction n as [|n IH]; intros s s' H v t Hs' Hv; simpl in H.
  - destruct H as [<- | []]. exists v. split; auto. now constructor.
  - apply in_flat_map in H. destruct H as (s1 & Hs1 & H).
    apply step_sound in Hs1. destruct Hs1 as (u & -> & Hu).
    destruct (IH _ _ H v t Hs' Hv) as (w & -> & Hw).
    exists (u ++ w). split; [now rewrite app_assoc|].
    now constructor.
Qed.

End OneStep.

(** Soundness: what [rests] leaves was preceded by a text of the language. *)
Lemma rests_sound r : forall s t,
  In t (rests ignorecase r s) ->
  exists u, s = u ++ t /\ lang ignorecase r u.
Proof.
  induction r as [p | | | cs | cs | | r1 IH1 r2 IH2 | r IH | n r IH];
    intros s t H; cbn [rests] in H.
  - apply one_spec in H. destruct H as (c & -> & H).
    exists [c]. split; [reflexivity | now constructor].
  - apply one_spec in H. destruct H as (c & -> & H).
    exists [c]. split; [reflexivity|]. constructor.
    now apply negb_true_iff in H.
  - apply one_spec in H. destruct H as (c & -> & H).
    exists [c]. split; [reflexivity | now constructor].
  - apply one_spec in H. destruct H as (c & -> & H).
    exists [c]. split; [reflexivity | now constructor].
  - apply one_spec in H. destruct H as (c & -> & H).
    exists [c]. split; [reflexivity|]. constructor.
    now apply negb_true_iff in H.
  - destruct H as [<- | []]. exists []. split; [reflexivity | constructor].
  - apply in_flat_map in H. destruct H as (s1 & H1 & H2).
    apply IH1 in H1. destruct H1 as (u & -> & Hu).
    apply IH2 in H2. destruct H2 as (v & -> & Hv).
    exists (u ++ v). split; [now rewrite app_assoc | now constructor].
  - eapply star_sound; eauto.
  - apply in_flat_map in H. destruct H as (s' & H1 & H2).
    destruct (star_sound r _ IH _ _ _ H2) as (v & Hs' & Hv).
    eapply times_sound; eauto.
Qed.

(** Completeness: after a text of the language, the rest is found; the
    number of rounds of [star] is enough. *)
Lemma rests_complete r u :
  lang ignorecase r u -> forall t, In t (rests ignorecase r (u ++ t)).
Proof.
  induction 1 as [p c H | c H | c H | cs c H | cs c H | | r1 r2 u v _ IH1 _ IH2
                  | r | r u v _ IH1 _ IH2 | r u _ IH | n r u v _ IH1 _ IH2];
    intros t; cbn [rests].
  - apply one_spec. exists c. split; [reflexivity | assumption].
  - apply one_spec. exists c. split; [reflexivity | now rewrite H].
  - apply one_spec. exists c. split; [reflexivity | assumption].
  - apply one_spec. exists c. split; [reflexivity | assumption].
  - apply one_spec. exists c. split; [reflexivity | now rewrite H].
  - now left.
  - rewrite <- app_assoc. apply in_flat_map. eauto.
  - simpl. destruct (List.length t); simpl; auto.
  - specialize (IH2 t). cbn [rests] in IH2.
    destruct u as [|c u]; [exact IH2|].
    rewrite <- app_assoc. set (s := (c :: u) ++ v ++ t).
    assert (Hlen : (List.length (v ++ t) < List.length s)%nat).
    { subst s. simpl. rewrite !length_app. lia. }
    destruct (List.length s) as [|k] eqn:Ek; [lia|].
    cbn [star]. right. apply in_flat_map. exists (v ++ t). split.
    + apply IH1.
    + rewrite Ek. apply Nat.ltb_lt in Hlen. rewrite Hlen.
      eapply star_fuel_mono; [|exact IH2]. apply Nat.ltb_lt in Hlen. lia.
  - specialize (IH t). cbn [rests] in IH. simpl. now rewrite app_nil_r.
  - specialize (IH2 t). cbn [rests] in IH2.
    apply in_flat_map in IH2. destruct IH2 as (s' & H1 & H2).
    apply in_flat_map. exists s'. split; auto.
    cbn [times]. apply in_flat_map. exists (v ++ t). split; auto.
    rewrite <- app_assoc. apply IH1.
Qed.

Lemma matches_at_spec r s :
  matches_at ignorecase r s = true <->
  exists u t, s = u ++ t /\ lang ignorecase r u.
Proof.
  unfold matches_at. split.
  - destruct (rests ignorecase r s) as [|t l] eqn:E; [discriminate|].
    intros _. destruct (rests_sound r s t) as (u & -> & Hu).
    + rewrite E. now left.
    + eauto.
  - intros (u & t & -> & Hu).
    pose proof (rests_complete r u Hu t) as H.
    destruct (rests ignorecase r (u ++ t)); [contradiction | reflexivity].
Qed.

Lemma search_from_spec r s :
  search_from ignorecase r s = true <->
  exists a u b, s = a ++ u ++ b /\ lang ignorecase r u.
Proof.
  induction s as [|c s IH]; cbn [search_from].
  - rewrite orb_false_r, matches_at_spec. split.
    + intros (u & t & H & Hu). exists [], u, t. auto.
    + intros (a & u & b & H & Hu).
      destruct a; [|discriminate]. exists u, b. auto.
  - rewrite orb_true_iff, matches_at_spec, IH. split.
    + intros [(u & t & H & Hu) | (a & u & b & H & Hu)].
      * exists [], u, t. auto.
      * exists (c :: a), u, b. split; auto. simpl. congruence.
    + intros (a & u & b & H & Hu). destruct a as [|c' a].
      * left. exists u, b. auto.
      * right. injection H as -> ->. exists a, u, b. auto.
Qed.

End ReFacts.

(** [re.search] finds something exactly when a piece of the text is in the
    language of the pattern. *)
Lemma search_spec r content ignorecase :
  Re.search r content ignorecase = true <->
  exists a u b,
    list_ascii_of_string content = a ++ u ++ b /\ Re.lang ignorecase r u.
Proof. apply search_from_spec. Qed.

(** ** Facts on scorecard-compare.py *)

Section ScorecardFacts.
Import Scorecard.

(** *** The loop of [identify_priority_actions] *)

Lemma rank_step_app acc item : rank_step acc item = acc ++ rank_step [] item.
Proof.
  destruct item as [n d]. unfold rank_step.
  destruct (status_eqb (a_status d) declined); [reflexivity|].
  destruct (status_eqb (a_status d) missing); [reflexivity|].
  destruct ((a_current_score d <? 7) && is_critical n); [reflexivity|].
  now rewrite app_nil_r.
Qed.

Lemma fold_rank_step l : forall acc,
  fold_left rank_step l acc = acc ++ flat_map (rank_step []) l.
Proof.
  induction l as [|it l IH]; intros acc; simpl.
  - now rewrite app_nil_r.
  - rewrite IH, (rank_step_app acc it). now rewrite <- app_assoc.
Qed.

Lemma collect_actions_flat_map analysis :
  collect_actions analysis = flat_map (rank_step []) analysis.
Proof. unfold collect_actions. now rewrite fold_rank_step. Qed.

(** What one analysed check contributes, by cases on the chain. *)
Lemma rank_step_cases n d :
  (a_status d = declined /\
   rank_step [] (n, d) =
     [make_action n (if is_critical n then high else medium) investigate_decline d]) \/
  (a_status d = missing /\
   rank_step [] (n, d) = [make_action n high restore_check d]) \/
  (a_status d <> declined /\ a_status d <> missing /\
   a_current_score d < 7 /\ is_critical n = true /\
   rank_step [] (n, d) = [make_action n medium improve_security d]) \/
  (a_status d <> declined /\ a_status d <> missing /\
   (7 <= a_current_score d \/ is_critical n = false) /\
   rank_step [] (n, d) = []).
Proof.
  unfold rank_step.
  destruct (a_status d) eqn:Hs; simpl;
    try (left; split; [reflexivity | reflexivity]);
    try (right; left; split; [reflexivity | reflexivity]);
    (destruct (a_current_score d <? 7) eqn:Hlt;
     [apply Z.ltb_lt in Hlt | apply Z.ltb_ge in Hlt];
     destruct (is_critical n) eqn:Hc; simpl;
     [ right; right; left | right; right; right
     | right; right; right | right; right; right ];
     repeat split; try discriminate; auto).
Qed.

Lemma rank_step_check n d a : In a (rank_step [] (n, d)) -> act_check a = n.
Proof.
  destruct (rank_step_cases n d)
    as [[_ ->] | [[_ ->] | [(_ & _ & _ & _ & ->) | (_ & _ & _ & ->)]]];
    simpl; intros H; try contradiction; destruct H as [<- | []]; reflexivity.
Qed.

Lemma rank_step_length n d : (List.length (rank_step [] (n, d)) <= 1)%nat.
Proof.
  destruct (rank_step_cases n d)
    as [[_ ->] | [[_ ->] | [(_ & _ & _ & _ & ->) | (_ & _ & _ & ->)]]];
    simpl; lia.
Qed.

Lemma in_collect_actions analysis a :
  In a (collect_actions analysis) <->
  exists n d, In (n, d) analysis /\ In a (rank_step [] (n, d)).
Proof.
  rewrite collect_actions_flat_map, in_flat_map. split.
  - intros [[n d] [H1 H2]]. eauto.
  - intros (n & d & H1 & H2). exists (n, d). auto.
Qed.

(** *** The order on sort keys *)

Lemma key_leb_le a b :
  key_leb (sort_key a) (sort_key b) = true <-> action_le a b.
Proof.
  unfold key_leb, action_le, sort_key; simpl.
  rewrite orb_true_iff, andb_true_iff, Z.ltb_lt, Z.eqb_eq, Z.leb_le.
  tauto.
Qed.

Lemma key_leb_total k1 k2 : key_leb k1 k2 = false -> key_leb k2 k1 = true.
Proof.
  unfold key_leb. destruct k1 as [p1 d1], k2 as [p2 d2]; simpl.
  rewrite orb_false_iff, andb_false_iff, orb_true_iff, andb_true_iff.
  rewrite !Z.ltb_ge, !Z.ltb_lt, Z.eqb_neq, Z.eqb_eq, Z.leb_gt, Z.leb_le.
  lia.
Qed.

Lemma action_le_trans a b c : action_le a b -> action_le b c -> action_le a c.
Proof. unfold action_le. lia. Qed.

Lemma action_le_antisym a b :
  action_le a b -> action_le b a -> sort_key a = sort_key b.
Proof.
  unfold action_le, sort_key. intros H1 H2. f_equal; lia.
Qed.

Lemma key_eqb_eq k1 k2 : key_eqb k1 k2 = true <-> k1 = k2.
Proof.
  destruct k1, k2. unfold key_eqb; simpl.
  rewrite andb_true_iff, !Z.eqb_eq. split; [intros [-> ->] | intros [= -> ->]]; auto.
Qed.

Lemma key_eqb_leb k1 k2 : key_eqb k1 k2 = true -> key_leb k1 k2 = true.
Proof.
  intros H. apply key_eqb_eq in H. subst. destruct k2 as [p d].
  unfold key_leb; simpl. rewrite Z.eqb_refl, Z.leb_refl. apply orb_true_r.
Qed.

(** *** The stable sort *)

Lemma insert_by_key_perm x l : Permutation (x :: l) (insert_by_key x l).
Proof.
  induction l as [|y l IH]; simpl; auto.
  destruct (key_leb (sort_key x) (sort_key y)); auto.
  rewrite perm_swap. now constructor.
Qed.

Lemma sort_by_key_perm l : Permutation l (sort_by_key l).
Proof.
  induction l as [|x l IH]; simpl; auto.
  rewrite <- insert_by_key_perm. now constructor.
Qed.

Lemma insert_by_key_sorted x l :
  StronglySorted action_le l -> StronglySorted action_le (insert_by_key x l).
Proof.
  induction 1 as [|y l Hs IH Hall]; simpl.
  - repeat constructor.
  - destruct (key_leb (sort_key x) (sort_key y)) eqn:E.
    + apply key_leb_le in E. constructor.
      * now constructor.
      * constructor; auto.
        eapply Forall_impl; [|exact Hall].
        intros z Hz. eapply action_le_trans; eauto.
    + apply key_leb_total, key_leb_le in E. constructor; auto.
      eapply Permutation_Forall; [apply insert_by_key_perm|].
      now constructor.
Qed.

Lemma sort_by_key_sorted l : StronglySorted action_le (sort_by_key l).
Proof.
  induction l as [|x l IH]; simpl.
  - constructor.
  - now apply insert_by_key_sorted.
Qed.

Lemma insert_by_key_stable k x l :
  with_key k (insert_by_key x l) = with_key k (x :: l).
Proof.
  unfold with_key. induction l as [|y l IH]; simpl; auto.
  destruct (key_leb (sort_key x) (sort_key y)) eqn:E; simpl; auto.
  rewrite IH. simpl.
  destruct (key_eqb (sort_key x) k) eqn:Ex, (key_eqb (sort_key y) k) eqn:Ey; auto.
  apply key_eqb_eq in Ex, Ey. rewrite Ex, Ey in E.
  assert (key_leb k k = true) by (apply key_eqb_leb, key_eqb_eq; reflexivity).
  congruence.
Qed.

Lemma sort_by_key_stable k l : with_key k (sort_by_key l) = with_key k l.
Proof.
  induction l as [|x l IH]; simpl; auto.
  rewrite insert_by_key_stable. unfold with_key in *. simpl. now rewrite IH.
Qed.

Lemma with_key_head x l : with_key (sort_key x) (x :: l) = x :: with_key (sort_key x) l.
Proof.
  unfold with_key. simpl.
  assert (key_eqb (sort_key x) (sort_key x) = true) as -> by now apply key_eqb_eq.
  reflexivity.
Qed.

Lemma with_key_In k a l : In a (with_key k l) -> In a l.
Proof. unfold with_key. intros H. now apply filter_In in H. Qed.

(** A list has one sorted and stable arrangement only: whatever stable
    sorting algorithm is run, the result is the one of [sort_by_key]. *)
Lemma sorted_stable_unique l1 : forall l2,
  StronglySorted action_le l1 -> StronglySorted action_le l2 ->
  (forall k, with_key k l1 = with_key k l2) -> l1 = l2.
Proof.
  induction l1 as [|x t1 IH]; intros [|y t2] S1 S2 Hk.
  - reflexivity.
  - specialize (Hk (sort_key y)). rewrite with_key_head in Hk. discriminate.
  - specialize (Hk (sort_key x)). rewrite with_key_head in Hk. discriminate.
  - inversion S1 as [|? ? S1' F1]; inversion S2 as [|? ? S2' F2]; subst.
    assert (Hxy : action_le y x \/ y = x).
    { assert (In x (y :: t2)) as [-> | Hin].
      { apply (with_key_In (sort_key x)). rewrite <- Hk, with_key_head. now left. }
      - now right.
      - left. rewrite Forall_forall in F2. auto. }
    assert (Hyx : action_le x y \/ x = y).
    { assert (In y (x :: t1)) as [-> | Hin].
      { apply (with_key_In (sort_key y)). rewrite Hk, with_key_head. now left. }
      - now right.
      - left. rewrite Forall_forall in F1. auto. }
    assert (Hkey : sort_key x = sort_key y).
    { destruct Hxy as [Hxy | ->]; [|reflexivity].
      destruct Hyx as [Hyx | ->]; [|reflexivity].
      now apply action_le_antisym. }
    assert (x = y) as ->.
    { pose proof (Hk (sort_key x)) as H.
      rewrite with_key_head in H. rewrite Hkey, with_key_head in H. congruence. }
    f_equal. apply IH; auto.
    intros k. specialize (Hk k). unfold with_key in *. simpl in Hk.
    destruct (key_eqb (sort_key y) k); congruence.
Qed.

Lemma sort_by_key_filter_length (f : action -> bool) l :
  List.length (filter f (sort_by_key l)) = List.length (filter f l).
Proof.
  assert (Hins : forall x l, List.length (filter f (insert_by_key x l)) = List.length (filter f (x :: l))).
  { intros x l0. induction l0 as [|y l0 IH]; simpl; auto.
    destruct (key_leb (sort_key x) (sort_key y)); simpl; auto.
    simpl in IH. destruct (f y), (f x); simpl; rewrite IH; simpl; auto. }
  induction l as [|x l IH]; simpl; auto.
  rewrite Hins. simpl. destruct (f x); simpl; now rewrite IH.
Qed.

(** *** The analysis dictionary *)

Lemma dict_keys_set_In {V} (k n : string) (v : V) d :
  In n (Dict.keys (Dict.set k v d)) -> In n (Dict.keys d) \/ n = k.
Proof.
  rewrite dict_keys_set. destruct (Dict.mem k d); auto.
  rewrite in_app_iff. simpl. intuition.
Qed.

Lemma by_name_NoDup l : forall acc d,
  by_name l acc = Some d -> NoDup (Dict.keys acc) -> NoDup (Dict.keys d).
Proof.
  induction l as [|c l IH]; simpl; intros acc d H Hnd.
  - now injection H as <-.
  - destruct (name c) as [n|]; [|discriminate].
    eapply IH; eauto. now apply dict_set_NoDup.
Qed.

Lemma by_name_keys l : forall acc d n,
  by_name l acc = Some d ->
  (In n (Dict.keys d) <-> In n (Dict.keys acc) \/ In (Some n) (map name l)).
Proof.
  induction l as [|c l IH]; simpl; intros acc d n H.
  - injection H as <-. tauto.
  - destruct (name c) as [m|] eqn:Hm; [|discriminate].
    rewrite (IH _ _ n H), dict_keys_set.
    destruct (Dict.mem m acc) eqn:E.
    + apply dict_mem_true in E. split; [tauto|].
      intros [H1 | [[= ->] | H1]]; auto.
    + rewrite in_app_iff. simpl. split.
      * intros [[H1 | [-> | []]] | H1]; auto.
      * intros [H1 | [[= ->] | H1]]; auto.
Qed.

Lemma analyze_current_keys bd acc it n :
  In n (Dict.keys (analyze_current bd acc it)) ->
  In n (Dict.keys acc) \/ n = fst it.
Proof.
  destruct it as [k c]. unfold analyze_current.
  destruct (calculate_score_diff _ _) as [diff st].
  apply dict_keys_set_In.
Qed.

Lemma analyze_current_NoDup bd acc it :
  NoDup (Dict.keys acc) -> NoDup (Dict.keys (analyze_current bd acc it)).
Proof.
  destruct it as [k c]. unfold analyze_current.
  destruct (calculate_score_diff _ _) as [diff st].
  apply dict_set_NoDup.
Qed.

Lemma fold_current_keys bd l : forall acc n,
  In n (Dict.keys (fold_left (analyze_current bd) l acc)) ->
  In n (Dict.keys acc) \/ In n (Dict.keys l).
Proof.
  induction l as [|it l IH]; simpl; intros acc n H; auto.
  apply IH in H. destruct H as [H | H]; auto.
  apply analyze_current_keys in H. intuition.
Qed.

Lemma fold_current_NoDup bd l : forall acc,
  NoDup (Dict.keys acc) ->
  NoDup (Dict.keys (fold_left (analyze_current bd) l acc)).
Proof.
  induction l as [|it l IH]; simpl; intros acc H; auto.
  apply IH. now apply analyze_current_NoDup.
Qed.

Lemma analyze_baseline_NoDup cd acc it :
  NoDup (Dict.keys acc) -> NoDup (Dict.keys (analyze_baseline cd acc it)).
Proof.
  destruct it as [k c]. unfold analyze_baseline.
  destruct (negb (Dict.mem k cd)); auto. apply dict_set_NoDup.
Qed.

Lemma fold_baseline_NoDup cd l : forall acc,
  NoDup (Dict.keys acc) ->
  NoDup (Dict.keys (fold_left (analyze_baseline cd) l acc)).
Proof.
  induction l as [|it l IH]; simpl; intros acc H; auto.
  apply IH. now apply analyze_baseline_NoDup.
Qed.

Lemma fold_baseline_get_other cd l : forall acc n,
  ~ In n (Dict.keys l) ->
  Dict.get n (fold_left (analyze_baseline cd) l acc) = Dict.get n acc.
Proof.
  induction l as [|[k c] l IH]; simpl; intros acc n H; auto.
  rewrite IH by tauto. unfold analyze_baseline.
  destruct (negb (Dict.mem k cd)); auto.
  apply dict_get_set_other. intros ->. tauto.
Qed.

Lemma fold_baseline_get cd l : forall acc n c,
  NoDup (Dict.keys l) -> Dict.get n l = Some c -> Dict.mem n cd = false ->
  Dict.get n (fold_left (analyze_baseline cd) l acc) =
  Some {| a_current_score := 0;
          a_baseline_score := get_score (Some c);
          a_diff := - get_score (Some c);
          a_status := missing;
          a_current_reason := "Check not found in current results";
          a_baseline_reason := get_reason (Some c);
          a_documentation := [] |}.
Proof.
  induction l as [|[k c'] l IH]; simpl; intros acc n c Hnd Hget Hmem.
  - discriminate.
  - inversion Hnd as [|? ? Hk Hnd']; subst.
    destruct (String.eqb n k) eqn:E.
    + apply String.eqb_eq in E. subst k. injection Hget as ->.
      rewrite fold_baseline_get_other by exact Hk.
      unfold analyze_baseline. rewrite Hmem. simpl.
      apply dict_get_set_same.
    + now apply IH.
Qed.

(** The analysis is a dictionary: no check name occurs twice in it. *)
Lemma analysis_NoDup cur base analysis :
  analyze_individual_checks cur base = Some analysis ->
  NoDup (Dict.keys analysis).
Proof.
  unfold analyze_individual_checks.
  destruct (by_name base []) as [bd|]; [|discriminate].
  destruct (by_name cur []) as [cd|]; [|discriminate].
  intros [= <-]. apply fold_baseline_NoDup, fold_current_NoDup. constructor.
Qed.

(** The analysis is produced whenever every check has a name. *)
Lemma by_name_total l : forall acc,
  Forall (fun c => name c <> None) l -> exists d, by_name l acc = Some d.
Proof.
  induction l as [|c l IH]; simpl; intros acc H.
  - eauto.
  - inversion H as [|? ? Hc Hl]; subst.
    destruct (name c); [|congruence]. now apply IH.
Qed.

(** *** A check that disappeared *)



(** Scenario D, evaluated: the only action is the restoration of the
    missing check, with [diff = -8]. *)
Example scenario_d_actions :
  option_map identify_priority_actions
    (analyze_individual_checks ScorecardExamples.scenario_d_current
       ScorecardExamples.scenario_d_baseline) =
  Some [ {| act_check := "Fuzzing"; act_priority := high;
            act_action := restore_check; act_current_score := 0;
            act_baseline_score := 8; act_diff := -8;
            act_reason := "Check not found in current results" |} ].
Proof. reflexivity. Qed.

(** *** The order of the ranked actions *)

Lemma action_le_may_precede a b :
  action_le a b <-> RankingSpec.may_precede a b.
Proof.
  unfold action_le, RankingSpec.may_precede.
  destruct (act_priority a), (act_priority b); cbn; split;
    intros [H | [H1 H2]];
    try lia; try discriminate; try (inversion H; fail);
    try (left; constructor); try (left; lia); try (right; split; [reflexivity | assumption]);
    try (right; split; [reflexivity | assumption]).
Qed.

Lemma StronglySorted_impl {A} (R R' : A -> A -> Prop) l :
  (forall a b, R a b -> R' a b) ->
  StronglySorted R l -> StronglySorted R' l.
Proof.
  intros HR. induction 1 as [|a l _ IH Hall]; constructor; auto.
  eapply Forall_impl; [|exact Hall]. auto.
Qed.

Lemma with_key_tied p d l :
  with_key (priority_order p, d) l = RankingSpec.tied p d l.
Proof.
  unfold with_key, RankingSpec.tied. apply filter_ext. intros a.
  unfold key_eqb, sort_key. cbn [fst snd].
  destruct (act_priority a), p; reflexivity.
Qed.

Lemma with_key_no_rank k l :
  (forall p, fst k <> priority_order p) -> with_key k l = [].
Proof.
  intros Hk. unfold with_key. induction l as [|a l IH]; [reflexivity|].
  cbn [filter]. rewrite IH.
  replace (key_eqb (sort_key a) k) with false; [reflexivity|].
  symmetry. unfold key_eqb, sort_key. cbn [fst snd].
  apply andb_false_iff. left. apply Z.eqb_neq. intros H.
  apply (Hk (act_priority a)). now symmetry.
Qed.

Lemma with_key_from_tied l l' :
  (forall p d, RankingSpec.tied p d l = RankingSpec.tied p d l') ->
  forall k, with_key k l = with_key k l'.
Proof.
  intros H [z d].
  destruct (Z.eq_dec z 0) as [-> | H0];
    [apply (eq_trans (with_key_tied high d l));
     rewrite H; symmetry; apply (with_key_tied high d)|].
  destruct (Z.eq_dec z 1) as [-> | H1];
    [apply (eq_trans (with_key_tied medium d l));
     rewrite H; symmetry; apply (with_key_tied medium d)|].
  destruct (Z.eq_dec z 2) as [-> | H2];
    [apply (eq_trans (with_key_tied low d l));
     rewrite H; symmetry; apply (with_key_tied low d)|].
  rewrite !with_key_no_rank; auto;
    intros p; destruct p; cbn; auto.
Qed.

(** C9.  The ranked action list is the list of the actions in the order
    of the analysed checks, rearranged so that every high-priority action
    stands before every medium one and every medium one before every low
    one, and among the actions of one priority a smaller score difference
    stands first; the actions of equal priority and difference keep their
    original order.  These conditions leave one sequence only. *)
Theorem priority_actions_sorted_stable :
  forall analysis,
    let emitted := flat_map (rank_step []) analysis in
    let ranked := identify_priority_actions analysis in
    StronglySorted RankingSpec.may_precede ranked /\
    Permutation emitted ranked /\
    (forall p d, RankingSpec.tied p d ranked = RankingSpec.tied p d emitted) /\
    (forall other,
        StronglySorted RankingSpec.may_precede other ->
        (forall p d,
            RankingSpec.tied p d other = RankingSpec.tied p d emitted) ->
        other = ranked).
Proof.
  intros analysis emitted ranked. subst emitted ranked.
  unfold identify_priority_actions. rewrite collect_actions_flat_map.
  split; [|split; [|split]].
  - eapply StronglySorted_impl; [|apply sort_by_key_sorted].
    intros a b. apply action_le_may_precede.
  - apply sort_by_key_perm.
  - intros p d. rewrite <- !with_key_tied. apply sort_by_key_stable.
  - intros other Hs Hk. apply sorted_stable_unique.
    + eapply StronglySorted_impl; [|exact Hs].
      intros a b. apply action_le_may_precede.
    + apply sort_by_key_sorted.
    + intros k. rewrite sort_by_key_stable.
      now apply with_key_from_tied.
Qed.

(** *** One action per check at most *)

Lemma actions_on_other k n d :
  k <> n -> actions_on n (rank_step [] (k, d)) = [].
Proof.
  intros Hne. unfold actions_on.
  assert (E : String.eqb k n = false) by now apply String.eqb_neq.
  destruct (rank_step_cases k d)
    as [[_ ->] | [[_ ->] | [(_ & _ & _ & _ & ->) | (_ & _ & _ & ->)]]];
    simpl; rewrite ?E; reflexivity.
Qed.

Lemma actions_on_absent n l :
  ~ In n (Dict.keys l) -> actions_on n (flat_map (rank_step []) l) = [].
Proof.
  induction l as [|[k d] l IH]; simpl; intros H; auto.
  unfold actions_on in *. rewrite filter_app, IH by tauto.
  rewrite app_nil_r. apply actions_on_other. intros ->. tauto.
Qed.

Local Arguments rank_step : simpl never.

Lemma actions_on_length n l :
  NoDup (Dict.keys l) ->
  (List.length (actions_on n (flat_map (rank_step []) l)) <= 1)%nat.
Proof.
  induction l as [|[k d] l IH]; simpl; intros Hnd; auto.
  inversion Hnd as [|? ? Hk Hnd']; subst.
  unfold actions_on in *. rewrite filter_app, length_app.
  destruct (string_dec k n) as [-> | Hne].
  - fold (actions_on n (flat_map (rank_step []) l)).
    rewrite (actions_on_absent n l Hk). simpl.
    pose proof (rank_step_length n d) as Hlen.
    pose proof (filter_length_le (fun a => String.eqb (act_check a) n)
                  (rank_step [] (n, d))).
    lia.
  - fold (actions_on n (rank_step [] (k, d))).
    rewrite (actions_on_other k n d Hne). simpl. auto.
Qed.

Lemma ranked_In analysis a :
  In a (identify_priority_actions analysis) <->
  exists n d, In (n, d) analysis /\ In a (rank_step [] (n, d)).
Proof.
  rewrite <- in_collect_actions. unfold identify_priority_actions. split.
  - apply Permutation_in. symmetry. apply sort_by_key_perm.
  - apply Permutation_in. apply sort_by_key_perm.
Qed.

(** C10, corrected.  In an analysis (a dictionary: no name twice) every
    check gets at most one action.  A declined check gets its
    [investigate_decline] action and no other, whatever its score and
    criticality; an [improve_security] action only goes to a
    security-critical check below 7 that neither declined nor is missing;
    an improved or unchanged check that scores 7 or more, and a check
    outside the security-critical subset that neither declined nor is
    missing, get no action. *)
Theorem at_most_one_action_per_check :
  forall analysis,
    NoDup (Dict.keys analysis) ->
    let ranked := identify_priority_actions analysis in
    (forall n, (List.length (actions_on n ranked) <= 1)%nat) /\
    (forall n d,
        In (n, d) analysis -> a_status d = declined ->
        (exists a, In a ranked /\ act_check a = n) /\
        (forall a, In a ranked -> act_check a = n ->
                   act_action a = investigate_decline)) /\
    (forall a,
        In a ranked -> act_action a = improve_security ->
        exists d, In (act_check a, d) analysis /\
                  a_status d <> declined /\ a_status d <> missing /\
                  a_current_score d < 7 /\ is_critical (act_check a) = true) /\
    (forall n d,
        In (n, d) analysis ->
        ((a_status d = improved \/ a_status d = unchanged)
         /\ 7 <= a_current_score d)
        \/ (is_critical n = false
            /\ a_status d <> declined /\ a_status d <> missing) ->
        actions_on n ranked = []).
Proof.
  intros analysis Hnd ranked.
  assert (Hsame : forall n d n' d' a,
             In (n, d) analysis -> In (n', d') analysis ->
             In a (rank_step [] (n', d')) -> act_check a = n -> d' = d /\ n' = n).
  { intros n d n' d' a H1 H2 Ha Hc.
    apply rank_step_check in Ha. rewrite Ha in Hc. subst n'. split; auto.
    apply (dict_In_get _ _ _ Hnd) in H1, H2. congruence. }
  split; [|split; [|split]].
  - intros n. subst ranked. unfold identify_priority_actions, actions_on.
    rewrite sort_by_key_filter_length, collect_actions_flat_map.
    now apply actions_on_length.
  - intros n d Hin Hst.
    destruct (rank_step_cases n d)
      as [[_ E] | [[E _] | [(E & _) | (E & _)]]]; try congruence.
    split.
    + eexists. split.
      * apply ranked_In. exists n, d. split; [assumption|]. rewrite E. now left.
      * reflexivity.
    + intros a Ha Hc. apply ranked_In in Ha.
      destruct Ha as (n' & d' & Hin' & Ha).
      destruct (Hsame _ _ _ _ _ Hin Hin' Ha Hc) as [-> ->].
      rewrite E in Ha. destruct Ha as [<- | []]. reflexivity.
  - intros a Ha Hk. apply ranked_In in Ha.
    destruct Ha as (n & d & Hin & Ha).
    pose proof (rank_step_check _ _ _ Ha) as Hn. subst n.
    exists d. split; auto.
    destruct (rank_step_cases (act_check a) d)
      as [[_ E] | [[_ E] | [(H1 & H2 & H3 & H4 & E) | (_ & _ & _ & E)]]];
      rewrite E in Ha; simpl in Ha;
      try (destruct Ha as [Ha | []];
           apply (f_equal act_action) in Ha; simpl in Ha; congruence);
      try contradiction.
    tauto.
  - intros n d Hin Hcase.
    assert (Hst : a_status d <> declined /\ a_status d <> missing)
      by (destruct Hcase as [[[H | H] _] | (_ & H1 & H2)];
          [rewrite H; split; discriminate
          |rewrite H; split; discriminate
          |split; assumption]).
    assert (Hsc : 7 <= a_current_score d \/ is_critical n = false)
      by (destruct Hcase as [[_ H] | (H & _)]; auto).
    clear Hcase.
    destruct (actions_on n ranked) as [|a l] eqn:E; auto. exfalso.
    assert (Ha : In a (actions_on n ranked)) by (rewrite E; now left).
    unfold actions_on in Ha. apply filter_In in Ha. destruct Ha as [Ha Hc].
    apply String.eqb_eq in Hc. apply ranked_In in Ha.
    destruct Ha as (n' & d' & Hin' & Ha).
    destruct (Hsame _ _ _ _ _ Hin Hin' Ha Hc) as [-> ->].
    destruct (rank_step_cases n d)
      as [[E' _] | [[E' _] | [(_ & _ & H3 & H4 & _) | (_ & _ & _ & E')]]].
    + destruct Hst; congruence.
    + destruct Hst; congruence.
    + destruct Hsc; [lia | congruence].
    + rewrite E' in Ha. contradiction.
Qed.

Lemma at_most_one_action_per_check_witness :
  let ranked := identify_priority_actions ScorecardExamples.mixed_analysis in
  (forall n, (List.length (actions_on n ranked) <= 1)%nat) /\
  (forall n d,
      In (n, d) ScorecardExamples.mixed_analysis -> a_status d = declined ->
      (exists a, In a ranked /\ act_check a = n) /\
      (forall a, In a ranked -> act_check a = n ->
                 act_action a = investigate_decline)) /\
  (forall a,
      In a ranked -> act_action a = improve_security ->
      exists d, In (act_check a, d) ScorecardExamples.mixed_analysis /\
                a_status d <> declined /\ a_status d <> missing /\
                a_current_score d < 7 /\ is_critical (act_check a) = true) /\
  (forall n d,
      In (n, d) ScorecardExamples.mixed_analysis ->
      ((a_status d = improved \/ a_status d = unchanged)
       /\ 7 <= a_current_score d)
      \/ (is_critical n = false
          /\ a_status d <> declined /\ a_status d <> missing) ->
      actions_on n ranked = []).
Proof.
  apply (at_most_one_action_per_check ScorecardExamples.mixed_analysis).
  unfold ScorecardExamples.mixed_analysis, Dict.keys. simpl.
  repeat constructor; simpl; intuition discriminate.
Defined.

(** A check outside the security-critical subset that did not decline but
    is missing from the current results does get an action: in the mixed
    analysis, the missing check "Fuzzing" is to be restored. *)
Lemma missing_check_outside_critical_gets_action :
  let ranked := identify_priority_actions ScorecardExamples.mixed_analysis in
  exists d a,
    In ("Fuzzing", d) ScorecardExamples.mixed_analysis /\
    is_critical "Fuzzing" = false /\
    a_status d <> declined /\
    actions_on "Fuzzing" ranked = [a] /\
    act_action a = restore_check.
Proof.
  cbv zeta. eexists. eexists.
  split; [right; right; right; left; reflexivity|].
  split; [reflexivity|]. split; [discriminate|].
  split; reflexivity.
Qed.

(** The mixed analysis, evaluated: the declined critical check below 7 has
    its decline action only, the missing check is restored, the unchanged
    critical check below 7 is to be improved, the others have no action. *)
Example mixed_analysis_actions :
  map (fun a => (act_check a, act_priority a, act_action a, act_diff a))
    (identify_priority_actions ScorecardExamples.mixed_analysis) =
  [ ("Fuzzing", high, restore_check, -6);
    ("Code-Review", high, investigate_decline, -5);
    ("Security-Policy", medium, improve_security, 0) ].
Proof. reflexivity. Qed.

End ScorecardFacts.

(** ** Facts on the report *)

Section ReportFacts.
Import Fs Checker.

Lemma in_zrange lo n t : lo <= t < lo + Z.of_nat n -> In t (zrange lo n).
Proof.
  intros H. unfold zrange. apply in_map_iff.
  exists (Z.to_nat (t - lo)). split; [lia|].
  apply in_seq. lia.
Qed.

(** Every number of scores up to 20 and every total from -2000 up,
    computed. *)
Lemma band_table_checked : agrees_up_to 20 (-2000) = true.
Proof. vm_compute. reflexivity. Qed.

Lemma agrees_up_to_spec checks lowest :
  agrees_up_to checks lowest = true ->
  forall n total,
    (1 <= n <= checks)%nat -> lowest <= total <= 10 * Z.of_nat n ->
    agrees total (10 * Z.of_nat n) = true.
Proof.
  unfold agrees_up_to. intros H n total Hn Ht.
  rewrite forallb_forall in H.
  assert (Hin : In n (seq 1 checks)) by (apply in_seq; lia).
  apply H in Hin. cbv zeta in Hin. rewrite forallb_forall in Hin.
  apply Hin. apply in_zrange. lia.
Qed.

Lemma percent_agrees n total :
  (1 <= n <= 20)%nat -> -2000 <= total <= 10 * Z.of_nat n ->
  within_tolerance (percent total (10 * Z.of_nat n))
    (exact_percentage total (10 * Z.of_nat n)) = true /\
  status_of (percent total (10 * Z.of_nat n)) = exact_band total (10 * Z.of_nat n).
Proof.
  intros Hn Ht.
  pose proof (agrees_up_to_spec 20 (-2000) band_table_checked n total Hn Ht) as H.
  unfold agrees in H. apply andb_true_iff in H. destruct H as [H1 H2].
  apply String.eqb_eq in H2. auto.
Qed.

(** The [if]/[elif] chain of the report assigns the band of the
    thresholds. *)
Lemma status_of_band p : band_by_thresholds p (status_of p).
Proof.
  unfold band_by_thresholds, status_of, at_least.
  destruct (PrimFloat.leb (float_of_int 90) p); [now left|].
  destruct (PrimFloat.leb (float_of_int 80) p); [right; left; auto|].
  destruct (PrimFloat.leb (float_of_int 70) p);
    [right; right; left; auto|].
  destruct (PrimFloat.leb (float_of_int 60) p);
    [right; right; right; left; auto|].
  right; right; right; right. auto.
Qed.

(** Scenario E, evaluated. *)
Example scenario_e_bands :
  overall_status (generate_report "" CheckerExamples.scenario_e_fair) = "fair" /\
  overall_status (generate_report "" CheckerExamples.scenario_e_critical)
    = "critical".
Proof. split; vm_compute; reflexivity. Qed.

(** The percentage is not always the exact quotient: for 23 out of 80 the
    report holds the float just below 28.75. *)
Example percent_23_of_80 :
  Q_of_float (percent 23 80) = Some (8092405580431359 # 281474976710656)%Q /\
  exact_percentage 23 80 = (2300 # 80)%Q /\
  Qeq_bool (8092405580431359 # 281474976710656) (2300 # 80) = false.
Proof. repeat split; vm_compute; reflexivity. Qed.

End ReportFacts.

(** ** Facts on security-config-check.py *)

Section CheckerFacts.
Import Fs Checker.

Lemma wp_ret {A} (a : A) Q E r : Q a r -> wp (ret a) Q E r.
Proof. auto. Qed.

Lemma wp_bind {A B} (m : M A) (f : A -> M B) Q E r :
  wp m (fun a r' => wp (f a) Q E r') E r -> wp (bind m f) Q E r.
Proof. unfold wp, bind. destruct (m r) as [[a | e] r']; auto. Qed.

Lemma wp_lift {A} (x : result A) Q E r :
  match x with Ok a => Q a r | Raise e => E e r end -> wp (lift x) Q E r.
Proof. unfold wp, lift. destruct x; auto. Qed.

Lemma wp_mono {A} (m : M A) (Q Q' : A -> results -> Prop)
  (E E' : exn -> results -> Prop) r :
  (forall a r', Q a r' -> Q' a r') -> (forall e r', E e r' -> E' e r') ->
  wp m Q E r -> wp m Q' E' r.
Proof. unfold wp. destruct (m r) as [[a | e] r']; auto. Qed.

Lemma wp_try_except {A} classes (fallback : A) (body : M A) Q E r :
  wp body Q
    (fun e r' => if existsb (String.eqb (exn_class e)) classes
                 then Q fallback r' else E e r') r ->
  wp (try_except classes fallback body) Q E r.
Proof.
  unfold wp, try_except. destruct (body r) as [[a | e] r']; auto.
  destruct (existsb _ classes); auto.
Qed.

(** The loop rule: the invariant may look at what is left of the list. *)
Lemma wp_for_each {X A} (I : list X -> A -> results -> Prop)
  (body : A -> X -> M A) E :
  (forall x xs a r, I (x :: xs) a r -> wp (body a x) (I xs) E r) ->
  forall xs a r, I xs a r -> wp (for_each xs a body) (I []) E r.
Proof.
  intros Hbody. induction xs as [|x xs IH]; intros a r HI; simpl.
  - now apply wp_ret.
  - apply wp_bind. eapply wp_mono; [| |apply (Hbody x xs a r HI)]; auto.
Qed.

Lemma wp_log_issue c s m rec (Q : unit -> results -> Prop) E r :
  Q tt (with_issue (mk_issue c s m rec) r) -> wp (log_issue c s m rec) Q E r.
Proof. auto. Qed.

Lemma wp_log_recommendation c m (Q : unit -> results -> Prop) E r :
  Q tt (with_advice (mk_advice c m) r) -> wp (log_recommendation c m) Q E r.
Proof. auto. Qed.

Lemma wp_set_score key s (Q : unit -> results -> Prop) E r :
  Q tt (with_score key s r) -> wp (set_score key s) Q E r.
Proof. auto. Qed.

Lemma scores_with_issue i r : scores (with_issue i r) = scores r.
Proof. reflexivity. Qed.

Lemma scores_with_advice a r : scores (with_advice a r) = scores r.
Proof. reflexivity. Qed.

Lemma scores_with_score key s r :
  scores (with_score key s r) = Dict.set key s (scores r).
Proof. reflexivity. Qed.

Lemma issues_with_issue i r : issues (with_issue i r) = issues r ++ [i].
Proof. now destruct i. Qed.

Lemma issues_with_advice a r : issues (with_advice a r) = issues r.
Proof. reflexivity. Qed.

Lemma issues_with_score key s r : issues (with_score key s r) = issues r.
Proof. reflexivity. Qed.

(** One step of symbolic execution. *)
Ltac wp_step :=
  lazymatch goal with
  | |- wp (bind _ _) _ _ _ => apply wp_bind
  | |- wp (ret _) _ _ _ => apply wp_ret
  | |- wp (lift _) _ _ _ => apply wp_lift
  | |- wp (log_issue _ _ _ _) _ _ _ => apply wp_log_issue
  | |- wp (log_recommendation _ _) _ _ _ => apply wp_log_recommendation
  | |- wp (set_score _ _) _ _ _ => apply wp_set_score
  | |- wp (try_except _ _ _) _ _ _ => apply wp_try_except
  | |- wp (if ?b then _ else _) _ _ _ => destruct b eqn:?
  | |- wp (let '(_, _) := ?p in _) _ _ _ => destruct p
  | |- match ?x with Ok _ => _ | Raise _ => _ end => destruct x eqn:?
  end.

Ltac wp_run := repeat wp_step.

Ltac wp_done :=
  simpl; repeat split; (reflexivity || assumption || lia || auto).

(** *** The presence checks *)

Lemma authentication_spec fs :
  check_spec "authentication" (fun s => s = 0 \/ s = 5 \/ s = 10)
    (check_authentication_config fs).
Proof.
  intros r. unfold check_authentication_config. wp_run; wp_done.
Qed.

Lemma rate_limiting_spec fs :
  check_spec "rate_limiting" (fun s => s = 0 \/ s = 5 \/ s = 10)
    (check_rate_limiting fs).
Proof.
  intros r. unfold check_rate_limiting. wp_run; wp_done.
Qed.

Lemma input_validation_spec fs :
  check_spec "input_validation" (fun s => s = 0 \/ s = 5 \/ s = 10)
    (check_input_validation fs).
Proof.
  intros r. unfold check_input_validation. wp_run; wp_done.
Qed.

Lemma dependency_security_spec fs json_loads :
  check_spec "dependency_security" (fun s => 0 <= s <= 10)
    (check_dependency_security fs json_loads).
Proof.
  intros r. unfold check_dependency_security. wp_run; wp_done.
Qed.

(** *** The checks with loops *)

Lemma wp_loop {X A} (I : list X -> A -> results -> Prop)
  (body : A -> X -> M A) (Q : A -> results -> Prop) E xs a r :
  I xs a r ->
  (forall x xs a r, I (x :: xs) a r -> wp (body a x) (I xs) E r) ->
  (forall a r, I [] a r -> Q a r) ->
  wp (for_each xs a body) Q E r.
Proof.
  intros HI Hbody HQ.
  eapply wp_mono; [exact HQ | | apply (wp_for_each I body E Hbody xs a r HI)].
  auto.
Qed.

Lemma ci_security_spec fs :
  check_spec "ci_security" (fun s => 0 <= s <= 10) (check_ci_security fs).
Proof.
  intros r0. unfold check_ci_security. wp_run.
  - apply (wp_loop (fun _ a r => 0 <= a /\ scores r = scores r0)).
    + split; [lia | reflexivity].
    + intros x xs a r [Ha Hr]. wp_run; wp_done.
    + intros a r [Ha Hr].
      apply (wp_loop (fun _ a r => 0 <= a /\ scores r = scores r0)).
      * now split.
      * intros x xs a' r' [Ha' Hr']. wp_run; wp_done.
      * intros a' r' [Ha' Hr']. wp_run. simpl. rewrite Hr'.
        repeat split; lia.
  - wp_done.
Qed.

Lemma file_permissions_spec fs :
  check_spec "file_permissions" (fun s => 2 <= s <= 10)
    (check_file_permissions fs).
Proof.
  intros r0. unfold check_file_permissions. wp_run.
  apply (wp_loop (fun rest a r =>
           2 + 2 * Z.of_nat (List.length rest) <= a <= 10
           /\ scores r = scores r0)).
  - simpl. split; [lia | reflexivity].
  - intros x xs a r [Ha Hr]. simpl List.length in Ha.
    wp_run; cbv beta; first [assumption | split; [lia | assumption]].
  - intros a r [Ha Hr]. simpl in Ha. wp_run. simpl. rewrite Hr.
    repeat split; lia.
Qed.

(** The secret scan of one file never touches the scores. *)
Lemma check_file_for_patterns_frame fs file_path patterns score r0 :
  wp (_check_file_for_patterns fs file_path patterns score)
    (fun _ r => scores r = scores r0) (fun _ r => scores r = scores r0) r0.
Proof.
  unfold _check_file_for_patterns. wp_run.
  - apply (wp_loop (fun _ _ r => scores r = scores r0)); auto.
    intros [pattern description] xs acc st Hst. wp_run; wp_done.
  - destruct (existsb _ _); reflexivity.
Qed.

Lemma environment_variables_spec fs :
  check_spec "environment_variables" (fun s => 8 <= s <= 10)
    (check_environment_variables fs).
Proof.
  intros r0. unfold check_environment_variables.
  assert (Hscan : forall files r,
             scores r = scores r0 ->
             wp (for_each files tt (fun _ file_path =>
                   _check_file_for_patterns fs file_path hardcoded_patterns 10 ;;;
                   ret tt))
               (fun _ r' => scores r' = scores r0)
               (fun _ r' => scores r' = scores r0) r).
  { intros files r Hr.
    apply (wp_loop (fun _ _ r => scores r = scores r0)); auto.
    intros x xs a r1 Hr1. wp_run.
    eapply wp_mono; [| |apply check_file_for_patterns_frame].
    - intros a' r' Hr'. wp_run. congruence.
    - simpl. congruence. }
  wp_run.
  apply (wp_loop (fun _ _ r => scores r = scores r0)); auto.
  - intros x xs a r Hr. wp_run; [|assumption].
    eapply wp_mono; [| |apply (Hscan _ _ Hr)]; auto.
  - intros a r Hr. wp_run.
    apply (wp_loop (fun rest a r =>
             8 + Z.of_nat (List.length rest) <= a <= 10
             /\ scores r = scores r0)).
    + simpl. split; [lia | assumption].
    + intros [env_file comp] xs a' r' [Ha' Hr']. simpl List.length in Ha'.
      wp_run; cbv beta; first [assumption | split; [lia | assumption]].
    + intros a' r' [Ha' Hr']. simpl in Ha'. wp_run. simpl. rewrite Hr'.
      repeat split; lia.
Qed.

(** The logging check: two points off for each issue it logs. *)
Lemma logging_security_spec fs :
  forall r0,
    wp (check_logging_security fs)
      (fun s r =>
         s = 10 - 2 * (Z.of_nat (List.length (issues r))
                       - Z.of_nat (List.length (issues r0)))
         /\ s <= 10
         /\ scores r = Dict.set "logging_security" s (scores r0))
      (fun _ r => scores r = scores r0) r0.
Proof.
  intros r0. unfold check_logging_security.
  set (I := fun (a : Z) (r : results) =>
              a = 10 - 2 * (Z.of_nat (List.length (issues r))
                            - Z.of_nat (List.length (issues r0)))
              /\ a <= 10 /\ scores r = scores r0).
  wp_run.
  apply (wp_loop (fun _ => I)).
  - unfold I. repeat split; lia.
  - intros file_path xs a r HI. wp_run; auto.
    + apply (wp_loop (fun _ => I)); auto.
      intros [pattern description] ys a' r' (Ha' & Hle & Hr'). wp_run.
      * unfold I. rewrite issues_with_issue, length_app. cbn [List.length].
        split; [lia | split; [lia | exact Hr']].
      * unfold I. auto.
    + destruct (existsb _ _); auto. destruct HI as (_ & _ & ?); assumption.
  - intros a r (Ha & Hle & Hr). wp_run. simpl. rewrite Hr.
    repeat split; auto.
Qed.


(** *** Methods that do not read the results *)

Lemma apply_events_app l1 l2 r :
  apply_events (l1 ++ l2) r = apply_events l2 (apply_events l1 r).
Proof. unfold apply_events. apply fold_left_app. Qed.

Lemma uniform_ret {A} (a : A) : uniform (ret a).
Proof. exists (Ok a), []. reflexivity. Qed.

Lemma uniform_lift {A} (x : result A) : uniform (lift x).
Proof. exists x, []. intros r. unfold lift. destruct x; reflexivity. Qed.

Lemma uniform_log_issue c s m rec : uniform (log_issue c s m rec).
Proof. exists (Ok tt), [Logged (mk_issue c s m rec)]. reflexivity. Qed.

Lemma uniform_log_recommendation c m : uniform (log_recommendation c m).
Proof. exists (Ok tt), [Advised (mk_advice c m)]. reflexivity. Qed.

Lemma uniform_set_score key s : uniform (set_score key s).
Proof. exists (Ok tt), [Scored key s]. reflexivity. Qed.

Lemma uniform_bind {A B} (m : M A) (f : A -> M B) :
  uniform m -> (forall a, uniform (f a)) -> uniform (bind m f).
Proof.
  intros (v & l & Hm) Hf. destruct v as [a | e].
  - destruct (Hf a) as (v' & l' & Hfa). exists v', (l ++ l').
    intros r. unfold bind. rewrite Hm, Hfa, apply_events_app. reflexivity.
  - exists (Raise e), l. intros r. unfold bind. now rewrite Hm.
Qed.

Lemma uniform_try_except {A} classes (fallback : A) (body : M A) :
  uniform body -> uniform (try_except classes fallback body).
Proof.
  intros (v & l & Hm). destruct v as [a | e].
  - exists (Ok a), l. intros r. unfold try_except. now rewrite Hm.
  - exists (if existsb (String.eqb (exn_class e)) classes
            then Ok fallback else Raise e), l.
    intros r. unfold try_except. rewrite Hm.
    destruct (existsb _ classes); reflexivity.
Qed.

Lemma uniform_for_each {X A} (body : A -> X -> M A) :
  (forall a x, uniform (body a x)) ->
  forall xs a, uniform (for_each xs a body).
Proof.
  intros Hbody. induction xs as [|x xs IH]; intros a; cbn [for_each].
  - apply uniform_ret.
  - apply uniform_bind; [apply Hbody | intros a'; apply IH].
Qed.

Ltac uniform_step :=
  lazymatch goal with
  | |- uniform (bind _ _) => apply uniform_bind; [|intros ?]
  | |- uniform (ret _) => apply uniform_ret
  | |- uniform (lift _) => apply uniform_lift
  | |- uniform (log_issue _ _ _ _) => apply uniform_log_issue
  | |- uniform (log_recommendation _ _) => apply uniform_log_recommendation
  | |- uniform (set_score _ _) => apply uniform_set_score
  | |- uniform (try_except _ _ _) => apply uniform_try_except
  | |- uniform (for_each _ _ _) =>
      apply uniform_for_each; intros ? ?; cbv beta
  | |- uniform (if ?b then _ else _) => destruct b
  | |- uniform (let '(_, _) := ?p in _) => destruct p
  end.

Ltac uniform_run := cbv zeta; repeat uniform_step.

Lemma checks_uniform fs json_loads :
  Forall (fun c : string * M Z => uniform (snd c)) (checks fs json_loads).
Proof.
  unfold checks. repeat constructor; cbn [snd].
  - unfold check_file_permissions. uniform_run.
  - unfold check_environment_variables, _check_file_for_patterns.
    uniform_run.
  - unfold check_authentication_config. uniform_run.
  - unfold check_rate_limiting. uniform_run.
  - unfold check_input_validation. uniform_run.
  - unfold check_logging_security. uniform_run.
  - unfold check_dependency_security. uniform_run.
  - unfold check_ci_security. uniform_run.
Qed.

(** The runner on uniform checks: what it adds to its total and what it
    writes do not depend on the total and the results it starts from. *)
Lemma run_checks_uniform cs :
  Forall (fun c : string * M Z => uniform (snd c)) cs ->
  exists dt l, forall total r,
    run_checks cs total r = (total + dt, apply_events l r).
Proof.
  induction 1 as [|[check_name check_func] cs (v & l & Hc) _ IH].
  - exists 0, []. intros total r. cbn. now rewrite Z.add_0_r.
  - cbn [snd] in Hc. destruct IH as (dt & l' & IH).
    destruct v as [score | e].
    + exists (score + dt), (l ++ l'). intros total r.
      cbn [run_checks]. rewrite Hc, IH, apply_events_app.
      now rewrite Z.add_assoc.
    + exists dt,
        (l ++ Logged (mk_issue "SystemError" "critical"
                        ("Check failed: " ++ check_name ++ " - "
                           ++ exn_text e)%string "") :: l').
      intros total r. cbn [run_checks]. rewrite Hc. cbn [log_issue].
      rewrite IH, apply_events_app. reflexivity.
Qed.

Lemma scores_apply_events l : forall r,
  scores (apply_events l r) = set_all (scored l) (scores r).
Proof.
  induction l as [|e l IH]; intros r; [reflexivity|].
  cbn [apply_events fold_left]. fold (apply_events l (apply_event r e)).
  rewrite IH. destruct e; reflexivity.
Qed.

Lemma issues_apply_events l : forall r,
  issues (apply_events l r) = issues r ++ logged l.
Proof.
  induction l as [|e l IH]; intros r; [now rewrite app_nil_r|].
  cbn [apply_events fold_left]. fold (apply_events l (apply_event r e)).
  rewrite IH. destruct e; cbn [apply_event logged flat_map].
  - rewrite issues_with_issue, <- app_assoc. reflexivity.
  - reflexivity.
  - reflexivity.
Qed.

Lemma recommendations_apply_events l : forall r,
  recommendations (apply_events l r) = recommendations r ++ advised l.
Proof.
  induction l as [|e l IH]; intros r; [now rewrite app_nil_r|].
  cbn [apply_events fold_left]. fold (apply_events l (apply_event r e)).
  rewrite IH. destruct e; cbn [apply_event advised flat_map].
  - reflexivity.
  - destruct a. cbn. rewrite <- app_assoc. reflexivity.
  - reflexivity.
Qed.

(** The fields that [generate_report] writes are not written by events. *)
Lemma report_fields_apply_events l : forall r,
  overall_status (apply_events l r) = overall_status r /\
  overall_score (apply_events l r) = overall_score r /\
  max_score (apply_events l r) = max_score r /\
  percentage (apply_events l r) = percentage r.
Proof.
  induction l as [|e l IH]; intros r; [repeat split|].
  cbn [apply_events fold_left]. fold (apply_events l (apply_event r e)).
  destruct (IH (apply_event r e)) as (H1 & H2 & H3 & H4).
  rewrite H1, H2, H3, H4. destruct e; repeat split.
Qed.

(** **** Setting the same scores again *)

Lemma keys_set_all_mono S : forall d k,
  In k (Dict.keys d) -> In k (Dict.keys (set_all S d)).
Proof.
  induction S as [|[k' v] S IH]; intros d k Hk; [exact Hk|].
  cbn [set_all fold_left fst snd]. apply IH.
  rewrite dict_keys_set. destruct (Dict.mem k' d); [exact Hk|].
  apply in_or_app. now left.
Qed.

Lemma keys_set_all_covers S : forall d k,
  In k (map fst S) -> In k (Dict.keys (set_all S d)).
Proof.
  induction S as [|[k' v] S IH]; intros d k Hk; [destruct Hk|].
  cbn [set_all fold_left fst snd]. cbn [map fst] in Hk.
  destruct (in_dec string_dec k (map fst S)) as [Hin | Hnin].
  - now apply IH.
  - destruct Hk as [<- | Hk]; [|contradiction].
    apply keys_set_all_mono. rewrite dict_keys_set.
    destruct (Dict.mem k' d) eqn:E.
    + now apply dict_mem_true.
    + apply in_or_app. right. now left.
Qed.

Lemma keys_set_all_present S : forall d,
  (forall k, In k (map fst S) -> In k (Dict.keys d)) ->
  Dict.keys (set_all S d) = Dict.keys d.
Proof.
  induction S as [|[k' v] S IH]; intros d Hk; [reflexivity|].
  cbn [set_all fold_left fst snd].
  assert (Hsame : Dict.keys (Dict.set k' v d) = Dict.keys d).
  { rewrite dict_keys_set.
    assert (Hm : Dict.mem k' d = true)
      by (apply dict_mem_true, Hk; now left).
    now rewrite Hm. }
  fold (set_all S (Dict.set k' v d)).
  rewrite IH; [exact Hsame|].
  intros k Hin. rewrite Hsame. apply Hk. now right.
Qed.

Lemma dict_get_set k k' (v : Z) d :
  Dict.get k (Dict.set k' v d) =
  if String.eqb k k' then Some v else Dict.get k d.
Proof.
  destruct (String.eqb k k') eqn:E.
  - apply String.eqb_eq in E. subst. apply dict_get_set_same.
  - apply dict_get_set_other. intros ->. now rewrite String.eqb_refl in E.
Qed.

Lemma get_set_all S : forall d k,
  Dict.get k (set_all S d) =
  match last_value k S with Some w => Some w | None => Dict.get k d end.
Proof.
  induction S as [|[k' v] S IH]; intros d k; [reflexivity|].
  cbn [set_all fold_left fst snd last_value].
  fold (set_all S (Dict.set k' v d)). rewrite IH, dict_get_set.
  destruct (last_value k S); [reflexivity|].
  destruct (String.eqb k k'); reflexivity.
Qed.

Lemma set_all_NoDup S : forall d,
  NoDup (Dict.keys d) -> NoDup (Dict.keys (set_all S d)).
Proof.
  induction S as [|[k' v] S IH]; intros d Hd; [exact Hd|].
  cbn [set_all fold_left fst snd]. apply IH. now apply dict_set_NoDup.
Qed.

(** Two dictionaries with the same keys in the same order, none twice,
    and the same values are equal. *)
Lemma dict_ext : forall (d d' : list (string * Z)),
  NoDup (Dict.keys d) ->
  Dict.keys d = Dict.keys d' ->
  (forall k, Dict.get k d = Dict.get k d') ->
  d = d'.
Proof.
  induction d as [|[k v] d IH]; intros [|[k' v'] d'] Hnd Hk Hg;
    try discriminate; [reflexivity|].
  cbn in Hk. injection Hk as <- Hk'.
  inversion Hnd as [|? ? Hnin Hnd']; subst.
  pose proof (Hg k) as Hv. cbn in Hv. rewrite String.eqb_refl in Hv.
  injection Hv as <-. f_equal. apply IH; auto.
  intros k2. destruct (String.eqb k2 k) eqn:E.
  - apply String.eqb_eq in E. subst k2.
    assert (H1 : Dict.get k d = None) by now apply dict_get_None.
    assert (H2 : Dict.get k d' = None)
      by (apply dict_get_None; unfold Dict.keys in *; now rewrite <- Hk').
    now rewrite H1, H2.
  - specialize (Hg k2). cbn in Hg. now rewrite E in Hg.
Qed.

(** Setting the scores of a run again changes nothing. *)
Lemma set_all_again S d :
  NoDup (Dict.keys d) ->
  set_all S (set_all S d) = set_all S d.
Proof.
  intros Hd. apply dict_ext.
  - now apply set_all_NoDup, set_all_NoDup.
  - apply keys_set_all_present. intros k Hk. now apply keys_set_all_covers.
  - intros k. rewrite !get_set_all. destruct (last_value k S); reflexivity.
Qed.

(** *** The permission digit

    [oct(mode)[-3:][2]] is the last octal digit of the mode, whatever the
    mode: the file-permissions check never raises. *)

Lemma string_app_assoc (a b c : string) :
  ((a ++ b) ++ c = a ++ (b ++ c))%string.
Proof. induction a as [|x a IH]; simpl; congruence. Qed.

Lemma oct_digits_app fuel : forall n acc,
  oct_digits fuel n acc = (oct_digits fuel n "" ++ acc)%string.
Proof.
  induction fuel as [|fuel IH]; intros n acc; simpl; auto.
  destruct (N.eqb (N.div n 8) 0); auto.
  rewrite (IH _ (String _ acc)), (IH _ (String _ "")).
  now rewrite string_app_assoc.
Qed.

Lemma oct_last_digit n :
  exists front,
    oct n = ("0o" ++ front ++ String (octal_digit (N.modulo n 8)) "")%string.
Proof.
  unfold oct. cbn [oct_digits].
  destruct (N.eqb (N.div n 8) 0).
  - now exists "".
  - rewrite oct_digits_app. eauto.
Qed.

Lemma length_append s1 s2 :
  String.length (s1 ++ s2)%string = (String.length s1 + String.length s2)%nat.
Proof. induction s1; simpl; auto. Qed.

Lemma last3_get_2 s c :
  (2 <= String.length s)%nat ->
  String.get 2 (last3 (s ++ String c "")%string) = Some c.
Proof.
  unfold last3. rewrite length_append. cbn [String.length].
  replace (String.length s + 1 - 3)%nat with (String.length s - 2)%nat by lia.
  induction s as [|a s IH]; cbn [String.length]; intros H; [lia|].
  destruct s as [|b s]; [simpl in H; lia|].
  destruct s as [|c' s].
  - reflexivity.
  - cbn [String.length] in *.
    replace (S (S (S (String.length s))) - 2)%nat
      with (S (S (S (String.length s)) - 2))%nat by lia.
    cbn [String.append String.substring].
    apply IH. lia.
Qed.

Lemma int_of_octal_digit d :
  (d < 8)%N ->
  (let n := nat_of_ascii (octal_digit d) in
   if Nat.leb 48 n && Nat.leb n 57 then Ok (Z.of_nat (n - 48))
   else Raise (mk_exn "ValueError"
          ("invalid literal for int() with base 10: '"
             ++ String (octal_digit d) "'")%string))
  = Ok (Z.of_N d).
Proof.
  intros H.
  assert (d = 0 \/ d = 1 \/ d = 2 \/ d = 3 \/ d = 4 \/ d = 5 \/ d = 6 \/ d = 7)%N
    as Hd by lia.
  repeat (destruct Hd as [-> | Hd]; [reflexivity|]). subst. reflexivity.
Qed.

Lemma permission_digit mode :
  int_at 2 (last3 (oct mode)) = Ok (Z.of_N (N.modulo mode 8)).
Proof.
  destruct (oct_last_digit mode) as [front ->].
  unfold int_at.
  replace ("0o" ++ front ++ String (octal_digit (mode mod 8)) "")%string
    with (("0o" ++ front) ++ String (octal_digit (mode mod 8)) "")%string
    by reflexivity.
  rewrite last3_get_2 by (simpl; lia).
  apply int_of_octal_digit. apply N.mod_lt. discriminate.
Qed.

(** The check of the file permissions always returns. *)
Lemma file_permissions_returns fs r :
  exists s r', check_file_permissions fs r = (Ok s, r').
Proof.
  assert (H : wp (check_file_permissions fs)
                (fun _ _ => True) (fun _ _ => False) r).
  { unfold check_file_permissions. wp_run.
    apply (wp_loop (fun _ _ _ => True)); auto.
    intros x xs a r1 _. destruct (path_exists fs (join project_root x)).
    - apply wp_bind. rewrite permission_digit. apply wp_lift.
      wp_run; auto.
    - now apply wp_ret. }
  unfold wp in H. destruct (check_file_permissions fs r) as [[s | e] r'].
  - eauto.
  - contradiction.
Qed.

(** ** The checks and the runner on concrete and arbitrary projects *)

(** *** Scores *)

(** C2, corrected.  A check that returns stores the score it returns.
    That score lies between 0 and 10 for the file permissions, the
    environment variables, authentication, rate limiting, input
    validation, dependencies and CI.  The score of the logging check is at
    most 10, and it is 10 minus 2 for each issue the check logs: it is not
    kept from falling below 0.  A check that raises stores no score. *)
Theorem check_scores_bounded :
  forall fs json_loads,
    check_spec "file_permissions" (fun s => 0 <= s <= 10)
      (check_file_permissions fs) /\
    check_spec "environment_variables" (fun s => 0 <= s <= 10)
      (check_environment_variables fs) /\
    check_spec "authentication" (fun s => 0 <= s <= 10)
      (check_authentication_config fs) /\
    check_spec "rate_limiting" (fun s => 0 <= s <= 10)
      (check_rate_limiting fs) /\
    check_spec "input_validation" (fun s => 0 <= s <= 10)
      (check_input_validation fs) /\
    check_spec "dependency_security" (fun s => 0 <= s <= 10)
      (check_dependency_security fs json_loads) /\
    check_spec "ci_security" (fun s => 0 <= s <= 10)
      (check_ci_security fs) /\
    check_spec "logging_security" (fun s => s <= 10)
      (check_logging_security fs) /\
    (forall r0,
        wp (check_logging_security fs)
          (fun s r =>
             s = 10 - 2 * (Z.of_nat (List.length (issues r))
                           - Z.of_nat (List.length (issues r0))))
          (fun _ _ => True) r0).
Proof.
  intros fs json_loads.
  assert (Hweak : forall key (P : Z -> Prop) check,
             (forall s, P s -> 0 <= s <= 10) ->
             check_spec key P check ->
             check_spec key (fun s => 0 <= s <= 10) check).
  { intros key P check HP H r. eapply wp_mono; [| |apply (H r)]; cbv beta.
    - intros a r' [Ha Hr]. split; [now apply HP | assumption].
    - auto. }
  repeat split.
  - eapply Hweak; [|apply file_permissions_spec]. cbv beta. lia.
  - eapply Hweak; [|apply environment_variables_spec]. cbv beta. lia.
  - eapply Hweak; [|apply authentication_spec]. cbv beta. lia.
  - eapply Hweak; [|apply rate_limiting_spec]. cbv beta. lia.
  - eapply Hweak; [|apply input_validation_spec]. cbv beta. lia.
  - apply dependency_security_spec.
  - apply ci_security_spec.
  - intros r. eapply wp_mono; [| |apply (logging_security_spec fs r)]; cbv beta.
    + intros a r' (_ & Ha & Hr). now split.
    + auto.
  - intros r. eapply wp_mono; [| |apply (logging_security_spec fs r)]; cbv beta.
    + intros a r' (Ha & _). exact Ha.
    + auto.
Qed.

(** The stored score can be read back. *)
Lemma check_spec_stored key P check r s r' :
  check_spec key P check -> check r = (Ok s, r') ->
  P s /\ Dict.get key (scores r') = Some s.
Proof.
  intros H E. specialize (H r). unfold wp in H. rewrite E in H.
  destruct H as [HP Hs]. split; auto.
  rewrite Hs. apply dict_get_set_same.
Qed.

(** Two source files with five logging matches each: the logging check
    returns and stores -10. *)
Lemma logging_score_below_zero :
  exists s r,
    check_logging_security CheckerExamples.noisy_logs init = (Ok s, r) /\
    Dict.get "logging_security" (scores r) = Some s /\
    s < 0.
Proof.
  eexists. eexists. split; [vm_compute; reflexivity|].
  split; [reflexivity | reflexivity].
Qed.

(** *** The secret scan *)

(** The helper does what the claim says of a readable file: one critical
    issue and three points off the score it was given for each rule
    found, and nothing when the safe marker is in the text. *)
Lemma check_file_for_patterns_readable fs file_path content patterns :
  read_text fs file_path = Ok content ->
  forall score r,
    _check_file_for_patterns fs file_path patterns score r =
    (Ok (score - 3 * Z.of_nat (List.length (secret_issues file_path content patterns))),
     with_issues (secret_issues file_path content patterns) r).
Proof.
  intros Hread score r.
  unfold _check_file_for_patterns, try_except, bind, lift. rewrite Hread.
  unfold secret_issues.
  destruct (Text.contains "process.env" content) eqn:Hm.
  - assert (H : forall ps s r0,
               for_each ps s (fun score '(pattern, description) =>
                 if Re.search pattern content Re.IGNORECASE && negb true
                 then log_issue "HardcodedSecrets" "critical"
                        (description ++ " found in " ++ file_path)%string
                        "Move secrets to environment variables" ;;;
                      ret (score - 3)
                 else ret score) r0 = (Ok s, r0)).
    { induction ps as [|[p d] ps IH]; intros s r0; simpl; auto.
      unfold bind at 1. rewrite andb_false_r. simpl. apply IH. }
    rewrite H. simpl. now rewrite Z.sub_0_r.
  - assert (H : forall ps s r0,
               for_each ps s (fun score '(pattern, description) =>
                 if Re.search pattern content Re.IGNORECASE && negb false
                 then log_issue "HardcodedSecrets" "critical"
                        (description ++ " found in " ++ file_path)%string
                        "Move secrets to environment variables" ;;;
                      ret (score - 3)
                 else ret score) r0 =
               (Ok (s - 3 * Z.of_nat (List.length
                      (filter (fun '(pattern, _) =>
                                 Re.search pattern content Re.IGNORECASE) ps))),
                with_issues
                  (map (fun '(_, description) =>
                          mk_issue "HardcodedSecrets" "critical"
                            (description ++ " found in " ++ file_path)%string
                            "Move secrets to environment variables")
                     (filter (fun '(pattern, _) =>
                                Re.search pattern content Re.IGNORECASE) ps))
                  r0)).
    { induction ps as [|[p d] ps IH]; intros s r0.
      - simpl. now rewrite Z.sub_0_r.
      - cbn [for_each filter]. unfold bind at 1.
        destruct (Re.search p content Re.IGNORECASE) eqn:Hs;
          cbn [andb negb].
        + unfold bind at 1. cbn [log_issue ret]. rewrite IH.
          cbn [map List.length with_issues fold_left].
          f_equal. f_equal. lia.
        + cbn [ret]. apply IH. }
    rewrite H. rewrite length_map. reflexivity.
Qed.

(** An undecodable or unreadable file is skipped by the secret scan. *)
Lemma check_file_for_patterns_skips fs file_path patterns score r e :
  read_text fs file_path = Raise e ->
  exn_class e = "UnicodeDecodeError" \/ exn_class e = "PermissionError" ->
  _check_file_for_patterns fs file_path patterns score r = (Ok score, r).
Proof.
  intros Hread Hclass.
  unfold _check_file_for_patterns, try_except, bind, lift. rewrite Hread.
  destruct Hclass as [-> | ->]; reflexivity.
Qed.

(** C1, on scenario A.  The file matches the token rule and has no safe
    marker; the example files exist.  The check logs the one critical
    issue, and it returns and stores 10: the three points are taken from
    the parameter of the helper and never reach the score of the check. *)
Theorem scenario_a_score_not_deducted :
  let one_issue :=
    mk_issue "HardcodedSecrets" "critical"
      "Hardcoded token found in src/config.rs"
      "Move secrets to environment variables" in
  _check_file_for_patterns CheckerExamples.scenario_a "src/config.rs"
    hardcoded_patterns 10 init = (Ok 7, with_issue one_issue init) /\
  exists r,
    check_environment_variables CheckerExamples.scenario_a init = (Ok 10, r) /\
    scores r = [("environment_variables", 10)] /\
    issues r = [one_issue].
Proof.
  split; [vm_compute; reflexivity|].
  eexists. split; [vm_compute; reflexivity|]. split; reflexivity.
Qed.

(** Scenario B: with [process.env] in the file no issue is logged, and the
    score is 10. *)
Example scenario_b_suppressed :
  exists r,
    check_environment_variables CheckerExamples.scenario_b init = (Ok 10, r) /\
    scores r = [("environment_variables", 10)] /\
    issues r = [].
Proof.
  eexists. split; [vm_compute; reflexivity|]. split; reflexivity.
Qed.

(** Whatever the source files hold, the score of the check is 10 minus one
    point for each example file that is not there. *)
Lemma environment_score_ignores_matches fs r0 :
  wp (check_environment_variables fs)
    (fun s _ =>
       s = 10
           - (if path_exists fs (join project_root "config.example.toml")
              then 0 else 1)
           - (if path_exists fs (join mcp_root ".env.example")
              then 0 else 1))
    (fun _ _ => True) r0.
Proof.
  unfold check_environment_variables. wp_run.
  apply (wp_loop (fun _ _ _ => True)); auto.
  - intros x xs a r _. wp_run; auto.
    apply (wp_loop (fun _ _ _ => True)); auto.
    + intros y ys b r1 _. wp_run.
      eapply wp_mono; [| |apply check_file_for_patterns_frame]; cbv beta; auto.
      intros; wp_run; auto.
    + intros b r1 _.
      apply (wp_loop (fun _ _ _ => True)); auto.
      intros y ys c r2 _. wp_run.
      eapply wp_mono; [| |apply check_file_for_patterns_frame]; cbv beta; auto.
      intros; wp_run; auto.
  - intros a r _. wp_run. unfold env_examples. cbn [for_each].
    wp_run; cbv beta; lia.
Qed.

(** *** Read failures *)

Lemma any_file_has_raises fs file_path rest marker e :
  path_exists fs file_path = true -> read_text fs file_path = Raise e ->
  any_file_has fs (file_path :: rest) marker = Raise e.
Proof. intros H1 H2. simpl. now rewrite H1, H2. Qed.

(** The presence checks read their first candidate file without a
    handler: when it exists and cannot be read, the check raises. *)
Lemma authentication_read_failure fs e r :
  path_exists fs "src/telegram/handlers.rs" = true ->
  read_text fs "src/telegram/handlers.rs" = Raise e ->
  check_authentication_config fs r = (Raise e, r).
Proof.
  intros H1 H2. unfold check_authentication_config, bind, lift.
  unfold _check_bridge_auth_config.
  now rewrite (any_file_has_raises fs _ _ _ e H1 H2).
Qed.

Lemma rate_limiting_read_failure fs e r :
  path_exists fs "src/utils/security.rs" = true ->
  read_text fs "src/utils/security.rs" = Raise e ->
  check_rate_limiting fs r = (Raise e, r).
Proof.
  intros H1 H2. unfold check_rate_limiting, bind, lift.
  unfold _check_bridge_rate_limiting.
  now rewrite (any_file_has_raises fs _ _ _ e H1 H2).
Qed.

(** The logging check has the handler: a source file that cannot be
    decoded changes neither its score nor the issues. *)
Example logging_skips_binary :
  check_logging_security CheckerExamples.binary_handler init =
  (Ok 10, with_score "logging_security" 10 init).
Proof. vm_compute. reflexivity. Qed.

(** C6, on a project whose [src/telegram/handlers.rs] exists and is not
    valid UTF-8.  The authentication check does not complete: it raises
    the decoding error.  In the run the runner turns it into a critical
    issue and the check has no score, while the secret scan and the logging
    check, which read the same file under a handler, complete with 10. *)
Theorem presence_check_read_failure_escapes :
  let fs := CheckerExamples.binary_handler in
  let report := run fs CheckerExamples.no_json "2024-01-01T00:00:00" in
  check_authentication_config fs init = (Raise CheckerExamples.undecodable, init) /\
  In (mk_issue "SystemError" "critical"
        ("Check failed: Authentication - "
           ++ exn_text CheckerExamples.undecodable)%string "")
     (issues report) /\
  Dict.get "authentication" (scores report) = None /\
  Dict.get "environment_variables" (scores report) = Some 10 /\
  Dict.get "logging_security" (scores report) = Some 10.
Proof.
  cbv zeta. split; [vm_compute; reflexivity|].
  split; [vm_compute; tauto|].
  repeat split; vm_compute; reflexivity.
Qed.

(** *** The runner *)

(** A check that raises: the runner logs the critical [SystemError] issue,
    leaves its total alone and goes on with the checks that follow. *)
Lemma run_checks_raise check_name (check_func : M Z) cs total r e r' :
  check_func r = (Raise e, r') ->
  run_checks ((check_name, check_func) :: cs) total r =
  run_checks cs total
    (with_issue
       (mk_issue "SystemError" "critical"
          ("Check failed: " ++ check_name ++ " - " ++ exn_text e)%string "")
       r').
Proof. intros H. simpl. now rewrite H. Qed.

Lemma run_checks_return check_name (check_func : M Z) cs total r s r' :
  check_func r = (Ok s, r') ->
  run_checks ((check_name, check_func) :: cs) total r =
  run_checks cs (total + s) r'.
Proof. intros H. simpl. now rewrite H. Qed.

(** A check of the list that raises adds no key to the scores. *)
Lemma raising_check_stores_nothing key P (check : M Z) r e r' :
  check_spec key P check -> check r = (Raise e, r') -> scores r' = scores r.
Proof.
  intros H E. specialize (H r). unfold wp in H. now rewrite E in H.
Qed.

(** C5, on the project whose handler file cannot be decoded.  The
    authentication check raises; the runner logs the critical
    [SystemError] issue and goes on (rate limiting and input validation
    raise as well, the three checks after them return), but the scores of
    the report have no entry for the failed checks: no 0 is recorded. *)
Theorem failed_check_records_no_score :
  let report :=
    run CheckerExamples.binary_handler CheckerExamples.no_json
      "2024-01-01T00:00:00" in
  map component (issues report) =
    [ "SystemError"; "SystemError"; "SystemError";
      "BridgeDeps"; "MCPDeps"; "CI/CD" ] /\
  map severity (firstn 3 (issues report)) = ["critical"; "critical"; "critical"] /\
  scores report =
    [ ("file_permissions", 10); ("environment_variables", 10);
      ("logging_security", 10); ("dependency_security", 0);
      ("ci_security", 0) ] /\
  Dict.get "authentication" (scores report) = None.
Proof. cbv zeta. repeat split; vm_compute; reflexivity. Qed.

(** *** The report of a run *)

(** The totals of the report are computed from the recorded scores. *)
Lemma report_totals now r :
  scores r <> [] ->
  overall_score (generate_report now r) = Some (sum (Dict.values (scores r))) /\
  max_score (generate_report now r)
    = Some (10 * Z.of_nat (List.length (scores r))).
Proof.
  intros H. unfold generate_report.
  destruct (scores r) as [|kv l]; [congruence|].
  cbn [overall_score max_score]. now rewrite Z.mul_comm.
Qed.

(** C3, on the project whose handler file cannot be decoded.  Eight checks
    are registered and the runner prints its total out of 80; the report
    counts the five checks that recorded a score and has a maximum of 50
    (and 60 percent instead of the 37.5 that are printed). *)
Theorem report_max_counts_recorded_scores :
  let fs := CheckerExamples.binary_handler in
  let out :=
    run_all_checks_printing fs CheckerExamples.no_json
      "2024-01-01T00:00:00" init in
  List.length (checks fs CheckerExamples.no_json) = 8%nat /\
  printed_total (fst out) = 30 /\
  printed_max (fst out) = 80 /\
  overall_score (snd out) = Some 30 /\
  max_score (snd out) = Some 50 /\
  printed_percentage (fst out) = 37.5%float /\
  percentage (snd out) = Some 60%float.
Proof. cbv zeta. repeat split; vm_compute; reflexivity. Qed.

(** *** Two runs on the same project *)

Lemma generate_report_scores now r : scores (generate_report now r) = scores r.
Proof. unfold generate_report. now destruct (scores r). Qed.

Lemma generate_report_issues now r : issues (generate_report now r) = issues r.
Proof. unfold generate_report. now destruct (scores r). Qed.

Lemma scores_of_a_run fs json_loads :
  exists dt l,
    (forall total r,
        run_checks (checks fs json_loads) total r
        = (total + dt, apply_events l r)) /\
    (forall r, NoDup (Dict.keys (scores r)) ->
               scores (apply_events l (apply_events l r))
               = scores (apply_events l r)).
Proof.
  destruct (run_checks_uniform _ (checks_uniform fs json_loads))
    as (dt & l & Hrun).
  exists dt, l. split; [exact Hrun|].
  intros r Hnd. rewrite !scores_apply_events. now apply set_all_again.
Qed.

(** Generating the report of results that hold the scores and the report
    fields of an earlier report gives the fields of that report again. *)
Lemma generate_report_of_a_report now1 now2 r1 r2 :
  let first := generate_report now1 r1 in
  scores r2 = scores first ->
  overall_status r2 = overall_status first ->
  overall_score r2 = overall_score first ->
  max_score r2 = max_score first ->
  percentage r2 = percentage first ->
  let again := generate_report now2 r2 in
  scores again = scores first /\
  overall_status again = overall_status first /\
  overall_score again = overall_score first /\
  max_score again = max_score first /\
  percentage again = percentage first /\
  timestamp again = now2.
Proof.
  cbv zeta. unfold generate_report.
  destruct (scores r1) as [|kv d] eqn:E; cbn; intros Hs H1 H2 H3 H4;
    rewrite Hs; cbn; repeat split; assumption.
Qed.

(** C7, corrected.  A second run on the same project gives the scores, the
    status, the total, the maximum and the percentage of the first, be it
    with a new checker or with the checker of the first run.  With a new
    checker it also gives the same issues and recommendations in the same
    order, so that the two reports are equal in every field but the
    timestamp, which is the time of each run: the reports of two runs at
    different times differ. *)
Theorem reruns_agree_but_for_timestamp :
  forall fs json_loads now1 now2,
    let first := run fs json_loads now1 in
    let fresh := run fs json_loads now2 in
    let again := run_all_checks fs json_loads now2 first in
    (scores fresh = scores first /\
     issues fresh = issues first /\
     recommendations fresh = recommendations first /\
     overall_status fresh = overall_status first /\
     overall_score fresh = overall_score first /\
     max_score fresh = max_score first /\
     percentage fresh = percentage first) /\
    (timestamp first = now1 /\ timestamp fresh = now2 /\
     (now1 <> now2 -> fresh <> first)) /\
    (scores again = scores first /\
     overall_status again = overall_status first /\
     overall_score again = overall_score first /\
     max_score again = max_score first /\
     percentage again = percentage first /\
     timestamp again = now2).
Proof.
  intros fs json_loads now1 now2 first fresh again.
  assert (Hstamp : forall now, timestamp (run fs json_loads now) = now).
  { intros now. unfold run, run_all_checks, run_all_checks_printing.
    destruct (run_checks (checks fs json_loads) 0 init) as [total r].
    cbn [snd]. unfold generate_report. destruct (scores r); reflexivity. }
  split; [|split].
  - subst first fresh. unfold run, run_all_checks, run_all_checks_printing.
    destruct (run_checks (checks fs json_loads) 0 init) as [total r].
    cbn [snd]. unfold generate_report.
    destruct (scores r); cbn; repeat split.
  - split; [apply Hstamp|]. split; [apply Hstamp|].
    intros Hne Heq. apply Hne.
    rewrite <- (Hstamp now1), <- (Hstamp now2). fold first fresh.
    now rewrite Heq.
  - destruct (scores_of_a_run fs json_loads) as (dt & l & Hrun & Hagain).
    subst again first.
    unfold run, run_all_checks, run_all_checks_printing.
    rewrite (Hrun 0 init). cbn [snd]. rewrite Hrun. cbn [snd].
    set (r1 := apply_events l init).
    destruct (report_fields_apply_events l (generate_report now1 r1))
      as (H1 & H2 & H3 & H4).
    apply generate_report_of_a_report; auto.
    rewrite scores_apply_events, !generate_report_scores.
    rewrite <- scores_apply_events. subst r1. apply Hagain. constructor.
Qed.

(** The issues of a second run on the checker of the first are the issues
    of the first run twice, on the project of scenario A. *)
Example rerun_on_the_same_checker_repeats_issues :
  let fs := CheckerExamples.scenario_a in
  let first := run fs CheckerExamples.no_json "2024-01-01T00:00:00" in
  let again :=
    run_all_checks fs CheckerExamples.no_json "2024-01-01T00:00:01" first in
  issues again = issues first ++ issues first /\ issues first <> [].
Proof. cbv zeta. split; [vm_compute; reflexivity | vm_compute; discriminate]. Qed.

(** Two runs a second apart on the project of scenario A do not give the
    same report. *)
Lemma reruns_not_identical :
  run CheckerExamples.scenario_a CheckerExamples.no_json "2024-01-01T00:00:00"
  <> run CheckerExamples.scenario_a CheckerExamples.no_json "2024-01-01T00:00:01".
Proof.
  intros H. apply (f_equal timestamp) in H. vm_compute in H. discriminate.
Qed.

(** *** The percentage and the band of a report *)



(** *** Issues are only appended *)

Lemma grows_refl r : grows r r.
Proof. exists []. now rewrite app_nil_r. Qed.

Lemma grows_trans r1 r2 r3 : grows r1 r2 -> grows r2 r3 -> grows r1 r3.
Proof.
  intros [l1 H1] [l2 H2]. exists (l1 ++ l2).
  now rewrite H2, H1, app_assoc.
Qed.

Lemma grows_issue r r' i : grows r r' -> grows r (with_issue i r').
Proof.
  intros [l H]. exists (l ++ [i]).
  now rewrite issues_with_issue, H, app_assoc.
Qed.

Lemma grows_advice r r' a : grows r r' -> grows r (with_advice a r').
Proof. intros [l H]. exists l. now rewrite issues_with_advice. Qed.

Lemma grows_score r r' key s : grows r r' -> grows r (with_score key s r').
Proof. intros [l H]. exists l. now rewrite issues_with_score. Qed.

Lemma grows_In r r' i : grows r r' -> In i (issues r) -> In i (issues r').
Proof. intros [l ->] H. apply in_or_app. now left. Qed.

Ltac grows_tac :=
  cbv beta;
  repeat first [ apply grows_issue | apply grows_advice | apply grows_score ];
  first [ assumption | apply grows_refl ].

Lemma authentication_appends fs : appends_only (check_authentication_config fs).
Proof. intros r. unfold check_authentication_config. wp_run; grows_tac. Qed.

Lemma rate_limiting_appends fs : appends_only (check_rate_limiting fs).
Proof. intros r. unfold check_rate_limiting. wp_run; grows_tac. Qed.

Lemma input_validation_appends fs : appends_only (check_input_validation fs).
Proof. intros r. unfold check_input_validation. wp_run; grows_tac. Qed.

Lemma dependency_security_appends fs json_loads :
  appends_only (check_dependency_security fs json_loads).
Proof. intros r. unfold check_dependency_security. wp_run; grows_tac. Qed.

Lemma ci_security_appends fs : appends_only (check_ci_security fs).
Proof.
  intros r0. unfold check_ci_security. wp_run.
  - apply (wp_loop (fun _ _ r => grows r0 r)).
    + apply grows_refl.
    + intros x xs a r Hr. wp_run; grows_tac.
    + intros a r Hr. apply (wp_loop (fun _ _ r => grows r0 r)).
      * assumption.
      * intros x xs a' r' Hr'. wp_run; grows_tac.
      * intros a' r' Hr'. wp_run. grows_tac.
  - grows_tac.
Qed.

Lemma file_permissions_appends fs : appends_only (check_file_permissions fs).
Proof.
  intros r0. unfold check_file_permissions. wp_run.
  apply (wp_loop (fun _ _ r => grows r0 r)).
  - apply grows_refl.
  - intros x xs a r Hr. wp_run; grows_tac.
  - intros a r Hr. wp_run. grows_tac.
Qed.

Lemma check_file_for_patterns_appends fs file_path patterns score :
  appends_only (_check_file_for_patterns fs file_path patterns score).
Proof.
  intros r0. unfold _check_file_for_patterns. wp_run.
  - apply (wp_loop (fun _ _ r => grows r0 r)).
    + apply grows_refl.
    + intros [pattern description] xs acc st Hst. wp_run; grows_tac.
    + intros acc st Hst. exact Hst.
  - destruct (existsb _ _); apply grows_refl.
Qed.

Lemma scan_loop_appends fs r0 files : forall r,
  grows r0 r ->
  wp (for_each files tt (fun _ file_path =>
        _check_file_for_patterns fs file_path hardcoded_patterns 10 ;;;
        ret tt))
    (fun _ r' => grows r0 r') (fun _ r' => grows r0 r') r.
Proof.
  intros r Hr. apply (wp_loop (fun _ _ r => grows r0 r)).
  - assumption.
  - intros x xs a r1 Hr1. wp_run.
    eapply wp_mono; [| |apply check_file_for_patterns_appends]; cbv beta.
    + intros a' r' Hr'. wp_run. eapply grows_trans; eauto.
    + intros e r' Hr'. eapply grows_trans; eauto.
  - intros a r1 Hr1. exact Hr1.
Qed.

Lemma environment_variables_appends fs :
  appends_only (check_environment_variables fs).
Proof.
  intros r0. unfold check_environment_variables. wp_run.
  apply (wp_loop (fun _ _ r => grows r0 r)).
  - apply grows_refl.
  - intros x xs a r Hr. wp_run; [|assumption].
    eapply wp_mono; [| |apply (scan_loop_appends fs r0 _ r Hr)]; cbv beta.
    + intros a' r' Hr'. now apply scan_loop_appends.
    + auto.
  - intros a r Hr. wp_run.
    apply (wp_loop (fun _ _ r => grows r0 r)).
    + assumption.
    + intros [env_file comp] xs a' r' Hr'. wp_run; grows_tac.
    + intros a' r' Hr'. wp_run. grows_tac.
Qed.

Lemma logging_security_appends fs : appends_only (check_logging_security fs).
Proof.
  intros r0. unfold check_logging_security. wp_run.
  apply (wp_loop (fun _ _ r => grows r0 r)).
  - apply grows_refl.
  - intros file_path xs a r Hr. wp_run.
    + apply (wp_loop (fun _ _ r => grows r0 r)).
      * assumption.
      * intros [pattern description] ys a' r' Hr'. wp_run; grows_tac.
      * intros a' r' Hr'. exact Hr'.
    + destruct (existsb _ _); assumption.
    + assumption.
  - intros a r Hr. wp_run. grows_tac.
Qed.

(** *** The runner on an arbitrary project *)

Lemma check_spec_weaken key (P : Z -> Prop) check :
  check_spec key P check -> check_spec key (fun _ => True) check.
Proof.
  intros H r. eapply wp_mono; [| |apply (H r)]; cbv beta; auto.
  intros a r' [_ Hr]. auto.
Qed.

Lemma run_checks_behaves keys cs :
  Forall (behaves keys) cs ->
  forall total r,
    (forall k, In k (Dict.keys (scores (snd (run_checks cs total r)))) ->
               In k (Dict.keys (scores r)) \/ In k keys)
    /\ grows r (snd (run_checks cs total r)).
Proof.
  induction 1 as [|[check_name check_func] cs [(key & Hkey & Hspec) Happ] _ IH];
    intros total r.
  - simpl. split; auto using grows_refl.
  - cbn [run_checks]. cbn [snd] in Hspec, Happ.
    specialize (Hspec r). specialize (Happ r). unfold wp in Hspec, Happ.
    destruct (check_func r) as [[s | e] r'].
    + destruct Hspec as [_ Hs]. destruct (IH (total + s) r') as [IHk IHg].
      split.
      * intros k Hk. apply IHk in Hk. destruct Hk as [Hk | Hk]; auto.
        rewrite Hs in Hk. apply dict_keys_set_In in Hk.
        destruct Hk as [Hk | ->]; auto.
      * eapply grows_trans; eauto.
    + cbn [log_issue].
      match goal with
      | |- context [run_checks cs total ?st] =>
          destruct (IH total st) as [IHk IHg]
      end.
      split.
      * intros k Hk. apply IHk in Hk. destruct Hk as [Hk | Hk]; auto.
        left. cbn [scores] in Hk. now rewrite <- Hspec.
      * eapply grows_trans; [exact Happ|].
        eapply grows_trans; [|exact IHg].
        eexists. cbn [issues]. reflexivity.
Qed.

Lemma run_checks_app cs1 : forall cs2 total r,
  run_checks (cs1 ++ cs2) total r =
  let '(total1, r1) := run_checks cs1 total r in run_checks cs2 total1 r1.
Proof.
  induction cs1 as [|[check_name check_func] cs1 IH]; intros cs2 total r.
  - reflexivity.
  - cbn [app run_checks].
    destruct (check_func r) as [[s | e] r']; cbn [log_issue]; apply IH.
Qed.

(** On every project whose [src/telegram/handlers.rs] exists and cannot be
    read, the report of the run has the critical [SystemError] issue of the
    authentication check and no authentication score. *)
Lemma failed_authentication_in_any_run fs json_loads now e :
  path_exists fs "src/telegram/handlers.rs" = true ->
  read_text fs "src/telegram/handlers.rs" = Raise e ->
  let report := run fs json_loads now in
  Dict.get "authentication" (scores report) = None /\
  In (mk_issue "SystemError" "critical"
        ("Check failed: Authentication - " ++ exn_text e)%string "")
     (issues report).
Proof.
  intros Hex Hread report. subst report.
  unfold run, run_all_checks, run_all_checks_printing.
  destruct (run_checks (checks fs json_loads) 0 init) as [total r] eqn:E.
  cbn [snd]. rewrite generate_report_scores, generate_report_issues.
  assert (Hr : r = snd (run_checks (checks fs json_loads) 0 init))
    by now rewrite E.
  clear E. unfold checks in Hr.
  (* the two checks before *)
  assert (H1 : Forall (behaves ["file_permissions"; "environment_variables"])
                 [ ("File Permissions", check_file_permissions fs);
                   ("Environment Variables", check_environment_variables fs) ]).
  { repeat constructor; cbn [snd].
    - exists "file_permissions". split; [simpl; auto|].
      eapply check_spec_weaken, file_permissions_spec.
    - apply file_permissions_appends.
    - exists "environment_variables". split; [simpl; auto|].
      eapply check_spec_weaken, environment_variables_spec.
    - apply environment_variables_appends. }
  (* the five checks after *)
  assert (H2 : Forall (behaves [ "rate_limiting"; "input_validation";
                                 "logging_security"; "dependency_security";
                                 "ci_security" ])
                 [ ("Rate Limiting", check_rate_limiting fs);
                   ("Input Validation", check_input_validation fs);
                   ("Logging Security", check_logging_security fs);
                   ("Dependency Security", check_dependency_security fs json_loads);
                   ("CI/CD Security", check_ci_security fs) ]).
  { repeat constructor; cbn [snd].
    - exists "rate_limiting". split; [simpl; auto|].
      eapply check_spec_weaken, rate_limiting_spec.
    - apply rate_limiting_appends.
    - exists "input_validation". split; [simpl; auto|].
      eapply check_spec_weaken, input_validation_spec.
    - apply input_validation_appends.
    - exists "logging_security". split; [simpl; tauto|].
      intros r1. eapply wp_mono; [| |apply (logging_security_spec fs r1)];
        cbv beta; auto. intros a r' (_ & _ & Hs). auto.
    - apply logging_security_appends.
    - exists "dependency_security". split; [simpl; tauto|].
      eapply check_spec_weaken, dependency_security_spec.
    - apply dependency_security_appends.
    - exists "ci_security". split; [simpl; tauto|].
      eapply check_spec_weaken, ci_security_spec.
    - apply ci_security_appends. }
  change (r = snd (run_checks
                    ([ ("File Permissions", check_file_permissions fs);
                       ("Environment Variables", check_environment_variables fs) ]
                     ++ ("Authentication", check_authentication_config fs)
                     :: [ ("Rate Limiting", check_rate_limiting fs);
                          ("Input Validation", check_input_validation fs);
                          ("Logging Security", check_logging_security fs);
                          ("Dependency Security",
                            check_dependency_security fs json_loads);
                          ("CI/CD Security", check_ci_security fs) ]) 0 init))
    in Hr.
  rewrite run_checks_app in Hr.
  match type of Hr with
  | context [run_checks ?cs 0 init] =>
      destruct (run_checks_behaves _ _ H1 0 init) as [Hk1 Hg1];
      destruct (run_checks cs 0 init) as [t1 r1]
  end.
  cbn [snd] in Hk1, Hg1.
  rewrite (run_checks_raise _ _ _ _ _ e r1
             (authentication_read_failure fs e r1 Hex Hread)) in Hr.
  match type of Hr with
  | r = snd (run_checks ?cs ?t ?st) =>
      destruct (run_checks_behaves _ _ H2 t st) as [Hk2 Hg2]
  end.
  rewrite <- Hr in Hk2, Hg2. split.
  - apply dict_get_None. intros Hin. apply Hk2 in Hin.
    destruct Hin as [Hin | Hin].
    + rewrite scores_with_issue in Hin. apply Hk1 in Hin.
      simpl in Hin. intuition discriminate.
    + simpl in Hin. intuition discriminate.
  - eapply grows_In; [exact Hg2|]. rewrite issues_with_issue.
    apply in_or_app. right. now left.
Qed.

Lemma run_checks_NoDup keys cs :
  Forall (behaves keys) cs ->
  forall total r,
    NoDup (Dict.keys (scores r)) ->
    NoDup (Dict.keys (scores (snd (run_checks cs total r)))).
Proof.
  induction 1 as [|[check_name check_func] cs [(key & Hkey & Hspec) _] _ IH];
    intros total r Hnd.
  - exact Hnd.
  - cbn [run_checks]. cbn [snd] in Hspec.
    specialize (Hspec r). unfold wp in Hspec.
    destruct (check_func r) as [[s | e] r'].
    + destruct Hspec as [_ Hs]. apply IH. rewrite Hs.
      now apply dict_set_NoDup.
    + cbn [log_issue]. apply IH. cbn [scores]. now rewrite Hspec.
Qed.

Lemma checks_behave fs json_loads :
  Forall (behaves score_keys) (checks fs json_loads).
Proof.
  unfold checks, score_keys. repeat constructor; cbn [snd].
  - exists "file_permissions". split; [simpl; tauto|].
    eapply check_spec_weaken, file_permissions_spec.
  - apply file_permissions_appends.
  - exists "environment_variables". split; [simpl; tauto|].
    eapply check_spec_weaken, environment_variables_spec.
  - apply environment_variables_appends.
  - exists "authentication". split; [simpl; tauto|].
    eapply check_spec_weaken, authentication_spec.
  - apply authentication_appends.
  - exists "rate_limiting". split; [simpl; tauto|].
    eapply check_spec_weaken, rate_limiting_spec.
  - apply rate_limiting_appends.
  - exists "input_validation". split; [simpl; tauto|].
    eapply check_spec_weaken, input_validation_spec.
  - apply input_validation_appends.
  - exists "logging_security". split; [simpl; tauto|].
    intros r1. eapply wp_mono; [| |apply (logging_security_spec fs r1)];
      cbv beta; auto. intros a r' (_ & _ & Hs). auto.
  - apply logging_security_appends.
  - exists "dependency_security". split; [simpl; tauto|].
    eapply check_spec_weaken, dependency_security_spec.
  - apply dependency_security_appends.
  - exists "ci_security". split; [simpl; tauto|].
    eapply check_spec_weaken, ci_security_spec.
  - apply ci_security_appends.
Qed.

(** The scores of a report are a dictionary on the eight keys, so the
    maximum of the report is at most 80; the runner prints 80 always. *)
Lemma report_has_at_most_eight_scores fs json_loads now :
  let out := run_all_checks_printing fs json_loads now init in
  printed_max (fst out) = 80 /\
  NoDup (Dict.keys (scores (snd out))) /\
  incl (Dict.keys (scores (snd out))) score_keys /\
  (List.length (scores (snd out)) <= 8)%nat.
Proof.
  cbv zeta. unfold run_all_checks_printing.
  pose proof (run_checks_behaves _ _ (checks_behave fs json_loads) 0 init)
    as [Hk _].
  pose proof (run_checks_NoDup _ _ (checks_behave fs json_loads) 0 init)
    as Hnd.
  destruct (run_checks (checks fs json_loads) 0 init) as [total r].
  cbn [fst snd printed_max] in *. rewrite generate_report_scores.
  assert (Hincl : incl (Dict.keys (scores r)) score_keys).
  { intros k Hin. apply Hk in Hin. destruct Hin as [[] | Hin]. exact Hin. }
  specialize (Hnd (NoDup_nil _)).
  repeat split; auto.
  rewrite <- (length_map fst (scores r)).
  apply (NoDup_incl_length Hnd Hincl).
Qed.

(** With a handler file that cannot be read the report has seven scores
    at most, hence a maximum of 70 at most, against the 80 of the runner. *)
Lemma failed_authentication_shrinks_maximum fs json_loads now e :
  path_exists fs "src/telegram/handlers.rs" = true ->
  read_text fs "src/telegram/handlers.rs" = Raise e ->
  let out := run_all_checks_printing fs json_loads now init in
  printed_max (fst out) = 80 /\
  (List.length (scores (snd out)) <= 7)%nat.
Proof.
  intros Hex Hread out.
  destruct (report_has_at_most_eight_scores fs json_loads now)
    as (Hmax & Hnd & Hincl & _).
  destruct (failed_authentication_in_any_run fs json_loads now e Hex Hread)
    as [Hnone _].
  fold out in Hmax, Hnd, Hincl.
  change (run fs json_loads now) with (snd out) in Hnone.
  split; [exact Hmax|].
  rewrite <- (length_map fst (scores (snd out))).
  apply dict_get_None in Hnone.
  assert (Hincl' : incl (Dict.keys (scores (snd out)))
                     (remove string_dec "authentication" score_keys)).
  { intros k Hk. apply in_in_remove.
    - intros ->. contradiction.
    - now apply Hincl. }
  apply (NoDup_incl_length Hnd) in Hincl'. exact Hincl'.
Qed.

(** ** Further properties of security-config-check.py *)

(** *** File permissions *)

(** [int(oct(mode)[-3:][2])] is the last octal digit of the mode, for every
    mode, also a mode of fewer than three octal digits. *)
Theorem others_digit_is_mode_mod_8 :
  forall mode, int_at 2 (last3 (oct mode)) = Ok (Z.of_N (N.modulo mode 8)).
Proof. exact permission_digit. Qed.

Lemma with_issues_app l1 l2 r :
  with_issues (l1 ++ l2) r = with_issues l2 (with_issues l1 r).
Proof. unfold with_issues. apply fold_left_app. Qed.

Lemma issues_with_issues l : forall r,
  issues (with_issues l r) = issues r ++ l.
Proof.
  induction l as [|i l IH]; intros r; cbn [with_issues fold_left].
  - now rewrite app_nil_r.
  - fold (with_issues l (with_issue i r)).
    rewrite IH, issues_with_issue, <- app_assoc. reflexivity.
Qed.

Lemma scores_with_issues l : forall r, scores (with_issues l r) = scores r.
Proof.
  induction l as [|i l IH]; intros r; cbn [with_issues fold_left]; auto.
  fold (with_issues l (with_issue i r)). now rewrite IH.
Qed.

Lemma file_permissions_loop fs files : forall score r,
  for_each files score (fun score file_path =>
    let full_path := join project_root file_path in
    if path_exists fs full_path then
      let permissions := last3 (oct (st_mode fs full_path)) in
      others <- lift (int_at 2 permissions) ;;
      if 0 <? others then
        log_issue "FilePermissions" "warning"
          (file_path ++ " is readable by others (permissions: "
             ++ permissions ++ ")")%string
          ("Run: chmod 600 " ++ show_path fs full_path)%string ;;;
        ret (score - 2)
      else ret score
    else ret score) r
  = (Ok (score - 2 * Z.of_nat (List.length
                                 (filter (readable_by_others fs) files))),
     with_issues (map (permission_issue fs)
                    (filter (readable_by_others fs) files)) r).
Proof.
  induction files as [|p files IH]; intros score r.
  - cbn. now rewrite Z.sub_0_r.
  - cbn [for_each]. unfold bind at 1. cbv zeta.
    change (join project_root p) with p.
    destruct (path_exists fs p) eqn:Hex.
    + unfold bind at 1, lift at 1. rewrite permission_digit.
      destruct (0 <? Z.of_N (st_mode fs p mod 8)) eqn:Hd.
      * assert (Hr : readable_by_others fs p = true)
          by (unfold readable_by_others; now rewrite Hex, Hd).
        unfold bind at 1. cbn [log_issue ret]. rewrite IH.
        cbn [filter]. rewrite Hr.
        cbn [map List.length with_issues fold_left].
        apply f_equal2; [apply f_equal; lia | reflexivity].
      * assert (Hr : readable_by_others fs p = false)
          by (unfold readable_by_others; now rewrite Hex, Hd).
        cbn [ret filter]. rewrite Hr. apply IH.
    + assert (Hr : readable_by_others fs p = false)
        by (unfold readable_by_others; now rewrite Hex).
      cbn [ret filter]. rewrite Hr. apply IH.
Qed.

Lemma file_permissions_exact fs r :
  check_file_permissions fs r =
  (Ok (10 - 2 * Z.of_nat (List.length
                            (filter (readable_by_others fs) sensitive_files))),
   with_score "file_permissions"
     (10 - 2 * Z.of_nat (List.length
                           (filter (readable_by_others fs) sensitive_files)))
     (with_issues (map (permission_issue fs)
                     (filter (readable_by_others fs) sensitive_files)) r)).
Proof.
  unfold check_file_permissions.
  unfold bind at 1. rewrite file_permissions_loop. reflexivity.
Qed.

(** Whenever the check of the file permissions returns, its score is 10
    minus 2 for each of the four sensitive files that exists with a mode
    whose last octal digit is not 0; it has logged one warning for each
    such file, in the order of the list, and stored the score, and has
    written nothing else. *)
Theorem file_permissions_result :
  forall fs r score r',
    check_file_permissions fs r = (Ok score, r') ->
    let found := filter (readable_by_others fs) sensitive_files in
    score = 10 - 2 * Z.of_nat (List.length found) /\
    r' = with_score "file_permissions" score
           (with_issues (map (permission_issue fs) found) r).
Proof.
  intros fs r score r' H found. subst found.
  rewrite file_permissions_exact in H. injection H as <- <-. now split.
Qed.

Lemma file_permissions_result_witness :
  let fs := CheckerExamples.project []
              [CheckerExamples.mk_file ".env" 33188 (Ok "TOKEN=1")] in
  let found := filter (readable_by_others fs) sensitive_files in
  8 = 10 - 2 * Z.of_nat (List.length found) /\
  snd (check_file_permissions fs init)
  = with_score "file_permissions" 8
      (with_issues (map (permission_issue fs) found) init).
Proof.
  intros fs.
  apply (file_permissions_result fs init 8
           (snd (check_file_permissions fs init))).
  vm_compute. reflexivity.
Defined.

(** *** The scan for hardcoded secrets *)

(** A file whose text has [process.env] anywhere is never reported: the
    helper logs nothing and hands the score back, whatever the rules and
    whatever else the text holds. *)
Theorem safe_marker_suppresses_every_rule :
  forall fs file_path content patterns score r,
    read_text fs file_path = Ok content ->
    Text.contains "process.env" content = true ->
    _check_file_for_patterns fs file_path patterns score r = (Ok score, r).
Proof.
  intros fs file_path content patterns score r Hread Hsafe.
  rewrite (check_file_for_patterns_readable _ _ _ _ Hread).
  unfold secret_issues. rewrite Hsafe. cbn. now rewrite Z.sub_0_r.
Qed.

Lemma safe_marker_suppresses_every_rule_witness :
  let fs := CheckerExamples.scenario_b in
  _check_file_for_patterns fs "src/config.rs" hardcoded_patterns 10 init
  = (Ok 10, init).
Proof.
  intros fs.
  eapply safe_marker_suppresses_every_rule; vm_compute; reflexivity.
Defined.

(** Of the errors of the read, the helper swallows [UnicodeDecodeError] and
    [PermissionError] only: then it returns the score and logs nothing.
    Any other error of the read leaves the helper. *)
Theorem only_two_read_errors_are_skipped :
  forall fs file_path patterns score r e,
    read_text fs file_path = Raise e ->
    _check_file_for_patterns fs file_path patterns score r =
    (if String.eqb (exn_class e) "UnicodeDecodeError"
        || String.eqb (exn_class e) "PermissionError"
     then Ok score else Raise e, r).
Proof.
  intros fs file_path patterns score r e Hread.
  unfold _check_file_for_patterns, try_except, bind, lift. rewrite Hread.
  cbn [existsb]. rewrite orb_false_r.
  destruct (_ || _); reflexivity.
Qed.

Lemma only_two_read_errors_are_skipped_witness :
  let fs := CheckerExamples.binary_handler in
  _check_file_for_patterns fs "src/telegram/handlers.rs" hardcoded_patterns 10
    init
  = (Ok 10, init).
Proof.
  intros fs.
  apply (only_two_read_errors_are_skipped fs "src/telegram/handlers.rs"
           hardcoded_patterns 10 init
           CheckerExamples.undecodable).
  vm_compute. reflexivity.
Defined.

Lemma lang_lit ic : forall w w',
  Forall2 (fun p c => Re.chr_matches ic p c = true)
    (list_ascii_of_string w) w' ->
  Re.lang ic (Re.lit w) w'.
Proof.
  induction w as [|p w IH]; intros w' H; cbn [list_ascii_of_string] in H;
    inversion H as [|? c ? l' Hc Hl]; subst.
  - constructor.
  - destruct w as [|p' w].
    + cbn [list_ascii_of_string] in Hl. inversion Hl. now constructor.
    + change (Re.lang ic (Re.Seq (Re.Chr p) (Re.lit (String p' w)))
                ([c] ++ l')).
      constructor; [now constructor | now apply IH].
Qed.

Lemma lang_star_spaces ic : forall ws,
  Forall (fun c => Re.is_space c = true) ws ->
  Re.lang ic (Re.Star Re.Space) ws.
Proof.
  induction 1 as [|c ws Hc _ IH]; [constructor|].
  change (c :: ws) with ([c] ++ ws).
  apply Re.lang_star_more; [now constructor | assumption].
Qed.

Lemma lang_star_none_of ic cs : forall s,
  Forall (fun c => Re.ascii_in c cs = false) s ->
  Re.lang ic (Re.Star (Re.NoneOf cs)) s.
Proof.
  induction 1 as [|c s Hc _ IH]; [constructor|].
  change (c :: s) with ([c] ++ s).
  apply Re.lang_star_more; [now constructor | assumption].
Qed.

Lemma lang_at_least_none_of ic cs : forall n s,
  (n <= List.length s)%nat ->
  Forall (fun c => Re.ascii_in c cs = false) s ->
  Re.lang ic (Re.AtLeast n (Re.NoneOf cs)) s.
Proof.
  induction n as [|n IH]; intros s Hn Hs.
  - constructor. now apply lang_star_none_of.
  - destruct s as [|c s]; [cbn in Hn; lia|].
    inversion Hs; subst.
    change (c :: s) with ([c] ++ s).
    apply Re.lang_at_least_S; [now constructor|].
    apply IH; [cbn in Hn; lia | assumption].
Qed.

Lemma same_letters_matches : forall (w kw : list ascii),
  map Text.lower_char kw = map Text.lower_char w ->
  Forall2 (fun p c => Re.chr_matches true p c = true) w kw.
Proof.
  induction w as [|p w IH]; intros [|c kw] H; cbn in H; try discriminate;
    constructor.
  - unfold Re.chr_matches. injection H as Hc _. rewrite Hc.
    apply Ascii.eqb_refl.
  - apply IH. now injection H.
Qed.

Lemma ascii_in_quotes q : In q quotes -> Re.ascii_in q quotes = true.
Proof.
  intros [<- | [<- | []]]; reflexivity.
Qed.

(** The shape the secret rules look for, in a text: the word in any letter
    case, blanks, [=], blanks, a quote, the quoted characters, a quote. *)
Lemma assigned_literal_found word n content
  before kw blanks1 blanks2 q1 quoted q2 after :
  list_ascii_of_string content =
    before ++ (kw ++ blanks1 ++ ["="%char] ++ blanks2 ++ [q1] ++ quoted ++ [q2])
      ++ after ->
  map Text.lower_char kw = map Text.lower_char (list_ascii_of_string word) ->
  Forall (fun c => Re.is_space c = true) blanks1 ->
  Forall (fun c => Re.is_space c = true) blanks2 ->
  In q1 quotes -> In q2 quotes ->
  (n <= List.length quoted)%nat ->
  Forall (fun c => Re.ascii_in c quotes = false) quoted ->
  Re.search (assigned_literal word n) content Re.IGNORECASE = true.
Proof.
  intros Hc Hkw Hb1 Hb2 Hq1 Hq2 Hn Hq.
  apply search_spec. eexists before, _, after. split; [exact Hc|].
  unfold assigned_literal. cbn [Re.seq fold_right].
  constructor; [apply lang_lit, same_letters_matches, Hkw|].
  constructor; [now apply lang_star_spaces|].
  constructor; [constructor; apply Ascii.eqb_refl|].
  constructor; [now apply lang_star_spaces|].
  constructor; [constructor; now apply ascii_in_quotes|].
  constructor; [now apply lang_at_least_none_of|].
  rewrite <- (app_nil_r [q2]).
  constructor; [constructor; now apply ascii_in_quotes | constructor].
Qed.

(** A readable file without [process.env] that assigns a quoted text of the
    length of a rule to the word of the rule (the word in any letter case,
    any blanks around the [=], single or double quotes, not needing the same
    quote at both ends) is reported: the helper logs the critical issue of
    the rule and returns at least three points less than it was given. *)
Theorem hardcoded_assignment_is_reported :
  forall fs file_path content word n description score r
         before kw blanks1 blanks2 q1 quoted q2 after,
    read_text fs file_path = Ok content ->
    Text.contains "process.env" content = false ->
    In (assigned_literal word n, description) hardcoded_patterns ->
    list_ascii_of_string content =
      before ++ (kw ++ blanks1 ++ ["="%char] ++ blanks2 ++ [q1] ++ quoted
                    ++ [q2]) ++ after ->
    map Text.lower_char kw = map Text.lower_char (list_ascii_of_string word) ->
    Forall (fun c => Re.is_space c = true) blanks1 ->
    Forall (fun c => Re.is_space c = true) blanks2 ->
    In q1 quotes -> In q2 quotes ->
    (n <= List.length quoted)%nat ->
    Forall (fun c => Re.ascii_in c quotes = false) quoted ->
    exists score' r',
      _check_file_for_patterns fs file_path hardcoded_patterns score r
      = (Ok score', r')
      /\ score' <= score - 3
      /\ In (mk_issue "HardcodedSecrets" "critical"
               (description ++ " found in " ++ file_path)%string
               "Move secrets to environment variables") (issues r').
Proof.
  intros fs file_path content word n description score r
    before kw blanks1 blanks2 q1 quoted q2 after
    Hread Hsafe Hrule Hc Hkw Hb1 Hb2 Hq1 Hq2 Hn Hq.
  rewrite (check_file_for_patterns_readable _ _ _ _ Hread).
  eexists _, _. split; [reflexivity|].
  assert (Hin : In (mk_issue "HardcodedSecrets" "critical"
                      (description ++ " found in " ++ file_path)%string
                      "Move secrets to environment variables")
                  (secret_issues file_path content hardcoded_patterns)).
  { unfold secret_issues. rewrite Hsafe.
    apply (in_map (fun '(_, description) =>
                     mk_issue "HardcodedSecrets" "critical"
                       (description ++ " found in " ++ file_path)%string
                       "Move secrets to environment variables")
             _ (assigned_literal word n, description)).
    apply filter_In. split; [exact Hrule|].
    eapply assigned_literal_found; eassumption. }
  split.
  - destruct (secret_issues file_path content hardcoded_patterns);
      [destruct Hin | cbn [List.length]; lia].
  - rewrite issues_with_issues. apply in_or_app. now right.
Qed.

Lemma hardcoded_assignment_is_reported_witness :
  exists score' r',
    _check_file_for_patterns CheckerExamples.scenario_a "src/config.rs"
      hardcoded_patterns 10 init = (Ok score', r')
    /\ score' <= 10 - 3
    /\ In (mk_issue "HardcodedSecrets" "critical"
             "Hardcoded token found in src/config.rs"
             "Move secrets to environment variables") (issues r').
Proof.
  apply (hardcoded_assignment_is_reported CheckerExamples.scenario_a
           "src/config.rs" CheckerExamples.secret_line "token" 20
           "Hardcoded token" 10 init
           (list_ascii_of_string "let ") (list_ascii_of_string "token")
           [" "%char] [" "%char] Text.dquote
           (list_ascii_of_string "abcdefghijklmnopqrstuvwxyz") Text.dquote
           [";"%char]).
  - vm_compute. reflexivity.
  - vm_compute. reflexivity.
  - simpl. tauto.
  - vm_compute. reflexivity.
  - vm_compute. reflexivity.
  - repeat constructor.
  - repeat constructor.
  - simpl. tauto.
  - simpl. tauto.
  - simpl. lia.
  - repeat constructor.
Defined.

(** *** The presence checks *)

Lemma any_file_has_true fs marker : forall files,
  any_file_has fs files marker = Ok true ->
  exists f t, In f files /\ path_exists fs f = true
              /\ read_text fs f = Ok t /\ marker t = true.
Proof.
  induction files as [|f files IH]; cbn [any_file_has]; [discriminate|].
  destruct (path_exists fs f) eqn:Hex.
  - destruct (read_text fs f) as [t | e] eqn:Hread; [|discriminate].
    destruct (marker t) eqn:Hm.
    + intros _. exists f, t. cbn. auto.
    + intros H. destruct (IH H) as (f' & t' & Hin & H').
      exists f', t'. cbn. auto.
  - intros H. destruct (IH H) as (f' & t' & Hin & H').
    exists f', t'. cbn. auto.
Qed.

Lemma any_file_has_readable fs marker : forall files,
  (forall f, In f files -> path_exists fs f = true ->
             exists t, read_text fs f = Ok t) ->
  exists b, any_file_has fs files marker = Ok b /\
    (b = true <->
     exists f t, In f files /\ path_exists fs f = true
                 /\ read_text fs f = Ok t /\ marker t = true).
Proof.
  induction files as [|f files IH]; intros Hr; cbn [any_file_has].
  - exists false. split; [reflexivity|]. split; [discriminate|].
    intros (f & t & [] & _).
  - destruct IH as (b & Hb & Hiff); [intros f' Hin; apply Hr; now right|].
    assert (Hmore : forall f' t', In f' files -> path_exists fs f' = true ->
                      read_text fs f' = Ok t' -> marker t' = true -> b = true)
      by (intros f' t' ? ? ? ?; apply Hiff; exists f', t'; auto).
    destruct (path_exists fs f) eqn:Hex.
    + destruct (Hr f (or_introl eq_refl) Hex) as (t & Hread). rewrite Hread.
      destruct (marker t) eqn:Hm.
      * exists true. split; [reflexivity|]. split; [|reflexivity].
        intros _. exists f, t. cbn. auto.
      * exists b. split; [exact Hb|]. split.
        -- intros H. apply Hiff in H. destruct H as (f' & t' & Hin & H').
           exists f', t'. cbn. auto.
        -- intros (f' & t' & [<- | Hin] & Hex' & Hread' & Hm').
           ++ congruence.
           ++ eauto.
    + exists b. split; [exact Hb|]. split.
      * intros H. apply Hiff in H. destruct H as (f' & t' & Hin & H').
        exists f', t'. cbn. auto.
      * intros (f' & t' & [<- | Hin] & Hex' & Hread' & Hm').
        -- congruence.
        -- eauto.
Qed.

(** When the candidate files that exist can be read, the bridge helper of
    the authentication check returns, and it answers [True] exactly when
    one of the two candidates exists and has [TELEGRAM_ALLOWED_USERS] or
    [user_id] in its text; a candidate that does not exist is skipped. *)
Theorem bridge_auth_found_iff :
  forall fs,
    let candidates := ["src/telegram/handlers.rs"; "src/utils/security.rs"] in
    (forall f, In f candidates -> path_exists fs f = true ->
               exists t, read_text fs f = Ok t) ->
    exists b, _check_bridge_auth_config fs = Ok b /\
      (b = true <->
       exists f t, In f candidates /\ path_exists fs f = true
                   /\ read_text fs f = Ok t
                   /\ (Text.contains "TELEGRAM_ALLOWED_USERS" t = true
                       \/ Text.contains "user_id" t = true)).
Proof.
  intros fs candidates Hr.
  destruct (any_file_has_readable fs
              (fun content =>
                 Text.contains "TELEGRAM_ALLOWED_USERS" content
                 || Text.contains "user_id" content) candidates Hr)
    as (b & Hb & Hiff).
  exists b. split; [exact Hb|].
  rewrite Hiff. split; intros (f & t & Hin & Hex & Hread & Hm);
    exists f, t; repeat split; auto.
  - now apply orb_true_iff.
  - now apply orb_true_iff.
Qed.

Lemma bridge_auth_found_iff_witness :
  let fs := CheckerExamples.project ["src"]
              [CheckerExamples.private "src/utils/security.rs"
                 "fn allowed(user_id: i64) -> bool"] in
  let candidates := ["src/telegram/handlers.rs"; "src/utils/security.rs"] in
  exists b, _check_bridge_auth_config fs = Ok b /\
    (b = true <->
     exists f t, In f candidates /\ path_exists fs f = true
                 /\ read_text fs f = Ok t
                 /\ (Text.contains "TELEGRAM_ALLOWED_USERS" t = true
                     \/ Text.contains "user_id" t = true)).
Proof.
  intros fs candidates.
  apply (bridge_auth_found_iff fs).
  intros f [<- | [<- | []]] Hex.
  - vm_compute in Hex. discriminate.
  - eexists. vm_compute. reflexivity.
Defined.

Lemma presence_exact key (bridge mcp : result bool) bi mi r score r' :
  (ok <- lift bridge ;;
   score <- (if ok then ret (0 + 5)
             else log_issue (component bi) (severity bi) (message bi)
                    (recommendation bi) ;;;
                  ret 0) ;;
   ok <- lift mcp ;;
   score <- (if ok then ret (score + 5)
             else log_issue (component mi) (severity mi) (message mi)
                    (recommendation mi) ;;;
                  ret score) ;;
   set_score key score ;;;
   ret score) r = (Ok score, r') ->
  exists b m,
    bridge = Ok b /\ mcp = Ok m /\
    (score, r') = presence_outcome key b m bi mi r.
Proof.
  unfold bind, lift. intros H.
  destruct bridge as [b | e]; [|discriminate].
  destruct mcp as [m | e].
  - exists b, m. split; [reflexivity|]. split; [reflexivity|].
    destruct bi, mi. destruct b, m; cbn in H; injection H as <- <-;
      reflexivity.
  - destruct b; discriminate.
Qed.

(** Each of the three presence checks, when it returns: its two helpers
    have answered, the score is 5 for each helper that answered [True],
    the check has appended the issue of each component whose helper
    answered [False], the bridge first, and nothing else, and it has stored
    the score. *)
Theorem presence_checks_report_what_is_missing :
  forall fs r score r',
    (check_authentication_config fs r = (Ok score, r') ->
     exists b m,
       _check_bridge_auth_config fs = Ok b /\
       _check_mcp_auth_config fs = Ok m /\
       (score, r') =
       presence_outcome "authentication" b m
         (mk_issue "BridgeAuth" "warning"
            "Bridge authentication may not be properly configured"
            "Ensure TELEGRAM_ALLOWED_USERS is set")
         (mk_issue "MCPAuth" "warning"
            "MCP Server authentication may not be properly configured"
            "Ensure MCP_API_KEYS is configured") r) /\
    (check_rate_limiting fs r = (Ok score, r') ->
     exists b m,
       _check_bridge_rate_limiting fs = Ok b /\
       _check_mcp_rate_limiting fs = Ok m /\
       (score, r') =
       presence_outcome "rate_limiting" b m
         (mk_issue "BridgeRateLimit" "medium"
            "Bridge rate limiting not found"
            "Implement rate limiting for user requests")
         (mk_issue "MCPRateLimit" "medium"
            "MCP Server rate limiting not found"
            "Implement rate limiting for API requests") r) /\
    (check_input_validation fs r = (Ok score, r') ->
     exists b m,
       _check_bridge_input_validation fs = Ok b /\
       _check_mcp_input_validation fs = Ok m /\
       (score, r') =
       presence_outcome "input_validation" b m
         (mk_issue "BridgeValidation" "high"
            "Bridge input validation not comprehensive"
            "Implement comprehensive input sanitization")
         (mk_issue "MCPValidation" "high"
            "MCP Server input validation not found"
            "Implement input validation with Joi or similar") r).
Proof.
  intros fs r score r'. split; [|split]; intros H.
  - now apply presence_exact.
  - now apply presence_exact.
  - now apply presence_exact.
Qed.

Lemma presence_checks_report_what_is_missing_witness :
  let fs := CheckerExamples.project ["src"]
              [CheckerExamples.private "src/utils/security.rs"
                 "fn throttle(user_id: i64) -> bool"] in
  exists b m,
    _check_bridge_rate_limiting fs = Ok b /\
    _check_mcp_rate_limiting fs = Ok m /\
    (5, snd (check_rate_limiting fs init)) =
    presence_outcome "rate_limiting" b m
      (mk_issue "BridgeRateLimit" "medium"
         "Bridge rate limiting not found"
         "Implement rate limiting for user requests")
      (mk_issue "MCPRateLimit" "medium"
         "MCP Server rate limiting not found"
         "Implement rate limiting for API requests") init.
Proof.
  intros fs.
  apply (proj1 (proj2 (presence_checks_report_what_is_missing fs init 5
                         (snd (check_rate_limiting fs init))))).
  vm_compute. reflexivity.
Defined.

(** *** The runner and the report *)

Lemma sum_snoc l v : sum (l ++ [v]) = sum l + v.
Proof. unfold sum. now rewrite fold_left_app. Qed.

Lemma dict_values_set_fresh k (v : Z) d :
  ~ In k (Dict.keys d) -> Dict.values (Dict.set k v d) = Dict.values d ++ [v].
Proof.
  induction d as [|[k' v'] d IH]; cbn; intros Hk; [reflexivity|].
  destruct (String.eqb k k') eqn:E.
  - apply String.eqb_eq in E. subst. tauto.
  - cbn. f_equal. apply IH. tauto.
Qed.

Lemma dict_set_not_nil {V} k (v : V) d : Dict.set k v d <> [].
Proof.
  destruct d as [|[k' v'] d]; cbn; [discriminate|].
  destruct (String.eqb k k'); discriminate.
Qed.

(** Checks that store their scores under keys that differ and are not in
    the dictionary yet: the total of the runner grows as the sum of the
    dictionary does. *)
Lemma run_checks_total : forall cs keys,
  Forall2 (fun c key => check_spec key (fun _ => True) (snd c)) cs keys ->
  NoDup keys ->
  forall total r,
    (forall k, In k keys -> ~ In k (Dict.keys (scores r))) ->
    sum (Dict.values (scores (snd (run_checks cs total r))))
      - fst (run_checks cs total r)
    = sum (Dict.values (scores r)) - total
    /\ (scores r <> [] -> scores (snd (run_checks cs total r)) <> [])
    /\ (forall k, ~ In k keys ->
          Dict.get k (scores (snd (run_checks cs total r)))
          = Dict.get k (scores r)).
Proof.
  induction 1 as [|[check_name check_func] key cs keys Hspec _ IH];
    intros Hnd total r Hfresh.
  - cbn. auto.
  - cbn [run_checks]. cbn [snd] in Hspec.
    specialize (Hspec r). unfold wp in Hspec.
    inversion Hnd as [|? ? Hkey Hnd']; subst.
    destruct (check_func r) as [[s | e] r'].
    + destruct Hspec as [_ Hs].
      destruct (IH Hnd' (total + s) r') as (IHsum & IHne & IHget).
      { intros k Hk. rewrite Hs, dict_keys_set.
        assert (Hm : Dict.mem key (scores r) = false)
          by (apply dict_mem_false, Hfresh; now left).
        rewrite Hm. intros Hin. apply in_app_or in Hin.
        destruct Hin as [Hin | [-> | []]].
        - apply (Hfresh k); [now right | assumption].
        - contradiction. }
      split; [|split].
      * rewrite IHsum, Hs, dict_values_set_fresh, sum_snoc; [lia|].
        apply Hfresh. now left.
      * intros _. apply IHne. rewrite Hs. apply dict_set_not_nil.
      * intros k Hk. rewrite IHget by (cbn in Hk; tauto).
        rewrite Hs. apply dict_get_set_other. cbn in Hk. tauto.
    + cbn [log_issue].
      match goal with
      | |- context [run_checks cs total ?st] => set (r'' := st)
      end.
      assert (Hst : scores r'' = scores r) by exact Hspec.
      clearbody r''.
      destruct (IH Hnd' total r'') as (IHsum & IHne & IHget).
      { intros k Hk. rewrite Hst. apply Hfresh. now right. }
      rewrite Hst in IHsum, IHne, IHget.
      split; [exact IHsum|]. split; [exact IHne|].
      intros k Hk. apply IHget. cbn in Hk. tauto.
Qed.

Lemma later_checks_store_under fs json_loads :
  Forall2 (fun c key => check_spec key (fun _ => True) (snd c))
    (tl (checks fs json_loads)) (tl score_keys).
Proof.
  unfold checks, score_keys. cbn [tl]. repeat constructor; cbn [snd].
  - eapply check_spec_weaken, environment_variables_spec.
  - eapply check_spec_weaken, authentication_spec.
  - eapply check_spec_weaken, rate_limiting_spec.
  - eapply check_spec_weaken, input_validation_spec.
  - intros r1. eapply wp_mono; [| |apply (logging_security_spec fs r1)];
      cbv beta; auto. intros a r' (_ & _ & Hs). auto.
  - eapply check_spec_weaken, dependency_security_spec.
  - eapply check_spec_weaken, ci_security_spec.
Qed.

Lemma checks_store_under fs json_loads :
  Forall2 (fun c key => check_spec key (fun _ => True) (snd c))
    (checks fs json_loads) score_keys.
Proof.
  change (checks fs json_loads)
    with (("File Permissions", check_file_permissions fs)
            :: tl (checks fs json_loads)).
  change score_keys with ("file_permissions" :: tl score_keys).
  constructor; [|apply later_checks_store_under].
  cbn [snd]. eapply check_spec_weaken, file_permissions_spec.
Qed.

Lemma later_keys_NoDup : NoDup (tl score_keys).
Proof.
  unfold score_keys. cbn [tl].
  repeat (constructor; [cbn; intuition discriminate|]). constructor.
Qed.

Lemma score_keys_NoDup : NoDup score_keys.
Proof.
  unfold score_keys.
  repeat (constructor; [cbn; intuition discriminate|]). constructor.
Qed.

(** A run from a new checker: the sum of the scores of the report is the
    total that the runner prints, whichever checks fail, and it is the
    total of the report when the report holds a score; a report without
    scores has no total.  (The two maxima differ when a check fails; the
    totals never do.) *)
Theorem report_total_is_printed_total :
  forall fs json_loads now,
    let out := run_all_checks_printing fs json_loads now init in
    sum (Dict.values (scores (snd out))) = printed_total (fst out) /\
    overall_score (snd out) =
    match scores (snd out) with
    | [] => None
    | _ :: _ => Some (printed_total (fst out))
    end.
Proof.
  intros fs json_loads now. cbv zeta. unfold run_all_checks_printing.
  destruct (run_checks_total _ _ (checks_store_under fs json_loads)
              score_keys_NoDup 0 init) as (Hsum & _ & _);
    [intros k _ []|].
  destruct (run_checks_uniform _ (checks_uniform fs json_loads))
    as (dt & l & Hrun).
  rewrite Hrun in *. cbn [fst snd printed_total] in *.
  destruct (report_fields_apply_events l init) as (_ & Hov & _ & _).
  rewrite generate_report_scores.
  cbn [init scores Dict.values map] in Hsum. unfold sum at 2 in Hsum.
  cbn [fold_left] in Hsum.
  split; [lia|].
  unfold generate_report.
  destruct (scores (apply_events l init)) as [|kv d];
    cbn [overall_score]; [exact Hov|].
  f_equal. lia.
Qed.

(** When the check of the file permissions returns on a new checker, no
    later check touches its score: the report of the run holds that score,
    and so it has a percentage and a band. *)
Theorem file_permissions_score_reaches_the_report :
  forall fs json_loads now score r1,
    check_file_permissions fs init = (Ok score, r1) ->
    let report := run fs json_loads now in
    Dict.get "file_permissions" (scores report) = Some score
    /\ percentage report <> None
    /\ overall_status report <> "pending".
Proof.
  intros fs json_loads now score r1 Hfp. cbv zeta.
  unfold run, run_all_checks, run_all_checks_printing.
  change (checks fs json_loads)
    with (("File Permissions", check_file_permissions fs)
            :: tl (checks fs json_loads)).
  cbn [run_checks]. rewrite Hfp.
  pose proof (file_permissions_spec fs init) as Hspec.
  unfold wp in Hspec. rewrite Hfp in Hspec. destruct Hspec as [_ Hs1].
  cbn [init scores Dict.set] in Hs1.
  destruct (run_checks_total _ _ (later_checks_store_under fs json_loads)
              later_keys_NoDup (0 + score) r1) as (_ & Hne & Hget).
  { intros k Hk. rewrite Hs1. cbn. intros [<- | []].
    cbn in Hk. intuition discriminate. }
  destruct (run_checks (tl (checks fs json_loads)) (0 + score) r1)
    as [total r].
  cbn [fst snd] in *. rewrite generate_report_scores.
  split.
  - rewrite Hget; [|cbn; intuition discriminate].
    rewrite Hs1. cbn. reflexivity.
  - assert (Hr : scores r <> []) by (apply Hne; rewrite Hs1; discriminate).
    unfold generate_report. destruct (scores r) as [|kv l]; [congruence|].
    cbn [percentage overall_status]. split; [discriminate|].
    unfold status_of.
    repeat match goal with |- context [if ?b then _ else _] => destruct b end;
      discriminate.
Qed.

Lemma file_permissions_score_reaches_the_report_witness :
  let report :=
    run CheckerExamples.scenario_a CheckerExamples.no_json
      "2024-01-01T00:00:00" in
  Dict.get "file_permissions" (scores report) = Some 10
  /\ percentage report <> None
  /\ overall_status report <> "pending".
Proof.
  apply (file_permissions_score_reaches_the_report
           CheckerExamples.scenario_a CheckerExamples.no_json
           "2024-01-01T00:00:00" 10
           (snd (check_file_permissions CheckerExamples.scenario_a init))).
  vm_compute. reflexivity.
Defined.

(** The runner and the report never drop, change or reorder an issue that
    was logged before: the issues after [run_all_checks], from any state
    of the checker, are the issues before followed by the new ones. *)
Theorem run_only_appends_issues :
  forall fs json_loads now r,
    exists more,
      issues (run_all_checks fs json_loads now r) = issues r ++ more.
Proof.
  intros fs json_loads now r. unfold run_all_checks, run_all_checks_printing.
  destruct (run_checks_behaves _ _ (checks_behave fs json_loads) 0 r)
    as [_ Hg].
  destruct (run_checks (checks fs json_loads) 0 r) as [total r'].
  cbn [snd] in *. rewrite generate_report_issues. exact Hg.
Qed.

(** The scores of the report of a run are a dictionary without repeated
    keys on the eight keys of the checks: at most eight scores. *)
Theorem report_scores_among_the_eight_keys :
  forall fs json_loads now,
    let report := run fs json_loads now in
    NoDup (Dict.keys (scores report))
    /\ incl (Dict.keys (scores report)) score_keys
    /\ (List.length (scores report) <= 8)%nat.
Proof.
  intros fs json_loads now.
  destruct (report_has_at_most_eight_scores fs json_loads now)
    as (_ & Hnd & Hincl & Hlen).
  cbv zeta. auto.
Qed.

(** [generate_report] computes from the scores alone and leaves them,
    the issues and the recommendations as they are: generating a report
    again gives what generating it once at the later time gives. *)
Theorem generate_report_again :
  forall now now' r,
    generate_report now' (generate_report now r) = generate_report now' r
    /\ scores (generate_report now r) = scores r
    /\ issues (generate_report now r) = issues r
    /\ recommendations (generate_report now r) = recommendations r.
Proof.
  intros now now' r. unfold generate_report.
  destruct (scores r) as [|kv l] eqn:E; cbn; rewrite ?E; auto.
Qed.

(** *** The exit code *)

Lemma has_critical_app l1 l2 :
  has_critical (l1 ++ l2) = has_critical l1 || has_critical l2.
Proof. apply existsb_app. Qed.

Lemma has_critical_grows r r' :
  grows r r' -> has_critical (issues r) = true ->
  has_critical (issues r') = true.
Proof.
  intros [more ->] H. rewrite has_critical_app, H. reflexivity.
Qed.

Lemma has_critical_In i l :
  In i l -> severity i = "critical" -> has_critical l = true.
Proof.
  intros Hin Hs. apply existsb_exists. exists i. split; [assumption|].
  unfold CheckerMain.is_critical_issue. now rewrite Hs.
Qed.

Lemma main_fails_on_critical fs json_loads write_report now a :
  CheckerMain.fail_on_critical a = true ->
  has_critical (issues (run fs json_loads now)) = true ->
  CheckerMain.main fs json_loads write_report now a = 1.
Proof.
  intros Hflag Hcrit. unfold CheckerMain.main. cbv zeta.
  destruct (match CheckerMain.output a with
            | Some path => _ | None => _ end); [|reflexivity].
  rewrite Hflag. cbn [andb].
  apply existsb_exists in Hcrit. destruct Hcrit as (i & Hin & Hi).
  assert (Hf : In i (filter CheckerMain.is_critical_issue
                       (issues (run fs json_loads now))))
    by (apply filter_In; auto).
  destruct (filter _ _); [destruct Hf | reflexivity].
Qed.

(** With [--fail-on-critical], a project whose bridge handler file exists
    and cannot be read exits with 1, whatever its scores are: the failure
    of the authentication check is a critical issue of the report. *)
Theorem unreadable_handler_fails_the_critical_gate :
  forall fs json_loads write_report now a e,
    path_exists fs "src/telegram/handlers.rs" = true ->
    read_text fs "src/telegram/handlers.rs" = Raise e ->
    CheckerMain.fail_on_critical a = true ->
    CheckerMain.main fs json_loads write_report now a = 1.
Proof.
  intros fs json_loads write_report now a e Hex Hread Hflag.
  apply main_fails_on_critical; [assumption|].
  destruct (failed_authentication_in_any_run fs json_loads now e Hex Hread)
    as [_ Hin].
  eapply has_critical_In; [exact Hin | reflexivity].
Qed.

Lemma unreadable_handler_fails_the_critical_gate_witness :
  CheckerMain.main CheckerExamples.binary_handler CheckerExamples.no_json
    (fun _ _ => Ok tt) "2025-01-01T00:00:00"
    (CheckerMain.mk_args None true) = 1.
Proof.
  apply (unreadable_handler_fails_the_critical_gate
           CheckerExamples.binary_handler CheckerExamples.no_json
           (fun _ _ => Ok tt) "2025-01-01T00:00:00"
           (CheckerMain.mk_args None true) CheckerExamples.undecodable);
    reflexivity.
Defined.

Lemma secret_issues_critical file_path content patterns :
  Text.contains "process.env" content = false ->
  some_rule_found patterns content = true ->
  has_critical (secret_issues file_path content patterns) = true.
Proof.
  intros Hsafe. unfold secret_issues, some_rule_found. rewrite Hsafe.
  induction patterns as [|[pattern description] patterns IH];
    cbn [existsb filter]; [discriminate|].
  destruct (Re.search pattern content Re.IGNORECASE); cbn [orb map].
  - reflexivity.
  - exact IH.
Qed.

Lemma wp_any {A} (m : M A) r : wp m (fun _ _ => True) (fun _ _ => True) r.
Proof. unfold wp. destruct (m r) as [[a | e] r']; exact I. Qed.

(** A method that only appends keeps a critical issue. *)
Lemma wp_keeps_critical {A} (m : M A) (Q : A -> results -> Prop) r :
  has_critical (issues r) = true ->
  wp m (fun _ r' => grows r r') (fun _ r' => grows r r') r ->
  (forall a r', has_critical (issues r') = true -> Q a r') ->
  wp m Q (fun _ _ => True) r.
Proof.
  intros Hc Hm HQ. eapply wp_mono; [| |exact Hm]; cbv beta; auto.
  intros a r' Hg. apply HQ. eapply has_critical_grows; eauto.
Qed.

Lemma scan_finds fs p content :
  read_text fs p = Ok content ->
  Text.contains "process.env" content = false ->
  some_rule_found hardcoded_patterns content = true ->
  forall files r,
    In p files ->
    wp (for_each files tt (fun _ file_path =>
          _check_file_for_patterns fs file_path hardcoded_patterns 10 ;;;
          ret tt))
      (fun _ r' => has_critical (issues r') = true) (fun _ _ => True) r.
Proof.
  intros Hread Hsafe Hfound.
  induction files as [|x files IH]; intros r Hin; [destruct Hin|].
  cbn [for_each]. apply wp_bind. apply wp_bind.
  destruct (string_dec x p) as [-> | Hne].
  - unfold wp at 1.
    rewrite (check_file_for_patterns_readable _ _ _ _ Hread).
    apply wp_ret. apply wp_keeps_critical.
    + rewrite issues_with_issues, has_critical_app.
      rewrite (secret_issues_critical _ _ _ Hsafe Hfound).
      apply orb_true_r.
    + apply scan_loop_appends, grows_refl.
    + auto.
  - eapply wp_mono; [| |apply wp_any]; cbv beta; auto.
    intros a r' _. apply wp_ret. apply IH.
    destruct Hin as [-> | Hin]; [contradiction | assumption].
Qed.

Lemma examples_loop_appends fs score :
  appends_only
    (for_each env_examples score (fun score '(env_file, component) =>
       if path_exists fs env_file then ret score
       else
         log_recommendation component
           ("Create " ++ Fs.name env_file
              ++ " with example configuration")%string ;;;
         ret (score - 1))).
Proof.
  intros r0. apply (wp_loop (fun _ _ r => grows r0 r)).
  - apply grows_refl.
  - intros [env_file comp] xs a' r' Hr'. wp_run; grows_tac.
  - auto.
Qed.

(** The environment check on a project with a hardcoded secret in a Rust
    source file of the bridge: a critical issue is logged, or the check
    has raised. *)
Lemma environment_reports_secret fs p content r :
  path_exists fs "src" = true ->
  In p (rglob fs "src" "*.rs") ->
  read_text fs p = Ok content ->
  Text.contains "process.env" content = false ->
  some_rule_found hardcoded_patterns content = true ->
  wp (check_environment_variables fs)
    (fun _ r' => has_critical (issues r') = true) (fun _ _ => True) r.
Proof.
  intros Hex Hin Hread Hsafe Hfound.
  unfold check_environment_variables. cbv zeta.
  change source_dirs with ["src"; "mcp-server/src"].
  apply wp_bind. cbn [for_each]. apply wp_bind. rewrite Hex.
  apply wp_bind.
  eapply wp_mono;
    [| |apply (scan_finds fs p content Hread Hsafe Hfound _ r Hin)];
    cbv beta; [|auto].
  intros ? r1 H1.
  apply wp_keeps_critical;
    [assumption | apply scan_loop_appends, grows_refl |].
  intros ? r2 H2. apply wp_bind.
  destruct (path_exists fs "mcp-server/src").
  - apply wp_bind.
    apply wp_keeps_critical;
      [assumption | apply scan_loop_appends, grows_refl |].
    intros ? r3 H3.
    apply wp_keeps_critical;
      [assumption | apply scan_loop_appends, grows_refl |].
    intros ? r4 H4. apply wp_ret.
    apply wp_bind.
    apply wp_keeps_critical;
      [assumption | apply examples_loop_appends |].
    intros score r5 H5. wp_run. exact H5.
  - apply wp_ret. apply wp_ret.
    apply wp_bind.
    apply wp_keeps_critical;
      [assumption | apply examples_loop_appends |].
    intros score r5 H5. wp_run. exact H5.
Qed.

Lemma run_reports_secret fs json_loads now p content :
  path_exists fs "src" = true ->
  In p (rglob fs "src" "*.rs") ->
  read_text fs p = Ok content ->
  Text.contains "process.env" content = false ->
  some_rule_found hardcoded_patterns content = true ->
  has_critical (issues (run fs json_loads now)) = true.
Proof.
  intros Hex Hin Hread Hsafe Hfound.
  unfold run, run_all_checks, run_all_checks_printing.
  change (checks fs json_loads)
    with ([("File Permissions", check_file_permissions fs)]
            ++ ("Environment Variables", check_environment_variables fs)
            :: tl (tl (checks fs json_loads))).
  rewrite run_checks_app.
  destruct (run_checks [("File Permissions", check_file_permissions fs)]
              0 init) as [t1 r1].
  cbn [run_checks].
  pose proof (environment_reports_secret fs p content r1
                Hex Hin Hread Hsafe Hfound) as Henv.
  unfold wp in Henv.
  assert (Hrest : Forall (behaves score_keys) (tl (tl (checks fs json_loads)))).
  { pose proof (checks_behave fs json_loads) as H.
    inversion H as [|? ? _ H']; subst. inversion H' as [|? ? _ H'']; subst.
    exact H''. }
  destruct (check_environment_variables fs r1) as [[s | e] r2].
  - destruct (run_checks_behaves _ _ Hrest (t1 + s) r2) as [_ Hg].
    destruct (run_checks _ (t1 + s) r2) as [t3 r3]. cbn [snd] in *.
    rewrite generate_report_issues. eapply has_critical_grows; eauto.
  - cbn [log_issue].
    match goal with
    | |- context [run_checks _ t1 ?st] =>
        destruct (run_checks_behaves _ _ Hrest t1 st) as [_ Hg];
        destruct (run_checks _ t1 st) as [t3 r3]
    end.
    cbn [snd] in *. rewrite generate_report_issues.
    eapply has_critical_grows; [exact Hg|].
    cbn [issues]. rewrite has_critical_app. apply orb_true_r.
Qed.

(** With [--fail-on-critical], a project with a Rust source file of the
    bridge that can be read, does not mention [process.env] and matches
    one of the four secret rules exits with 1, although the match takes
    nothing from any score. *)
Theorem hardcoded_secret_fails_the_critical_gate :
  forall fs json_loads write_report now a file_path content,
    path_exists fs "src" = true ->
    In file_path (rglob fs "src" "*.rs") ->
    read_text fs file_path = Ok content ->
    Text.contains "process.env" content = false ->
    some_rule_found hardcoded_patterns content = true ->
    CheckerMain.fail_on_critical a = true ->
    CheckerMain.main fs json_loads write_report now a = 1.
Proof.
  intros fs json_loads write_report now a file_path content
    Hex Hin Hread Hsafe Hfound Hflag.
  apply main_fails_on_critical; [assumption|].
  eapply run_reports_secret; eassumption.
Qed.

Lemma hardcoded_secret_fails_the_critical_gate_witness :
  CheckerMain.main CheckerExamples.scenario_a CheckerExamples.no_json
    (fun _ _ => Ok tt) "2025-01-01T00:00:00"
    (CheckerMain.mk_args None true) = 1.
Proof.
  apply (hardcoded_secret_fails_the_critical_gate
           CheckerExamples.scenario_a CheckerExamples.no_json
           (fun _ _ => Ok tt) "2025-01-01T00:00:00"
           (CheckerMain.mk_args None true)
           "src/config.rs" CheckerExamples.secret_line);
    vm_compute; auto.
Defined.

(** *** The other checks *)

(** Whenever the environment check returns, its score is 10 minus 1 for
    each of the two example files that is missing, and this is the score it
    stores: what the scan of the source files finds has no part in it. *)
Theorem environment_score_counts_examples_only :
  forall fs r score r',
    check_environment_variables fs r = (Ok score, r') ->
    score = 10
            - (if path_exists fs "config.example.toml" then 0 else 1)
            - (if path_exists fs "mcp-server/.env.example" then 0 else 1)
    /\ scores r' = Dict.set "environment_variables" score (scores r).
Proof.
  intros fs r score r' H.
  pose proof (environment_score_ignores_matches fs r) as H1.
  pose proof (environment_variables_spec fs r) as H2.
  unfold wp in H1, H2. rewrite H in H1, H2.
  split; [exact H1 | apply H2].
Qed.

Lemma environment_score_counts_examples_only_witness :
  let fs := CheckerExamples.scenario_a in
  let out := check_environment_variables fs init in
  10 = 10
       - (if path_exists fs "config.example.toml" then 0 else 1)
       - (if path_exists fs "mcp-server/.env.example" then 0 else 1)
  /\ scores (snd out) = Dict.set "environment_variables" 10 (scores init).
Proof.
  intros fs out.
  apply (environment_score_counts_examples_only fs init 10 (snd out)).
  vm_compute. reflexivity.
Defined.

(** Whenever the logging check returns, its score is 10 minus 2 for each
    issue it has appended: there is no lower bound. *)
Theorem logging_score_counts_logged_issues :
  forall fs r score r',
    check_logging_security fs r = (Ok score, r') ->
    exists new,
      issues r' = issues r ++ new
      /\ score = 10 - 2 * Z.of_nat (List.length new).
Proof.
  intros fs r score r' H.
  pose proof (logging_security_spec fs r) as H1.
  pose proof (logging_security_appends fs r) as H2.
  unfold wp in H1, H2. rewrite H in H1, H2.
  destruct H2 as [new Hnew]. exists new. split; [exact Hnew|].
  destruct H1 as (Hs & _). rewrite Hnew, length_app in Hs. lia.
Qed.

Lemma logging_score_counts_logged_issues_witness :
  let out := check_logging_security CheckerExamples.noisy_logs init in
  exists new,
    issues (snd out) = issues init ++ new
    /\ -10 = 10 - 2 * Z.of_nat (List.length new).
Proof.
  intros out.
  apply (logging_score_counts_logged_issues CheckerExamples.noisy_logs
           init (-10) (snd out)).
  vm_compute. reflexivity.
Defined.

(** A [package.json] that exists and parses to something that is no
    object makes the dependency check fail with the [AttributeError] of
    [content.get]; no score is stored. *)
Theorem dependency_check_needs_an_object :
  forall fs json_loads r content,
    path_exists fs "mcp-server/package.json" = true ->
    load_json fs json_loads "mcp-server/package.json" = Ok content ->
    (forall d, content <> Json.JDict d) ->
    exists r',
      check_dependency_security fs json_loads r
      = (Raise (Json.attribute_error content "get"), r')
      /\ scores r' = scores r.
Proof.
  intros fs json_loads r content Hex Hload Hobj.
  unfold check_dependency_security. cbv zeta.
  change (join mcp_root "package.json") with "mcp-server/package.json".
  rewrite Hex. unfold bind, lift. rewrite Hload.
  destruct (path_exists fs (join bridge_root "Cargo.lock"));
    destruct (path_exists fs (join mcp_root "package-lock.json"));
    cbn [ret log_issue];
    (destruct content; try (eexists; split; reflexivity);
     exfalso; eapply Hobj; reflexivity).
Qed.

Lemma dependency_check_needs_an_object_witness :
  let fs := CheckerExamples.project ["mcp-server"]
              [CheckerExamples.private "mcp-server/package.json" "[]"] in
  let json_loads := fun _ : string => Ok (Json.JList []) in
  exists r',
    check_dependency_security fs json_loads init
    = (Raise (Json.attribute_error (Json.JList []) "get"), r')
    /\ scores r' = scores init.
Proof.
  intros fs json_loads.
  apply (dependency_check_needs_an_object fs json_loads init (Json.JList [])).
  - reflexivity.
  - reflexivity.
  - intros d. discriminate.
Defined.

(** With a [package.json] that is an object whose [scripts] and
    [dependencies], where present, are objects, the dependency check
    returns 2 for each of the two lock files, 3 when the name of a script
    has [audit] in it and 3 when [helmet] or [express-rate-limit] is a key
    of the dependencies; what the scripts run is not looked at. *)
Theorem dependency_score_formula :
  forall fs json_loads r d scripts deps,
    path_exists fs "mcp-server/package.json" = true ->
    load_json fs json_loads "mcp-server/package.json" = Ok (Json.JDict d) ->
    Json.get_or_empty (Json.JDict d) "scripts" = Ok (Json.JDict scripts) ->
    Json.get_or_empty (Json.JDict d) "dependencies" = Ok (Json.JDict deps) ->
    let score :=
      (if path_exists fs "Cargo.lock" then 2 else 0)
      + (if path_exists fs "mcp-server/package-lock.json" then 2 else 0)
      + (if existsb (fun script => Text.contains "audit" script)
              (Dict.keys scripts) then 3 else 0)
      + (if Dict.mem "helmet" deps || Dict.mem "express-rate-limit" deps
         then 3 else 0) in
    exists r',
      check_dependency_security fs json_loads r = (Ok score, r')
      /\ scores r' = Dict.set "dependency_security" score (scores r).
Proof.
  intros fs json_loads r d scripts deps Hex Hload Hs Hd score. subst score.
  unfold check_dependency_security. cbv zeta.
  change (join mcp_root "package.json") with "mcp-server/package.json".
  change (join bridge_root "Cargo.lock") with "Cargo.lock".
  change (join mcp_root "package-lock.json")
    with "mcp-server/package-lock.json".
  rewrite Hex. unfold bind, lift. rewrite Hload, Hs, Hd.
  cbn [Json.keys Json.contains].
  destruct (path_exists fs "Cargo.lock");
    destruct (path_exists fs "mcp-server/package-lock.json");
    cbn [ret log_issue];
    destruct (existsb _ (Dict.keys scripts));
    cbn [ret log_recommendation];
    destruct (Dict.mem "helmet" deps); cbn [ret orb];
    try destruct (Dict.mem "express-rate-limit" deps);
    cbn [ret log_recommendation set_score];
    eexists; split; reflexivity.
Qed.

Lemma dependency_score_formula_witness :
  let fs := CheckerExamples.project ["mcp-server"]
              [CheckerExamples.private "mcp-server/package.json" "{}";
               CheckerExamples.private "Cargo.lock" ""] in
  let d := [("scripts", Json.JDict [("security-audit", Json.JStr "true")])] in
  let json_loads := fun _ : string => Ok (Json.JDict d) in
  exists r',
    check_dependency_security fs json_loads init = (Ok 5, r')
    /\ scores r' = Dict.set "dependency_security" 5 (scores init).
Proof.
  intros fs d json_loads.
  apply (dependency_score_formula fs json_loads init d
           [("security-audit", Json.JStr "true")] []); reflexivity.
Defined.

(** With a workflows directory whose [*.yml] files can be read, the CI
    check returns and stores the smaller of 10 and 3 for each of the three
    security workflows that exists plus 1 for each [*.yml] file with
    [permissions:] in its text, and it logs no issue. *)
Theorem ci_security_result :
  forall fs r,
    let workflows_dir := ".github/workflows" in
    let present :=
      filter (fun workflow => path_exists fs (join workflows_dir workflow))
        security_workflows in
    let restricted :=
      filter (fun workflow_file =>
                match read_text fs workflow_file with
                | Ok content => Text.contains "permissions:" content
                | Raise _ => false
                end) (glob fs workflows_dir "*.yml") in
    let score :=
      Z.min (3 * Z.of_nat (List.length present)
             + Z.of_nat (List.length restricted)) 10 in
    path_exists fs workflows_dir = true ->
    (forall f, In f (glob fs workflows_dir "*.yml") ->
               exists content, read_text fs f = Ok content) ->
    exists r',
      check_ci_security fs r = (Ok score, r')
      /\ scores r' = Dict.set "ci_security" score (scores r)
      /\ issues r' = issues r.
Proof.
  intros fs r0 workflows_dir present restricted score Hex Hread.
  assert (H : wp (check_ci_security fs)
                (fun s r' => s = score
                             /\ scores r' = Dict.set "ci_security" score (scores r0)
                             /\ issues r' = issues r0)
                (fun _ _ => False) r0).
  { unfold check_ci_security. cbv zeta.
    change (join (join project_root ".github") "workflows") with workflows_dir.
    rewrite Hex. apply wp_bind.
    apply wp_bind.
    apply (wp_loop (fun xs a r =>
             a + 3 * Z.of_nat (List.length
                     (filter (fun workflow =>
                                path_exists fs (join workflows_dir workflow)) xs))
             = 3 * Z.of_nat (List.length present)
             /\ scores r = scores r0 /\ issues r = issues r0)).
    - fold present. repeat split; lia.
    - intros x xs a r (Ha & Hs & Hi). cbn [filter] in Ha.
      destruct (path_exists fs (join workflows_dir x)).
      + apply wp_ret. cbn [List.length] in Ha. rewrite Nat2Z.inj_succ in Ha.
        split; [lia | auto].
      + wp_run. repeat split; auto.
    - intros a r (Ha & Hs & Hi). cbn [filter List.length] in Ha.
      apply (wp_loop (fun xs b r' =>
               b + Z.of_nat (List.length
                       (filter (fun workflow_file =>
                                  match read_text fs workflow_file with
                                  | Ok content =>
                                      Text.contains "permissions:" content
                                  | Raise _ => false
                                  end) xs))
               = 3 * Z.of_nat (List.length present)
                 + Z.of_nat (List.length restricted)
               /\ (forall f, In f xs ->
                             exists content, read_text fs f = Ok content)
               /\ scores r' = scores r0 /\ issues r' = issues r0)).
      + fold restricted. repeat split; auto; lia.
      + intros x xs b r' (Hb & Hr & Hs' & Hi'). cbn [filter] in Hb.
        destruct (Hr x (or_introl eq_refl)) as (content & Hc).
        apply wp_bind. apply wp_lift. rewrite Hc in *.
        destruct (Text.contains "permissions:" content); apply wp_ret;
          cbn [List.length] in Hb;
          (split; [lia|]); (split; [|auto]);
          intros f Hf; apply Hr; now right.
      + intros b r' (Hb & _ & Hs' & Hi'). cbn [filter List.length] in Hb.
        wp_run. cbn [scores issues set_score with_score snd].
        assert (Hscore : Z.min b 10 = score) by (unfold score; f_equal; lia).
        rewrite Hscore, Hs'. auto. }
  unfold wp in H.
  destruct (check_ci_security fs r0) as [[s | e] r']; [|destruct H].
  destruct H as (-> & Hs & Hi). eauto.
Qed.

Lemma ci_security_result_witness :
  let fs := CheckerExamples.project [".github/workflows"]
              [CheckerExamples.private ".github/workflows/scorecard.yml"
                 "permissions: read-all";
               CheckerExamples.private ".github/workflows/ci.yml"
                 "on: push"] in
  exists r',
    check_ci_security fs init = (Ok 4, r')
    /\ scores r' = Dict.set "ci_security" 4 (scores init)
    /\ issues r' = issues init.
Proof.
  intros fs.
  apply (ci_security_result fs init).
  - reflexivity.
  - intros f Hf. vm_compute in Hf.
    destruct Hf as [<- | [<- | []]]; eexists; vm_compute; reflexivity.
Defined.

(** *** The rules of the logging check *)

Lemma lang_star_dot ic : forall u,
  Forall (fun c => Ascii.eqb c Text.newline = false) u ->
  Re.lang ic (Re.Star Re.Dot) u.
Proof.
  induction 1 as [|c u Hc _ IH]; [constructor|].
  change (c :: u) with ([c] ++ u).
  apply Re.lang_star_more; [now constructor | assumption].
Qed.

(** What a rule of the logging check finds at least: every text in which
    the first word of the rule, in any letter case and also as a part of a
    longer word, is followed on the same line by the second word. *)
Theorem logging_rule_finds_words_on_a_line :
  forall text word content before t between w after,
    list_ascii_of_string content = before ++ (t ++ between ++ w) ++ after ->
    map Text.lower_char t
      = map Text.lower_char (list_ascii_of_string text) ->
    map Text.lower_char w
      = map Text.lower_char (list_ascii_of_string word) ->
    Forall (fun c => Ascii.eqb c Text.newline = false) between ->
    Re.search (then_later text word) content Re.IGNORECASE = true.
Proof.
  intros text word content before t between w after Hc Ht Hw Hb.
  apply search_spec.
  exists before, (t ++ between ++ w), after. split; [exact Hc|].
  unfold then_later. cbn [Re.seq fold_right].
  constructor; [apply lang_lit, same_letters_matches, Ht|].
  constructor; [now apply lang_star_dot|].
  rewrite <- (app_nil_r w).
  constructor; [apply lang_lit, same_letters_matches, Hw | constructor].
Qed.

Lemma logging_rule_finds_words_on_a_line_witness :
  Re.search (then_later "log" "password") "catalog.reset(PASSWORD)"
    Re.IGNORECASE = true.
Proof.
  apply (logging_rule_finds_words_on_a_line "log" "password"
           "catalog.reset(PASSWORD)"
           (list_ascii_of_string "cata") (list_ascii_of_string "log")
           (list_ascii_of_string ".reset(")
           (list_ascii_of_string "PASSWORD") (list_ascii_of_string ")")).
  - reflexivity.
  - reflexivity.
  - vm_compute. reflexivity.
  - repeat constructor.
Defined.

End CheckerFacts.

(** ** Further properties of scorecard-compare.py *)

Section ScorecardMore.
Import Scorecard ScorecardSummary.

(** *** [calculate_score_diff] *)

(** Swapping the two scores negates the difference and exchanges improved
    and declined. *)
Theorem calculate_score_diff_swap :
  forall current baseline,
    calculate_score_diff baseline current =
    (- fst (calculate_score_diff current baseline),
     flip (snd (calculate_score_diff current baseline))).
Proof.
  intros current baseline. unfold calculate_score_diff.
  destruct (0 <? current - baseline) eqn:E1;
    destruct (current - baseline <? 0) eqn:E2;
    destruct (0 <? baseline - current) eqn:E3;
    destruct (baseline - current <? 0) eqn:E4;
    cbn [fst snd flip];
    try (f_equal; lia);
    rewrite ?Z.ltb_lt, ?Z.ltb_ge in *; lia.
Qed.

(** The status is never [missing], and it tells the sign of the
    difference. *)
Lemma calculate_score_diff_status current baseline :
  let '(diff, st) := calculate_score_diff current baseline in
  diff = current - baseline /\
  (st = improved /\ 0 < diff \/ st = declined /\ diff < 0
   \/ st = unchanged /\ diff = 0).
Proof.
  unfold calculate_score_diff.
  destruct (0 <? current - baseline) eqn:E1;
    [|destruct (current - baseline <? 0) eqn:E2];
    rewrite ?Z.ltb_lt, ?Z.ltb_ge in *; split; auto.
  right. right. split; auto. lia.
Qed.

(** *** The dictionaries of [analyze_individual_checks] *)

Lemma find_app_first {A} (f : A -> bool) (l1 l2 : list A) :
  find f (l1 ++ l2) =
  match find f l1 with Some x => Some x | None => find f l2 end.
Proof.
  induction l1 as [|x l1 IH]; simpl; auto. now destruct (f x).
Qed.

(** The check kept under a name is the last one of the list with that
    name. *)
Lemma by_name_get l : forall acc d n,
  by_name l acc = Some d ->
  Dict.get n d =
  match find (named_as n) (rev l) with
  | Some c => Some c
  | None => Dict.get n acc
  end.
Proof.
  induction l as [|c l IH]; intros acc d n H; simpl in *.
  - now injection H as <-.
  - destruct (name c) as [m|] eqn:Hm; [|discriminate].
    rewrite (IH _ _ n H). clear IH H.
    rewrite find_app_first.
    destruct (find (named_as n) (rev l)); auto.
    simpl. unfold named_as at 1. rewrite Hm.
    destruct (String.eqb m n) eqn:E.
    + apply String.eqb_eq in E. subst. apply dict_get_set_same.
    + apply String.eqb_neq in E. now apply dict_get_set_other.
Qed.

Lemma fold_current_get_other bd l : forall acc n,
  ~ In n (Dict.keys l) ->
  Dict.get n (fold_left (analyze_current bd) l acc) = Dict.get n acc.
Proof.
  induction l as [|[k c] l IH]; simpl; intros acc n H; auto.
  rewrite IH by tauto. unfold analyze_current.
  destruct (calculate_score_diff _ _).
  apply dict_get_set_other. intros ->. tauto.
Qed.

Lemma fold_current_get bd l : forall acc n c,
  NoDup (Dict.keys l) -> Dict.get n l = Some c ->
  Dict.get n (fold_left (analyze_current bd) l acc) = Some (current_entry bd n c).
Proof.
  induction l as [|[k c'] l IH]; simpl; intros acc n c Hnd Hget.
  - discriminate.
  - inversion Hnd as [|? ? Hk Hnd']; subst.
    destruct (String.eqb n k) eqn:E.
    + apply String.eqb_eq in E. subst k. injection Hget as ->.
      rewrite fold_current_get_other by exact Hk.
      unfold analyze_current, current_entry.
      pose proof (calculate_score_diff_status (get_score (Some c))
                    (get_score (Dict.get n bd))) as Hs.
      destruct (calculate_score_diff _ _) as [diff st].
      destruct Hs as [-> _]. apply dict_get_set_same.
    + now apply IH.
Qed.

Lemma fold_baseline_get_present cd l : forall acc n,
  Dict.mem n cd = true ->
  Dict.get n (fold_left (analyze_baseline cd) l acc) = Dict.get n acc.
Proof.
  induction l as [|[k c] l IH]; simpl; intros acc n H; auto.
  rewrite IH by exact H. unfold analyze_baseline.
  destruct (Dict.mem k cd) eqn:E; simpl; auto.
  apply dict_get_set_other. intros ->. congruence.
Qed.

Lemma fold_set_keys_fresh {V W} (f : string -> W -> V) (l : list (string * W)) :
  forall acc,
    NoDup (Dict.keys l) ->
    (forall n, In n (Dict.keys l) -> ~ In n (Dict.keys acc)) ->
    Dict.keys (fold_left (fun a it => Dict.set (fst it) (f (fst it) (snd it)) a) l acc)
    = Dict.keys acc ++ Dict.keys l.
Proof.
  induction l as [|[k w] l IH]; simpl; intros acc Hnd Hfresh.
  - now rewrite app_nil_r.
  - inversion Hnd as [|? ? Hk Hnd']; subst.
    rewrite IH; auto.
    + rewrite dict_keys_set.
      assert (E : Dict.mem k acc = false)
        by (apply dict_mem_false; apply Hfresh; now left).
      rewrite E. now rewrite <- app_assoc.
    + intros n Hn Hin. apply dict_keys_set_In in Hin.
      destruct Hin as [Hin | ->]; [|contradiction].
      apply (Hfresh n); auto.
Qed.

Lemma fold_current_as_set bd l : forall acc,
  fold_left (analyze_current bd) l acc =
  fold_left (fun a it => Dict.set (fst it) (current_entry bd (fst it) (snd it)) a)
    l acc.
Proof.
  induction l as [|[k c] l IH]; simpl; intros acc; auto.
  rewrite IH. f_equal. unfold analyze_current, current_entry.
  pose proof (calculate_score_diff_status (get_score (Some c))
                (get_score (Dict.get k bd))) as Hs.
  destruct (calculate_score_diff _ _) as [diff st].
  destruct Hs as [-> _]. reflexivity.
Qed.

Lemma fold_baseline_keys cd l : forall acc,
  NoDup (Dict.keys l) ->
  (forall n, In n (Dict.keys l) -> Dict.mem n cd = false ->
             ~ In n (Dict.keys acc)) ->
  Dict.keys (fold_left (analyze_baseline cd) l acc)
  = Dict.keys acc ++ filter (fun n => negb (Dict.mem n cd)) (Dict.keys l).
Proof.
  induction l as [|[k c] l IH]; simpl; intros acc Hnd Hfresh.
  - now rewrite app_nil_r.
  - inversion Hnd as [|? ? Hk Hnd']; subst.
    unfold analyze_baseline at 1.
    destruct (Dict.mem k cd) eqn:E; simpl.
    + apply IH; auto.
    + rewrite IH; auto.
      * rewrite dict_keys_set.
        assert (E' : Dict.mem k acc = false)
          by (apply dict_mem_false; apply Hfresh; auto).
        rewrite E'. now rewrite <- app_assoc.
      * intros n Hn Hm Hin. apply dict_keys_set_In in Hin.
        destruct Hin as [Hin | ->]; [|contradiction].
        apply (Hfresh n); auto.
Qed.

Lemma by_name_None l : forall acc,
  by_name l acc = None <-> exists c, In c l /\ name c = None.
Proof.
  induction l as [|c l IH]; intros acc; simpl.
  - split; [discriminate | intros (c & [] & _)].
  - destruct (name c) as [n|] eqn:Hn.
    + rewrite IH. split.
      * intros (c' & Hin & Hc'). eauto.
      * intros (c' & [-> | Hin] & Hc'); [congruence | eauto].
    + split; auto. intros _. eauto.
Qed.

Lemma analysis_unfold cur base cd bd :
  by_name cur [] = Some cd -> by_name base [] = Some bd ->
  analyze_individual_checks cur base =
  Some (fold_left (analyze_baseline cd) bd
          (fold_left (analyze_current bd) cd [])).
Proof. intros Hc Hb. unfold analyze_individual_checks. now rewrite Hb, Hc. Qed.

Lemma fold_current_keys_exact bd cd :
  NoDup (Dict.keys cd) ->
  Dict.keys (fold_left (analyze_current bd) cd []) = Dict.keys cd.
Proof.
  intros Hnd. rewrite fold_current_as_set.
  rewrite (fold_set_keys_fresh (current_entry bd) cd []); auto.
Qed.

(** The analysis lists the checks of the current results in their order,
    then the checks that only the baseline has, in the order of the
    baseline; no name comes twice, and a name is there exactly when a check
    of one of the two lists bears it. *)
Theorem analysis_keys_in_order :
  forall cur base cd bd,
    by_name cur [] = Some cd -> by_name base [] = Some bd ->
    exists analysis,
      analyze_individual_checks cur base = Some analysis /\
      Dict.keys analysis =
        Dict.keys cd ++ filter (fun n => negb (Dict.mem n cd)) (Dict.keys bd) /\
      NoDup (Dict.keys analysis) /\
      (forall n, In n (Dict.keys analysis) <->
                 In (Some n) (map name cur) \/ In (Some n) (map name base)).
Proof.
  intros cur base cd bd Hc Hb.
  assert (Hndc : NoDup (Dict.keys cd))
    by (eapply by_name_NoDup; eauto; constructor).
  assert (Hndb : NoDup (Dict.keys bd))
    by (eapply by_name_NoDup; eauto; constructor).
  eexists. split; [apply (analysis_unfold _ _ _ _ Hc Hb)|].
  assert (Hkeys : Dict.keys (fold_left (analyze_baseline cd) bd
                               (fold_left (analyze_current bd) cd []))
                  = Dict.keys cd
                    ++ filter (fun n => negb (Dict.mem n cd)) (Dict.keys bd)).
  { rewrite fold_baseline_keys; auto.
    - now rewrite fold_current_keys_exact.
    - intros n _ Hm. rewrite fold_current_keys_exact by assumption.
      now apply dict_mem_false. }
  split; [exact Hkeys|]. split.
  - eapply analysis_NoDup. apply (analysis_unfold _ _ _ _ Hc Hb).
  - intros n. rewrite Hkeys, in_app_iff, filter_In.
    rewrite negb_true_iff, dict_mem_false.
    pose proof (by_name_keys _ _ _ n Hc) as Hnc.
    pose proof (by_name_keys _ _ _ n Hb) as Hnb.
    simpl in Hnc, Hnb.
    destruct (in_dec string_dec n (Dict.keys cd)); tauto.
Qed.

Lemma analysis_keys_in_order_witness :
  exists analysis,
    analyze_individual_checks ScorecardExamples.scenario_d_current
      ScorecardExamples.scenario_d_baseline = Some analysis /\
    Dict.keys analysis = ["Maintained"; "Fuzzing"] /\
    NoDup (Dict.keys analysis) /\
    (forall n, In n (Dict.keys analysis) <->
               In (Some n) (map name ScorecardExamples.scenario_d_current)
               \/ In (Some n) (map name ScorecardExamples.scenario_d_baseline)).
Proof.
  apply (analysis_keys_in_order ScorecardExamples.scenario_d_current
           ScorecardExamples.scenario_d_baseline
           ScorecardExamples.scenario_d_current_dict
           ScorecardExamples.scenario_d_baseline_dict); reflexivity.
Defined.

(** A check of the current results is analysed against the baseline check
    of the same name, or against a score of 0 and an empty reason when the
    baseline has none; the difference is current minus baseline. *)
Theorem analysis_of_current_check :
  forall cur base cd bd n c,
    by_name cur [] = Some cd -> by_name base [] = Some bd ->
    Dict.get n cd = Some c ->
    exists analysis,
      analyze_individual_checks cur base = Some analysis /\
      Dict.get n analysis = Some (current_entry bd n c) /\
      a_status (current_entry bd n c) <> missing /\
      (Dict.get n bd = None ->
       a_baseline_score (current_entry bd n c) = 0 /\
       a_diff (current_entry bd n c) = get_score (Some c) /\
       a_baseline_reason (current_entry bd n c) = "").
Proof.
  intros cur base cd bd n c Hc Hb Hn.
  eexists. split; [apply (analysis_unfold _ _ _ _ Hc Hb)|]. split; [|split].
  - rewrite fold_baseline_get_present.
    + apply fold_current_get; auto. eapply by_name_NoDup; eauto. constructor.
    + unfold Dict.mem. now rewrite Hn.
  - unfold current_entry. cbn [a_status].
    pose proof (calculate_score_diff_status (get_score (Some c))
                  (get_score (Dict.get n bd))) as Hs.
    destruct (calculate_score_diff _ _) as [diff st]. cbn [snd].
    destruct Hs as [_ [[-> _] | [[-> _] | [-> _]]]]; discriminate.
  - intros Hnone. unfold current_entry. rewrite Hnone. cbn.
    repeat split. lia.
Qed.

Lemma analysis_of_current_check_witness :
  let bd := ScorecardExamples.scenario_d_current_dict in
  let e := current_entry bd "Fuzzing" ScorecardExamples.fuzzing_check in
  exists analysis,
    analyze_individual_checks ScorecardExamples.scenario_d_baseline
      ScorecardExamples.scenario_d_current = Some analysis /\
    Dict.get "Fuzzing" analysis = Some e /\
    a_status e <> missing /\
    (Dict.get "Fuzzing" bd = None ->
     a_baseline_score e = 0 /\ a_diff e = 8 /\ a_baseline_reason e = "").
Proof.
  apply (analysis_of_current_check ScorecardExamples.scenario_d_baseline
           ScorecardExamples.scenario_d_current
           ScorecardExamples.scenario_d_baseline_dict
           ScorecardExamples.scenario_d_current_dict "Fuzzing"
           ScorecardExamples.fuzzing_check); reflexivity.
Defined.

(** An analysed check has the status [missing] exactly when the current
    results have no check of its name. *)
Theorem missing_iff_absent_from_current :
  forall cur base cd bd analysis n e,
    by_name cur [] = Some cd -> by_name base [] = Some bd ->
    analyze_individual_checks cur base = Some analysis ->
    Dict.get n analysis = Some e ->
    (a_status e = missing <-> Dict.get n cd = None).
Proof.
  intros cur base cd bd analysis n e Hc Hb Ha Hn.
  rewrite (analysis_unfold _ _ _ _ Hc Hb) in Ha. injection Ha as <-.
  assert (Hndc : NoDup (Dict.keys cd))
    by (eapply by_name_NoDup; eauto; constructor).
  assert (Hndb : NoDup (Dict.keys bd))
    by (eapply by_name_NoDup; eauto; constructor).
  destruct (Dict.get n cd) as [c|] eqn:Hcd.
  - rewrite fold_baseline_get_present in Hn
      by (unfold Dict.mem; now rewrite Hcd).
    rewrite (fold_current_get bd cd [] n c Hndc Hcd) in Hn. injection Hn as <-.
    split; [|discriminate]. intros Hs. exfalso. revert Hs.
    unfold current_entry. cbn [a_status].
    pose proof (calculate_score_diff_status (get_score (Some c))
                  (get_score (Dict.get n bd))) as Hs.
    destruct (calculate_score_diff _ _) as [diff st]. cbn [snd].
    destruct Hs as [_ [[-> _] | [[-> _] | [-> _]]]]; discriminate.
  - split; auto. intros _.
    destruct (Dict.get n bd) as [c|] eqn:Hbd.
    + rewrite (fold_baseline_get cd bd _ n c Hndb Hbd) in Hn
        by (unfold Dict.mem; now rewrite Hcd).
      now injection Hn as <-.
    + exfalso. apply dict_get_None in Hbd.
      rewrite fold_baseline_get_other in Hn by exact Hbd.
      rewrite fold_current_get_other in Hn by (now apply dict_get_None).
      discriminate.
Qed.

Lemma missing_iff_absent_from_current_witness :
  let e :=
    {| a_current_score := 0; a_baseline_score := 8; a_diff := -8;
       a_status := missing;
       a_current_reason := "Check not found in current results";
       a_baseline_reason := "project is fuzzed";
       a_documentation := [] |} in
  a_status e = missing <->
  Dict.get "Fuzzing" ScorecardExamples.scenario_d_current_dict = None.
Proof.
  eapply (missing_iff_absent_from_current
            ScorecardExamples.scenario_d_current
            ScorecardExamples.scenario_d_baseline
            ScorecardExamples.scenario_d_current_dict
            ScorecardExamples.scenario_d_baseline_dict _ "Fuzzing");
    reflexivity.
Defined.

(** A check without a name, in the current or in the baseline list, makes
    the analysis fail: the [KeyError] of [check['name']] is raised when the
    two dictionaries are built, before any check is analysed. *)
Theorem unnamed_check_fails_the_analysis :
  forall cur base c,
    In c (cur ++ base) -> name c = None ->
    analyze_individual_checks cur base = None.
Proof.
  intros cur base c Hin Hc. unfold analyze_individual_checks.
  apply in_app_or in Hin.
  destruct (by_name base []) as [bd|] eqn:Hb; [|reflexivity].
  destruct (by_name cur []) as [cd|] eqn:Hcur; [|reflexivity].
  destruct Hin as [Hin | Hin].
  - assert (by_name cur [] = None) by (apply by_name_None; eauto).
    congruence.
  - assert (by_name base [] = None) by (apply by_name_None; eauto).
    congruence.
Qed.

Lemma unnamed_check_fails_the_analysis_witness :
  let unnamed := {| name := None; score := Some 5; reason := None;
                    documentation := None |} in
  analyze_individual_checks ScorecardExamples.scenario_d_current
    (ScorecardExamples.scenario_d_baseline ++ [unnamed]) = None.
Proof.
  intros unnamed.
  apply (unnamed_check_fails_the_analysis
           ScorecardExamples.scenario_d_current
           (ScorecardExamples.scenario_d_baseline ++ [unnamed]) unnamed).
  - simpl. tauto.
  - reflexivity.
Defined.

(** When a name comes several times in a list of checks, the dictionary
    keeps the last check of that name. *)
Theorem last_check_of_a_name_wins :
  forall l d n,
    by_name l [] = Some d ->
    Dict.get n d = find (named_as n) (rev l).
Proof.
  intros l d n H. rewrite (by_name_get l [] d n H).
  now destruct (find (named_as n) (rev l)).
Qed.

Lemma last_check_of_a_name_wins_witness :
  Dict.get "Fuzzing"
    [ ("Fuzzing", ScorecardExamples.named "Fuzzing" 3 "later entry") ]
  = find (named_as "Fuzzing")
      (rev [ ScorecardExamples.fuzzing_check;
             ScorecardExamples.named "Fuzzing" 3 "later entry" ]).
Proof.
  apply (last_check_of_a_name_wins
           [ ScorecardExamples.fuzzing_check;
             ScorecardExamples.named "Fuzzing" 3 "later entry" ]).
  reflexivity.
Defined.

Lemma filter_none {A} (f : A -> bool) (l : list A) :
  (forall x, In x l -> f x = false) -> filter f l = [].
Proof.
  induction l as [|x l IH]; simpl; intros H; auto.
  rewrite (H x) by now left. apply IH. auto.
Qed.

Lemma self_analysis_keys l d :
  by_name l [] = Some d ->
  exists analysis,
    analyze_individual_checks l l = Some analysis /\
    Dict.keys analysis = Dict.keys d.
Proof.
  intros Hd.
  assert (Hnd : NoDup (Dict.keys d))
    by (eapply by_name_NoDup; eauto; constructor).
  eexists. split; [apply (analysis_unfold _ _ _ _ Hd Hd)|].
  rewrite fold_baseline_keys; auto.
  - rewrite fold_current_keys_exact by assumption.
    rewrite filter_none; [apply app_nil_r|].
    intros n Hn. apply dict_mem_true in Hn. now rewrite Hn.
  - intros n _ Hm. rewrite fold_current_keys_exact by assumption.
    now apply dict_mem_false.
Qed.

(** A scorecard compared with itself: every check is unchanged with a
    difference of 0, none is missing, and the only actions left are the
    medium [improve_security] ones. *)
Theorem self_comparison :
  forall l d,
    by_name l [] = Some d ->
    exists analysis,
      analyze_individual_checks l l = Some analysis /\
      Dict.keys analysis = Dict.keys d /\
      (forall n e, Dict.get n analysis = Some e ->
                   a_status e = unchanged /\ a_diff e = 0 /\
                   a_current_score e = a_baseline_score e) /\
      (forall a, In a (identify_priority_actions analysis) ->
                 act_action a = improve_security /\ act_priority a = medium).
Proof.
  intros l d Hd.
  assert (Hnd : NoDup (Dict.keys d))
    by (eapply by_name_NoDup; eauto; constructor).
  destruct (self_analysis_keys l d Hd) as (analysis & Ha & Hk).
  assert (Hentry : forall n e, Dict.get n analysis = Some e ->
             a_status e = unchanged /\ a_diff e = 0 /\
             a_current_score e = a_baseline_score e).
  { intros n e Hn.
    rewrite (analysis_unfold _ _ _ _ Hd Hd) in Ha. injection Ha as <-.
    destruct (Dict.get n d) as [c|] eqn:Hc.
    - rewrite fold_baseline_get_present in Hn
        by (unfold Dict.mem; now rewrite Hc).
      rewrite (fold_current_get d d [] n c Hnd Hc) in Hn. injection Hn as <-.
      unfold current_entry. rewrite Hc.
      cbn [a_status a_diff a_current_score a_baseline_score].
      unfold calculate_score_diff. rewrite Z.sub_diag. cbn. auto.
    - exfalso. apply dict_get_None in Hc.
      rewrite fold_baseline_get_other in Hn by exact Hc.
      rewrite fold_current_get_other in Hn by exact Hc.
      discriminate. }
  exists analysis. split; [exact Ha|]. split; [exact Hk|].
  split; [exact Hentry|].
  intros a Hin. apply ranked_In in Hin. destruct Hin as (n & e & Hin & Hstep).
  assert (Hn : Dict.get n analysis = Some e).
  { apply dict_In_get; auto. rewrite Hk. exact Hnd. }
  destruct (Hentry n e Hn) as (Hs & _).
  destruct (rank_step_cases n e)
    as [[E _] | [[E _] | [(_ & _ & _ & _ & E) | (_ & _ & _ & E)]]];
    try congruence; rewrite E in Hstep; simpl in Hstep.
  - destruct Hstep as [<- | []]. split; reflexivity.
  - contradiction.
Qed.

Lemma self_comparison_witness :
  exists analysis,
    analyze_individual_checks ScorecardExamples.scenario_d_baseline
      ScorecardExamples.scenario_d_baseline = Some analysis /\
    Dict.keys analysis = ["Maintained"; "Fuzzing"] /\
    (forall n e, Dict.get n analysis = Some e ->
                 a_status e = unchanged /\ a_diff e = 0 /\
                 a_current_score e = a_baseline_score e) /\
    (forall a, In a (identify_priority_actions analysis) ->
               act_action a = improve_security /\ act_priority a = medium).
Proof.
  apply (self_comparison ScorecardExamples.scenario_d_baseline
           ScorecardExamples.scenario_d_baseline_dict).
  reflexivity.
Defined.

(** *** The ranked actions *)

Lemma rank_step_priority n d a :
  In a (rank_step [] (n, d)) ->
  (act_priority a = high \/ act_priority a = medium) /\
  act_check a = n /\
  act_current_score a = a_current_score d /\
  act_baseline_score a = a_baseline_score d /\
  act_diff a = a_diff d /\
  act_reason a = a_current_reason d.
Proof.
  destruct (rank_step_cases n d)
    as [[_ ->] | [[_ ->] | [(_ & _ & _ & _ & ->) | (_ & _ & _ & ->)]]];
    simpl; intros H; try contradiction; destruct H as [<- | []];
    unfold make_action;
    cbn [act_priority act_check act_current_score act_baseline_score
         act_diff act_reason];
    repeat split; auto.
  all: destruct (is_critical n); auto.
Qed.

(** Every ranked action is of high or medium priority, never low, and it
    carries the scores, the difference and the reason of an analysed check;
    there are no more actions than analysed checks. *)
Theorem actions_come_from_the_analysis :
  forall analysis,
    let ranked := identify_priority_actions analysis in
    (forall a, In a ranked ->
       (act_priority a = high \/ act_priority a = medium) /\
       exists d, In (act_check a, d) analysis /\
                 act_current_score a = a_current_score d /\
                 act_baseline_score a = a_baseline_score d /\
                 act_diff a = a_diff d /\
                 act_reason a = a_current_reason d) /\
    (List.length ranked <= List.length analysis)%nat.
Proof.
  intros analysis ranked. split.
  - intros a Ha. apply ranked_In in Ha. destruct Ha as (n & d & Hin & Ha).
    destruct (rank_step_priority n d a Ha) as (Hp & <- & Hrest).
    split; auto. exists d. split; auto.
  - subst ranked. unfold identify_priority_actions.
    rewrite <- (Permutation_length (sort_by_key_perm _)).
    rewrite collect_actions_flat_map.
    induction analysis as [|[n d] l IH]; cbn [flat_map List.length]; auto.
    rewrite length_app. pose proof (rank_step_length n d). lia.
Qed.

Lemma sorted_split l :
  StronglySorted action_le l ->
  Forall (fun a => act_priority a = high \/ act_priority a = medium) l ->
  l = filter (fun a => priority_eqb (act_priority a) high) l
      ++ filter (fun a => priority_eqb (act_priority a) medium) l.
Proof.
  induction 1 as [|a l Hs IH Hall]; intros Hp; auto.
  inversion Hp as [|? ? Ha Hl]; subst. specialize (IH Hl).
  cbn [filter]. destruct Ha as [Ha | Ha]; rewrite Ha; cbn [priority_eqb].
  - cbn [app]. now f_equal.
  - assert (Hmed : Forall (fun b => act_priority b = medium) l).
    { rewrite Forall_forall in *. intros b Hb.
      specialize (Hall b Hb). specialize (Hl b Hb).
      unfold action_le in Hall. rewrite Ha in Hall.
      destruct Hl as [Hb' | Hb']; auto.
      rewrite Hb' in Hall. simpl in Hall. lia. }
    rewrite (filter_none (fun b => priority_eqb (act_priority b) high) l).
    + cbn [app]. f_equal.
      symmetry. apply forallb_filter_id. apply forallb_forall.
      rewrite Forall_forall in Hmed. intros b Hb. now rewrite (Hmed b Hb).
    + rewrite Forall_forall in Hmed. intros b Hb. now rewrite (Hmed b Hb).
Qed.

Lemma high_priority_actions_come_first_aux analysis :
  identify_priority_actions analysis =
  filter (fun a => priority_eqb (act_priority a) high)
    (identify_priority_actions analysis)
  ++ filter (fun a => priority_eqb (act_priority a) medium)
       (identify_priority_actions analysis).
Proof.
  apply sorted_split.
  - apply sort_by_key_sorted.
  - apply Forall_forall. intros a Ha.
    apply ranked_In in Ha. destruct Ha as (n & d & _ & Ha).
    now destruct (rank_step_priority n d a Ha).
Qed.

(** In the ranked list all the high-priority actions come before all the
    medium-priority ones: the list is its high part followed by its medium
    part. *)
Theorem high_priority_actions_come_first :
  forall analysis,
    let ranked := identify_priority_actions analysis in
    ranked =
    filter (fun a => priority_eqb (act_priority a) high) ranked
    ++ filter (fun a => priority_eqb (act_priority a) medium) ranked.
Proof.
  intros analysis ranked. apply high_priority_actions_come_first_aux.
Qed.

(** *** The summary *)

Lemma status_counts l :
  (count_status improved l + count_status declined l
   + count_status unchanged l + count_status missing l
   = List.length l)%nat.
Proof.
  unfold count_status, Dict.values.
  induction l as [|[n d] l IH]; simpl; auto.
  destruct (a_status d); simpl; lia.
Qed.

Lemma actions_cover_declined_and_missing l :
  (count_status declined l + count_status missing l
   <= List.length (flat_map (rank_step []) l))%nat.
Proof.
  unfold count_status, Dict.values.
  induction l as [|[n d] l IH]; cbn [flat_map map filter snd]; auto.
  rewrite length_app.
  assert (H : (List.length (filter (fun a => status_eqb (a_status a) declined) [d])
               + List.length (filter (fun a => status_eqb (a_status a) missing) [d])
               <= List.length (rank_step [] (n, d)))%nat).
  { destruct (rank_step_cases n d)
      as [[E ->] | [[E ->] | [(E1 & E2 & _ & _ & ->) | (E1 & E2 & _ & ->)]]];
      cbn [filter]; destruct (a_status d); cbn; try congruence; lia. }
  cbn [filter] in H.
  destruct (status_eqb (a_status d) declined),
           (status_eqb (a_status d) missing);
    cbn [List.length] in *; lia.
Qed.

(** The counts of the summary: the four status counts add up to the number
    of analysed checks, the two priority counts to the number of ranked
    actions, and every declined or missing check stands for at least one
    action. *)
Theorem summary_counts_add_up :
  forall now current_data baseline_data analysis,
    let actions := identify_priority_actions analysis in
    let s := js_summary (generate_json_summary now current_data baseline_data
                           analysis actions) in
    (improved_checks s + declined_checks s + unchanged_checks s
     + missing_checks s = List.length analysis)%nat /\
    (high_priority_actions s + medium_priority_actions s
     = List.length actions)%nat /\
    (declined_checks s + missing_checks s <= List.length actions)%nat.
Proof.
  intros now current_data baseline_data analysis actions s.
  subst s. unfold generate_json_summary.
  destruct (calculate_score_diff _ _) as [diff st].
  cbn [js_summary improved_checks declined_checks unchanged_checks
       missing_checks high_priority_actions medium_priority_actions].
  split; [apply status_counts|]. split.
  - unfold count_priority.
    pose proof (high_priority_actions_come_first_aux analysis) as H.
    fold actions in H. rewrite H at 3. now rewrite length_app.
  - subst actions. unfold identify_priority_actions.
    rewrite <- (Permutation_length (sort_by_key_perm _)).
    rewrite collect_actions_flat_map.
    apply actions_cover_declined_and_missing.
Qed.

End ScorecardMore.
